(** * drizzle-kit for SingleStore: squasher, snapshot API and push commands

    A shallow embedding of
    - [serializer/singlestoreSchema.ts] (src/unnamed/part_004): the snapshot
      data model, the [SingleStoreSquasher] object and
      [squashSingleStoreScheme];
    - [drizzle-kit/src/api.ts]: [generate*DrizzleJson], [generate*Migration],
      [pushSingleStoreSchema] and [upPgSnapshot];
    - [cli/commands/push.ts] (the third document of
      src/integration-tests/.../singlestore.duplicates.ts): [mysqlPush] and
      [singlestorePush].

    JavaScript strings are modelled by [string]; the only string operations
    the code uses ([split], [join], template literals, [===]) do not look
    inside a character, so the alphabet is immaterial.  JavaScript objects
    used as dictionaries are finite maps [gmap string _]; an optional member
    is an [option], absent and [undefined] being the same [None].

    Exceptions are the [Err] of a result type.  The code that talks to a
    database runs in a small monad that threads the state of the connection
    and records what is done to the outside as a trace of events. *)

From Stdlib Require Import Ascii String.
From stdpp Require Import base option list strings gmap fin_maps.

Set Warnings "-register-all".

Local Open Scope string_scope.
Local Open Scope list_scope.

(** ** Exceptions *)

(** The kinds of exception the modelled code meets: a [TypeError] (a method
    called on [undefined]), zod's [ZodError], and an error reported by the
    database driver for a rejected query. *)
Inductive error : Type :=
| TypeError
| ZodError
| DriverError.

Inductive result (A : Type) : Type :=
| Ok (a : A)
| Err (e : error).
Arguments Ok {A} a.
Arguments Err {A} e.

Definition rbind {A B} (r : result A) (k : A -> result B) : result B :=
  match r with
  | Ok a => k a
  | Err e => Err e
  end.

Notation "x <-- r ;; k" := (rbind r (fun x => k))
  (at level 100, r at next level, right associativity).

Definition is_Ok {A} (r : result A) : bool :=
  match r with Ok _ => true | Err _ => false end.

(** Sequential traversal that stops at the first exception. *)
Fixpoint rmapM {A B} (f : A -> result B) (l : list A) : result (list B) :=
  match l with
  | [] => Ok []
  | x :: l' => y <-- f x ;; ys <-- rmapM f l' ;; Ok (y :: ys)
  end.

(** ** JavaScript string primitives *)

Module Js.

(** [s.includes(c)] for a one-character [c]. *)
Fixpoint has_char (c : ascii) (s : string) : bool :=
  match s with
  | EmptyString => false
  | String d s' => Ascii.eqb d c || has_char c s'
  end.

(** [s.split(sep)] for a one-character separator.  The result of
    [split] is never empty, so it is computed as a head and a tail:
    the head is what array destructuring binds first. *)
Fixpoint split_ne (sep : ascii) (s : string) : string * list string :=
  match s with
  | EmptyString => (EmptyString, [])
  | String c s' =>
      let '(h, t) := split_ne sep s' in
      if Ascii.eqb c sep then (EmptyString, h :: t) else (String c h, t)
  end.

Definition split (sep : ascii) (s : string) : list string :=
  let '(h, t) := split_ne sep s in h :: t.

(** [l.join(sep)]. *)
Fixpoint join (sep : string) (l : list string) : string :=
  match l with
  | [] => EmptyString
  | [x] => x
  | x :: (_ :: _) as tl => x +:+ sep +:+ join sep tl
  end.

(** [`${b}`] for a boolean. *)
Definition of_bool (b : bool) : string := if b then "true" else "false".

(** [o ?? ''] for an optional string. *)
Definition or_empty (o : option string) : string := default "" o.

(** [s ? s : undefined]: the empty string is falsy. *)
Definition truthy (o : option string) : option string :=
  match o with
  | Some s => if String.eqb s "" then None else Some s
  | None => None
  end.

(** [arr.includes(x)] on an array of strings. *)
Definition includes (arr : list string) (x : string) : bool :=
  existsb (String.eqb x) arr.

End Js.

(** ** The snapshot schema of [singlestoreSchema.ts] *)

Definition semi : ascii := ";"%char.
Definition comma : ascii := ","%char.

Record Index : Type := mkIndex {
  idx_name : string;
  idx_columns : list string;
  idx_isUnique : bool;
  idx_using : option string;
  idx_algorithm : option string;
  idx_lock : option string
}.

Record PrimaryKey : Type := mkPrimaryKey {
  pk_name : string;
  pk_columns : list string
}.

Record UniqueConstraint : Type := mkUniqueConstraint {
  unq_name : string;
  unq_columns : list string
}.

(** [enumType([...]).optional()] *)
Definition enum_optional (allowed : list string) (o : option string) : bool :=
  match o with
  | None => true
  | Some s => Js.includes allowed s
  end.

Definition using_values : list string := ["btree"; "hash"].
Definition algorithm_values : list string := ["default"; "inplace"; "copy"].
Definition lock_values : list string := ["default"; "none"; "shared"; "exclusive"].

(** The [index] validator on a value that already has the field types of
    [Index]: what is left to check are the three enumerations. *)
Definition index_valid (idx : Index) : bool :=
  enum_optional using_values (idx_using idx)
  && enum_optional algorithm_values (idx_algorithm idx)
  && enum_optional lock_values (idx_lock idx).

(** [index.parse(v)] *)
Definition index_parse (idx : Index) : result Index :=
  if index_valid idx then Ok idx else Err ZodError.

(** ** [SingleStoreSquasher] *)

Module SingleStoreSquasher.

Definition squashIdx (idx : Index) : result string :=
  _ <-- index_parse idx ;;
  Ok (idx_name idx +:+ ";" +:+ Js.join "," (idx_columns idx) +:+ ";"
      +:+ Js.of_bool (idx_isUnique idx) +:+ ";"
      +:+ Js.or_empty (idx_using idx) +:+ ";"
      +:+ Js.or_empty (idx_algorithm idx) +:+ ";"
      +:+ Js.or_empty (idx_lock idx)).

Definition unsquashIdx (input : string) : result Index :=
  let '(name, rest) := Js.split_ne semi input in
  let columnsString := rest !! 0%nat in
  let isUnique := rest !! 1%nat in
  let using' := rest !! 2%nat in
  let algorithm := rest !! 3%nat in
  let lock := rest !! 4%nat in
  match columnsString with
  | None => Err TypeError
  | Some cs =>
      index_parse
        {| idx_name := name;
           idx_columns := Js.split comma cs;
           idx_isUnique := bool_decide (isUnique = Some "true");
           idx_using := Js.truthy using';
           idx_algorithm := Js.truthy algorithm;
           idx_lock := Js.truthy lock |}
  end.

Definition squashPK (pk : PrimaryKey) : string :=
  pk_name pk +:+ ";" +:+ Js.join "," (pk_columns pk).

Definition unsquashPK (pk : string) : result PrimaryKey :=
  let '(splitted0, rest) := Js.split_ne semi pk in
  match rest !! 0%nat with
  | None => Err TypeError
  | Some splitted1 =>
      Ok {| pk_name := splitted0; pk_columns := Js.split comma splitted1 |}
  end.

Definition squashUnique (unq : UniqueConstraint) : string :=
  unq_name unq +:+ ";" +:+ Js.join "," (unq_columns unq).

Definition unsquashUnique (unq : string) : result UniqueConstraint :=
  let '(name, rest) := Js.split_ne semi unq in
  match rest !! 0%nat with
  | None => Err TypeError
  | Some columns =>
      Ok {| unq_name := name; unq_columns := Js.split comma columns |}
  end.

End SingleStoreSquasher.

Import SingleStoreSquasher.

(** ** Tables and snapshots *)

(** A JSON value, for the fields the schema declares as [any()] and for
    snapshots of the dialects whose schema is not part of this development. *)
Inductive jsonValue : Type :=
| JNull
| JBool (b : bool)
| JNum (n : Z)
| JStr (s : string)
| JArr (items : list jsonValue)
| JObj (fields : list (string * jsonValue)).

Record Generated : Type := mkGenerated {
  gen_type : string;
  gen_as : string
}.

Record Column : Type := mkColumn {
  col_name : string;
  col_type : string;
  col_primaryKey : bool;
  col_notNull : bool;
  col_autoincrement : option bool;
  col_default : option jsonValue;
  col_onUpdate : option jsonValue;
  col_generated : option Generated
}.

Record Table : Type := mkTable {
  tbl_name : string;
  tbl_columns : gmap string Column;
  tbl_indexes : gmap string Index;
  tbl_compositePrimaryKeys : gmap string PrimaryKey;
  tbl_uniqueConstraints : gmap string UniqueConstraint
}.

(** [kitInternals]: both members are optional records of optional objects
    whose [columns] member maps a column to an optional flag object. *)
Record KitInternals : Type := mkKitInternals {
  int_tables : option (gmap string (option (gmap string (option (option bool)))));
  int_indexes : option (gmap string (option (gmap string (option (option bool)))))
}.

Record Meta : Type := mkMeta {
  meta_tables : gmap string string;
  meta_columns : gmap string string
}.

(** [schemaInternal] *)
Record SingleStoreSchemaInternal : Type := mkSchemaInternal {
  si_version : string;
  si_dialect : string;
  si_tables : gmap string Table;
  si_meta : Meta;
  si_internal : option KitInternals
}.

(** [schema = schemaInternal.merge(schemaHash)] *)
Record SingleStoreSchema : Type := mkSchema {
  s_version : string;
  s_dialect : string;
  s_tables : gmap string Table;
  s_meta : Meta;
  s_internal : option KitInternals;
  s_id : string;
  s_prevId : string
}.

Record TableSquashed : Type := mkTableSquashed {
  ts_name : string;
  ts_columns : gmap string Column;
  ts_indexes : gmap string string;
  ts_compositePrimaryKeys : gmap string string;
  ts_uniqueConstraints : gmap string string
}.

Record SingleStoreSchemaSquashed : Type := mkSchemaSquashed {
  sq_version : string;
  sq_dialect : string;
  sq_tables : gmap string TableSquashed
}.

(** A validator of [record(string(), v)] checks every value. *)
Definition record_valid {V} (p : V -> bool) (m : gmap string V) : bool :=
  forallb (fun kv => p kv.2) (map_to_list m).

Definition column_valid (c : Column) : bool :=
  match col_generated c with
  | None => true
  | Some g => Js.includes ["stored"; "virtual"] (gen_type g)
  end.

Definition table_valid (t : Table) : bool :=
  record_valid column_valid (tbl_columns t)
  && record_valid index_valid (tbl_indexes t).

(** The [schema] validator on a value that has the field types of
    [SingleStoreSchema]: the two literals and the nested enumerations. *)
Definition singlestoreSchema_valid (s : SingleStoreSchema) : bool :=
  String.eqb (s_version s) "1"
  && String.eqb (s_dialect s) "singlestore"
  && record_valid table_valid (s_tables s).

(** [singlestoreSchema.parse(v)] *)
Definition singlestoreSchema_parse (s : SingleStoreSchema) : result SingleStoreSchema :=
  if singlestoreSchema_valid s then Ok s else Err ZodError.

(** Modelled from the spec: [mapValues] of [../global] is not under src/;
    it builds the mapping with the same keys whose values are the callback's
    results, calling the callback once per key.  An exception of the
    callback leaves [mapValues]. *)
Definition mapValues {A B} (obj : gmap string A) (f : A -> result B) : result (gmap string B) :=
  kvs <-- rmapM (fun kv => v <-- f kv.2 ;; Ok (kv.1, v)) (map_to_list obj) ;;
  Ok (list_to_map kvs).

(** [Object.entries] is [map_to_list] and [Object.fromEntries] is
    [list_to_map]. *)
Definition squashSingleStoreScheme (json : SingleStoreSchema) : result SingleStoreSchemaSquashed :=
  mappedTables <--
    rmapM (fun it : string * Table =>
             squashedIndexes <-- mapValues (tbl_indexes it.2) (fun index => squashIdx index) ;;
             squashedPKs <-- mapValues (tbl_compositePrimaryKeys it.2) (fun pk => Ok (squashPK pk)) ;;
             squashedUniqueConstraints <--
               mapValues (tbl_uniqueConstraints it.2) (fun unq => Ok (squashUnique unq)) ;;
             Ok (it.1,
                 {| ts_name := tbl_name it.2;
                    ts_columns := tbl_columns it.2;
                    ts_indexes := squashedIndexes;
                    ts_compositePrimaryKeys := squashedPKs;
                    ts_uniqueConstraints := squashedUniqueConstraints |}))
          (map_to_list (s_tables json)) ;;
  Ok {| sq_version := "1";
        sq_dialect := s_dialect json;
        sq_tables := list_to_map mappedTables |}.

(** ** Effects: the live connection, the terminal and the process *)

(** The capability [{ query(sql) }] of a live connection: running a query
    moves the database to a new state and is acknowledged or rejected. *)
Class DB (Conn : Type) : Type := { run_query : string -> Conn -> Conn * bool }.

(** What the interactive prompts ask. *)
Inductive question : Type :=
| ConfirmAll
| ConfirmDataLoss (tablesToRemove columnsToRemove tablesToTruncate : nat).

Inductive message : Type :=
| NoChanges
| Aborted
| Applied.

(** What a run does to the outside, in the order it is done.  [Issued] is
    the call of [db.query], [Settled] the settlement of its promise;
    [Asked] is a [Select] prompt with the index the operator chose, if any. *)
Inductive event : Type :=
| Issued (sql : string)
| Settled (sql : string) (acknowledged : bool)
| Asked (q : question) (answer : option nat)
| Rendered (m : message)
| LoggedStatements (sqls : list string)
| LoggedWarnings (info : list string)
| LoggedError (e : error).

Inductive outcome (A : Type) : Type :=
| Ret (a : A)
| Throw (e : error)
| Exit (code : nat).
Arguments Ret {A} a.
Arguments Throw {A} e.
Arguments Exit {A} code.

(** An asynchronous computation against a connection: its outcome, the
    connection it leaves and the events it caused. *)
Definition M (Conn A : Type) : Type := Conn -> outcome A * Conn * list event.

Section Monad.
Context {Conn : Type}.

Definition ret {A} (a : A) : M Conn A := fun c => (Ret a, c, []).

(** [await m; k] *)
Definition bind {A B} (m : M Conn A) (k : A -> M Conn B) : M Conn B :=
  fun c =>
    match m c with
    | (Ret a, c1, evs1) => let '(o, c2, evs2) := k a c1 in (o, c2, evs1 ++ evs2)
    | (Throw e, c1, evs1) => (Throw e, c1, evs1)
    | (Exit n, c1, evs1) => (Exit n, c1, evs1)
    end.

Definition emit (e : event) : M Conn unit := fun c => (Ret tt, c, [e]).

(** [process.exit(code)] *)
Definition exit {A} (code : nat) : M Conn A := fun c => (Exit code, c, []).

Definition lift {A} (r : result A) : M Conn A :=
  fun c => (match r with Ok a => Ret a | Err e => Throw e end, c, []).

(** A collaborator that only reads the database (the introspection, and
    the row counts of the data-loss classifier): its reads leave the
    connection as it is and are not recorded as events. *)
Definition reads {A} (f : Conn -> result A) : M Conn A := fun c => lift (f c) c.

(** [try { m } catch (e) { h(e) }]; [process.exit] is not caught. *)
Definition try_catch {A} (m : M Conn A) (h : error -> M Conn A) : M Conn A :=
  fun c =>
    match m c with
    | (Throw e, c1, evs1) => let '(o, c2, evs2) := h e c1 in (o, c2, evs1 ++ evs2)
    | r => r
    end.

(** [await db.query(sql)] *)
Definition query `{DB Conn} (sql : string) : M Conn unit :=
  fun c =>
    let '(c', ok) := run_query sql c in
    (if ok then Ret tt else Throw DriverError, c', [Issued sql; Settled sql ok]).

(** [for (const x of l) { await body(x) }] *)
Fixpoint for_await {X} (l : list X) (body : X -> M Conn unit) : M Conn unit :=
  match l with
  | [] => ret tt
  | x :: l' => bind (body x) (fun _ => for_await l' body)
  end.

(** [await render(new Select(...))], then [data?.index]. *)
Definition ask (user : question -> option nat) (q : question) : M Conn (option nat) :=
  fun c => (Ret (user q), c, [Asked q (user q)]).

End Monad.

Notation "x <- m ; k" := (bind m (fun x => k))
  (at level 100, m at next level, right associativity).
Notation "m ;;; k" := (bind m (fun _ => k))
  (at level 100, right associativity).

(** *** Reading a trace *)

(** The statements issued to the connection, in order. *)
Definition issued (evs : list event) : list string :=
  omap (fun e => match e with Issued sql => Some sql | _ => None end) evs.

(** The prompts shown, in order. *)
Definition prompts (evs : list event) : list question :=
  omap (fun e => match e with Asked q _ => Some q | _ => None end) evs.

(** No query is issued while another one is outstanding: scanning the
    trace with the query that has not settled yet, if any. *)
Fixpoint sequential_from (pending : option string) (evs : list event) : bool :=
  match evs with
  | [] => bool_decide (pending = None)
  | Issued sql :: rest =>
      match pending with
      | None => sequential_from (Some sql) rest
      | Some _ => false
      end
  | Settled sql _ :: rest =>
      match pending with
      | Some sql' => String.eqb sql sql' && sequential_from None rest
      | None => false
      end
  | _ :: rest => sequential_from pending rest
  end.

Definition sequential (evs : list event) : bool := sequential_from None evs.

(** No statement is issued before the data-loss prompt has returned, and
    none after the answer [No, abort] (index 0).  Any other return of the
    prompt lets statements follow, also the one without an answer. *)
Fixpoint approved_before_issue (evs : list event) : bool :=
  match evs with
  | [] => true
  | Issued _ :: _ => false
  | Asked (ConfirmDataLoss _ _ _) answer :: rest =>
      if bool_decide (answer = Some 0%nat) then bool_decide (issued rest = []) else true
  | _ :: rest => approved_before_issue rest
  end.

(** What the data-loss classifier ([logSuggestionsAndReturn]) returns. *)
Record Suggestions : Type := mkSuggestions {
  shouldAskForApprove : bool;
  statementsToExecute : list string;
  columnsToRemove : list string;
  tablesToRemove : list string;
  tablesToTruncate : list string;
  infoToPrint : list string
}.

(** What [pushSingleStoreSchema] resolves to; [apply] is a function the
    caller may run later. *)
Record PushResult (Conn : Type) : Type := mkPushResult {
  hasDataLoss : bool;
  warnings : list string;
  res_statementsToExecute : list string;
  apply : M Conn unit
}.
Arguments mkPushResult {Conn} _ _ _ _.
Arguments hasDataLoss {Conn} _.
Arguments warnings {Conn} _.
Arguments res_statementsToExecute {Conn} _.
Arguments apply {Conn} _.

(** ** [api.ts] *)

(** What a snapshot differ returns; the members [api.ts] reads. *)
Record DiffResult (Statement : Type) : Type := mkDiffResult {
  statements : list Statement;
  sqlStatements : list string
}.
Arguments mkDiffResult {Statement} _ _.
Arguments statements {Statement} _.
Arguments sqlStatements {Statement} _.

(** What [prepareFromExports] returns, per dialect. *)
Record Prepared (T : Type) : Type := mkPrepared { prep_tables : T }.
Arguments mkPrepared {T} _.
Arguments prep_tables {T} _.

Record PgPrepared (T E S Q : Type) : Type := mkPgPrepared {
  pg_tables : T;
  pg_enums : E;
  pg_schemas : S;
  pg_sequences : Q
}.
Arguments mkPgPrepared {T E S Q} _ _ _ _.
Arguments pg_tables {T E S Q} _.
Arguments pg_enums {T E S Q} _.
Arguments pg_schemas {T E S Q} _.
Arguments pg_sequences {T E S Q} _.

(** The argument of [fillPgSnapshot]. *)
Record FillArgs : Type := mkFillArgs {
  serialized : gmap string jsonValue;
  fill_id : string;
  idPrev : string
}.

(** [{ ...snapshot, id, prevId }] on an object of unknown shape: the own
    properties of [snapshot], then [id] and [prevId]. *)
Definition spread_id_prevId (snapshot : gmap string jsonValue) (id prevId : string)
  : gmap string jsonValue :=
  <["prevId" := JStr prevId]> (<["id" := JStr id]> snapshot).

(** Modelled from the spec: [fillPgSnapshot] of [./migrationPreparator] is
    not under src/; it returns the serialized snapshot with the given [id]
    and with [prevId] set to [idPrev], every other field as it was. *)
Definition fillPgSnapshot (a : FillArgs) : gmap string jsonValue :=
  spread_id_prevId (serialized a) (fill_id a) (idPrev a).

Module Api.
Section Api.

(** [originUUID] of [./global], the [prevId] of a first snapshot. *)
Variable originUUID : string.

(** [Record<string, unknown>], the exports of the user's schema files. *)
Variable Imports : Type.

(** The serializers, one per dialect. *)
Variables PgTables PgEnums PgSchemas PgSequences SQLiteTables MySqlTables SingleStoreTables : Type.
Variable pg_prepareFromExports : Imports -> result (PgPrepared PgTables PgEnums PgSchemas PgSequences).
Variable generatePgSnapshot :
  PgTables -> PgEnums -> PgSchemas -> PgSequences -> option (list string) ->
  result (gmap string jsonValue).
Variable sqlite_prepareFromExports : Imports -> result (Prepared SQLiteTables).
Variable generateSqliteSnapshot : SQLiteTables -> result (gmap string jsonValue).
Variable mysql_prepareFromExports : Imports -> result (Prepared MySqlTables).
Variable generateMySqlSnapshot : MySqlTables -> result (gmap string jsonValue).
Variable singlestore_prepareFromExports : Imports -> result (Prepared SingleStoreTables).
Variable generateSingleStoreSnapshot : SingleStoreTables -> result SingleStoreSchemaInternal.

(** [randomUUID()] draws the identifier; here the drawn value is the
    argument [uuid]. *)

Definition generateDrizzleJson (imports : Imports) (prevId : option string)
    (schemaFilters : option (list string)) (uuid : string)
  : result (gmap string jsonValue) :=
  prepared <-- pg_prepareFromExports imports ;;
  let id := uuid in
  snapshot <-- generatePgSnapshot (pg_tables prepared) (pg_enums prepared)
                 (pg_schemas prepared) (pg_sequences prepared) schemaFilters ;;
  Ok (fillPgSnapshot
        {| serialized := snapshot; fill_id := id; idPrev := default originUUID prevId |}).

Definition generateSQLiteDrizzleJson (imports : Imports) (prevId : option string)
    (uuid : string) : result (gmap string jsonValue) :=
  prepared <-- sqlite_prepareFromExports imports ;;
  let id := uuid in
  snapshot <-- generateSqliteSnapshot (prep_tables prepared) ;;
  Ok (spread_id_prevId snapshot id (default originUUID prevId)).

Definition generateMySQLDrizzleJson (imports : Imports) (prevId : option string)
    (uuid : string) : result (gmap string jsonValue) :=
  prepared <-- mysql_prepareFromExports imports ;;
  let id := uuid in
  snapshot <-- generateMySqlSnapshot (prep_tables prepared) ;;
  Ok (spread_id_prevId snapshot id (default originUUID prevId)).

Definition generateSingleStoreDrizzleJson (imports : Imports) (prevId : option string)
    (uuid : string) : result SingleStoreSchema :=
  prepared <-- singlestore_prepareFromExports imports ;;
  let id := uuid in
  snapshot <-- generateSingleStoreSnapshot (prep_tables prepared) ;;
  Ok {| s_version := si_version snapshot;
        s_dialect := si_dialect snapshot;
        s_tables := si_tables snapshot;
        s_meta := si_meta snapshot;
        s_internal := si_internal snapshot;
        s_id := id;
        s_prevId := default originUUID prevId |}.

(** *** Migrations *)

(** The abstract statements of the differ. *)
Variable JsonStatement : Type.

(** The validators, squashers and differs of the other dialects.  The
    resolvers the differs are called with are module constants and are
    part of the differ here; the last argument is the optional action
    (['push']). *)
Variables PgSchemaKit PgSquashed SQLiteSchemaKit SQLiteSquashed MySQLSchemaKit MySQLSquashed : Type.
Variable pgSchema_parse : PgSchemaKit -> result PgSchemaKit.
Variable squashPgScheme : PgSchemaKit -> option string -> result PgSquashed.
Variable applyPgSnapshotsDiff :
  PgSquashed -> PgSquashed -> PgSchemaKit -> PgSchemaKit -> option string ->
  result (DiffResult JsonStatement).
Variable sqliteSchema_parse : SQLiteSchemaKit -> result SQLiteSchemaKit.
Variable squashSqliteScheme : SQLiteSchemaKit -> option string -> result SQLiteSquashed.
Variable applySqliteSnapshotsDiff :
  SQLiteSquashed -> SQLiteSquashed -> SQLiteSchemaKit -> SQLiteSchemaKit -> option string ->
  result (DiffResult JsonStatement).
Variable mysqlSchema_parse : MySQLSchemaKit -> result MySQLSchemaKit.
Variable squashMysqlScheme : MySQLSchemaKit -> result MySQLSquashed.
Variable applyMysqlSnapshotsDiff :
  MySQLSquashed -> MySQLSquashed -> MySQLSchemaKit -> MySQLSchemaKit -> option string ->
  result (DiffResult JsonStatement).
Variable applySingleStoreSnapshotsDiff :
  SingleStoreSchemaSquashed -> SingleStoreSchemaSquashed ->
  SingleStoreSchema -> SingleStoreSchema -> option string ->
  result (DiffResult JsonStatement).

Definition generateMigration (prev cur : PgSchemaKit) : result (list string) :=
  validatedPrev <-- pgSchema_parse prev ;;
  validatedCur <-- pgSchema_parse cur ;;
  squashedPrev <-- squashPgScheme validatedPrev None ;;
  squashedCur <-- squashPgScheme validatedCur None ;;
  r <-- applyPgSnapshotsDiff squashedPrev squashedCur validatedPrev validatedCur None ;;
  Ok (sqlStatements r).

Definition generateSQLiteMigration (prev cur : SQLiteSchemaKit) : result (list string) :=
  validatedPrev <-- sqliteSchema_parse prev ;;
  validatedCur <-- sqliteSchema_parse cur ;;
  squashedPrev <-- squashSqliteScheme validatedPrev None ;;
  squashedCur <-- squashSqliteScheme validatedCur None ;;
  r <-- applySqliteSnapshotsDiff squashedPrev squashedCur validatedPrev validatedCur None ;;
  Ok (sqlStatements r).

Definition generateMySQLMigration (prev cur : MySQLSchemaKit) : result (list string) :=
  validatedPrev <-- mysqlSchema_parse prev ;;
  validatedCur <-- mysqlSchema_parse cur ;;
  squashedPrev <-- squashMysqlScheme validatedPrev ;;
  squashedCur <-- squashMysqlScheme validatedCur ;;
  r <-- applyMysqlSnapshotsDiff squashedPrev squashedCur validatedPrev validatedCur None ;;
  Ok (sqlStatements r).

Definition generateSingleStoreMigration (prev cur : SingleStoreSchema) : result (list string) :=
  validatedPrev <-- singlestoreSchema_parse prev ;;
  validatedCur <-- singlestoreSchema_parse cur ;;
  squashedPrev <-- squashSingleStoreScheme validatedPrev ;;
  squashedCur <-- squashSingleStoreScheme validatedCur ;;
  r <-- applySingleStoreSnapshotsDiff squashedPrev squashedCur validatedPrev validatedCur None ;;
  Ok (sqlStatements r).

(** *** [upPgSnapshot] *)

(** [updateUpToV6] and [updateUpToV7] of [./cli/commands/pgUp]. *)
Variables upPgV6 upPgV7 : gmap string jsonValue -> gmap string jsonValue.

(** [snapshot.version === v] for a string [v]. *)
Definition version_is (v : string) (snapshot : gmap string jsonValue) : bool :=
  match snapshot !! "version" with
  | Some (JStr s) => String.eqb s v
  | _ => false
  end.

Definition upPgSnapshot (snapshot : gmap string jsonValue) : gmap string jsonValue :=
  if version_is "5" snapshot then upPgV7 (upPgV6 snapshot)
  else if version_is "6" snapshot then upPgV7 snapshot
  else snapshot.

(** *** [pushSingleStoreSchema] *)

(** The connection behind [drizzleInstance], and the two collaborators
    that read it: the introspection and the data-loss classifier. *)
Context {Conn : Type} `{DB Conn}.
Variable singlestorePushIntrospect :
  Conn -> string -> list string -> result SingleStoreSchema.
Variable logSuggestionsAndReturn :
  Conn -> list JsonStatement -> SingleStoreSchema -> result Suggestions.

Definition pushSingleStoreSchema (imports : Imports) (databaseName : string)
    (uuid : string) : M Conn (PushResult Conn) :=
  cur <- lift (generateSingleStoreDrizzleJson imports None uuid) ;
  prev <- reads (fun db => singlestorePushIntrospect db databaseName []) ;
  validatedPrev <- lift (singlestoreSchema_parse prev) ;
  validatedCur <- lift (singlestoreSchema_parse cur) ;
  squashedPrev <- lift (squashSingleStoreScheme validatedPrev) ;
  squashedCur <- lift (squashSingleStoreScheme validatedCur) ;
  r <- lift (applySingleStoreSnapshotsDiff squashedPrev squashedCur
               validatedPrev validatedCur (Some "push")) ;
  s <- reads (fun db => logSuggestionsAndReturn db (statements r) validatedCur) ;
  ret {| hasDataLoss := shouldAskForApprove s;
         warnings := infoToPrint s;
         res_statementsToExecute := statementsToExecute s;
         apply := for_await (statementsToExecute s) (fun dStmnt => query dStmnt) |}.

End Api.
End Api.

(** ** [cli/commands/push.ts] *)

Module Cli.

(** The loop
    [xs.forEach((ss) => { if (!unique.includes(ss)) unique.push(ss) })]
    that both push commands run on both statement lists. *)
Definition uniqueStatements (xs : list string) : list string :=
  fold_left (fun unique ss => if Js.includes unique ss then unique else unique ++ [ss])
            xs [].

(** The list the claim describes, in its words: each distinct string once,
    in the order of its first occurrence. *)
Fixpoint first_occurrences (xs : list string) : list string :=
  match xs with
  | [] => []
  | x :: rest => x :: filter (fun y => y <> x) (first_occurrences rest)
  end.

(** What [prepareMySQLPush] and [prepareSingleStorePush] return. *)
Record PreparedPush (Statement Schema : Type) : Type := mkPreparedPush {
  pp_statements : option (list Statement);
  validatedCur : Schema;
  validatedPrev : Schema
}.
Arguments mkPreparedPush {Statement Schema} _ _ _.
Arguments pp_statements {Statement Schema} _.
Arguments validatedCur {Statement Schema} _.
Arguments validatedPrev {Statement Schema} _.

Section Cli.

Context {Conn : Type} `{DB Conn}.

(** The operator at the terminal: the index chosen in a prompt. *)
Variable user : question -> option nat.

Variables JsonStatement SchemaPath : Type.

(** [fromJson(statements, dialect)] of [../../sqlgenerator]. *)
Variable fromJson : list JsonStatement -> string -> result (list string).

(** The [try] block that [mysqlPush] and [singlestorePush] share word for
    word, from the filtered statements on; [classify] is the dialect's
    [logSuggestionsAndReturn] applied to its arguments. *)
Definition pushStatements (dialectName : string)
    (filteredStatements : list JsonStatement)
    (classify : Conn -> result Suggestions)
    (strict verbose force : bool) : M Conn unit :=
  try_catch
    (if Nat.eqb (length filteredStatements) 0 then emit (Rendered NoChanges)
     else
       s <- reads classify ;
       filteredSqlStatements <- lift (fromJson filteredStatements dialectName) ;
       let uniqueSqlStatementsToExecute := uniqueStatements (statementsToExecute s) in
       let uniqueFilteredSqlStatements := uniqueStatements filteredSqlStatements in
       (if verbose
        then emit (LoggedStatements (uniqueSqlStatementsToExecute ++ uniqueFilteredSqlStatements))
        else ret tt) ;;;
       (if negb force && strict
        then if negb (shouldAskForApprove s)
             then data <- ask user ConfirmAll ;
                  if bool_decide (data = Some 0%nat)
                  then emit (Rendered Aborted) ;;; exit 0
                  else ret tt
             else ret tt
        else ret tt) ;;;
       (if negb force && shouldAskForApprove s
        then emit (LoggedWarnings (infoToPrint s)) ;;;
             data <- ask user (ConfirmDataLoss (length (tablesToRemove s))
                                               (length (columnsToRemove s))
                                               (length (tablesToTruncate s))) ;
             if bool_decide (data = Some 0%nat)
             then emit (Rendered Aborted) ;;; exit 0
             else ret tt
        else ret tt) ;;;
       for_await uniqueSqlStatementsToExecute (fun dStmnt => query dStmnt) ;;;
       for_await uniqueFilteredSqlStatements (fun statement => query statement) ;;;
       if Nat.ltb 0 (length filteredStatements)
       then emit (Rendered Applied)
       else emit (Rendered NoChanges))
    (fun e => emit (LoggedError e)).

(** The collaborators of the two dialects.  An introspection is taken by the
    schema it gives: the progress view it draws while it reads is no event
    of the command, so that a trace says what the command itself issues,
    asks, logs and renders, not all that the terminal shows. *)
Variables MysqlCredentials SingleStoreCredentials MySqlSchema SingleStoreSchemaT : Type.
Variable connectToMySQL : MysqlCredentials -> result string.
Variable mysqlPushIntrospect : Conn -> string -> list string -> result MySqlSchema.
Variable prepareMySQLPush :
  SchemaPath -> MySqlSchema -> result (PreparedPush JsonStatement MySqlSchema).
Variable mySqlFilterStatements :
  list JsonStatement -> MySqlSchema -> MySqlSchema -> list JsonStatement.
Variable mySqlLogSuggestionsAndReturn :
  Conn -> list JsonStatement -> MySqlSchema -> result Suggestions.
Variable connectToSingleStore : SingleStoreCredentials -> result string.
Variable singlestorePushIntrospect :
  Conn -> string -> list string -> result SingleStoreSchemaT.
Variable prepareSingleStorePush :
  SchemaPath -> SingleStoreSchemaT -> result (PreparedPush JsonStatement SingleStoreSchemaT).
Variable singleStoreFilterStatements :
  list JsonStatement -> SingleStoreSchemaT -> SingleStoreSchemaT -> list JsonStatement.
Variable singleStoreLogSuggestionsAndReturn :
  Conn -> list JsonStatement -> SingleStoreSchemaT -> result Suggestions.

Definition mysqlPush (schemaPath : SchemaPath) (credentials : MysqlCredentials)
    (tablesFilter : list string) (strict verbose force : bool) : M Conn unit :=
  database <- lift (connectToMySQL credentials) ;
  schema <- reads (fun db => mysqlPushIntrospect db database tablesFilter) ;
  statements <- lift (prepareMySQLPush schemaPath schema) ;
  let filteredStatements :=
    mySqlFilterStatements (default [] (pp_statements statements))
      (validatedCur statements) (validatedPrev statements) in
  pushStatements "mysql" filteredStatements
    (fun db => mySqlLogSuggestionsAndReturn db filteredStatements (validatedCur statements))
    strict verbose force.

Definition singlestorePush (schemaPath : SchemaPath) (credentials : SingleStoreCredentials)
    (tablesFilter : list string) (strict verbose force : bool) : M Conn unit :=
  database <- lift (connectToSingleStore credentials) ;
  schema <- reads (fun db => singlestorePushIntrospect db database tablesFilter) ;
  statements <- lift (prepareSingleStorePush schemaPath schema) ;
  let filteredStatements :=
    singleStoreFilterStatements (default [] (pp_statements statements))
      (validatedCur statements) (validatedPrev statements) in
  pushStatements "singlestore" filteredStatements
    (fun db => singleStoreLogSuggestionsAndReturn db filteredStatements (validatedCur statements))
    strict verbose force.

End Cli.
End Cli.

(** ** [api.ts]: the programmatic pushes of the other dialects *)

Module ApiPush.
Section ApiPush.
Context {Conn : Type} `{DB Conn}.
Variable originUUID : string.
Variables Imports JsonStatement : Type.

(** The result object of the four programmatic pushes. *)
Definition pushResult (s : Suggestions) : PushResult Conn :=
  {| hasDataLoss := shouldAskForApprove s;
     warnings := infoToPrint s;
     res_statementsToExecute := statementsToExecute s;
     apply := for_await (statementsToExecute s) (fun dStmnt => query dStmnt) |}.

(** *** [pushSchema]

    The snapshots are validated from what the serializer and the
    introspection return; the resolvers are part of the differ. *)
Variables PgTables PgEnums PgSchemas PgSequences PgSchemaKit PgSquashed : Type.
Variable pg_prepareFromExports :
  Imports -> result (PgPrepared PgTables PgEnums PgSchemas PgSequences).
Variable generatePgSnapshot :
  PgTables -> PgEnums -> PgSchemas -> PgSequences -> option (list string) ->
  result (gmap string jsonValue).
Variable pgPushIntrospect :
  Conn -> list string -> list string -> result (gmap string jsonValue).
Variable pgSchema_parse : gmap string jsonValue -> result PgSchemaKit.
Variable squashPgScheme : PgSchemaKit -> option string -> result PgSquashed.
Variable applyPgSnapshotsDiff :
  PgSquashed -> PgSquashed -> PgSchemaKit -> PgSchemaKit -> option string ->
  result (DiffResult JsonStatement).
Variable pgSuggestions : Conn -> list JsonStatement -> result Suggestions.

Definition pushSchema (imports : Imports) (schemaFilters : option (list string))
    (uuid : string) : M Conn (PushResult Conn) :=
  cur <- lift (Api.generateDrizzleJson originUUID Imports PgTables PgEnums PgSchemas
                 PgSequences pg_prepareFromExports generatePgSnapshot
                 imports None None uuid) ;
  prev <- reads (fun db => pgPushIntrospect db [] (default ["public"] schemaFilters)) ;
  validatedPrev <- lift (pgSchema_parse prev) ;
  validatedCur <- lift (pgSchema_parse cur) ;
  squashedPrev <- lift (squashPgScheme validatedPrev (Some "push")) ;
  squashedCur <- lift (squashPgScheme validatedCur (Some "push")) ;
  r <- lift (applyPgSnapshotsDiff squashedPrev squashedCur
               validatedPrev validatedCur (Some "push")) ;
  s <- reads (fun db => pgSuggestions db (statements r)) ;
  ret (pushResult s).

(** *** [pushSQLiteSchema]

    The differ also returns [_meta], which goes to the classifier. *)
Variables SQLiteTables SQLiteSchemaKit SQLiteSquashed SQLiteMeta : Type.
Variable sqlite_prepareFromExports : Imports -> result (Prepared SQLiteTables).
Variable generateSqliteSnapshot : SQLiteTables -> result (gmap string jsonValue).
Variable sqlitePushIntrospect : Conn -> list string -> result (gmap string jsonValue).
Variable sqliteSchema_parse : gmap string jsonValue -> result SQLiteSchemaKit.
Variable squashSqliteScheme : SQLiteSchemaKit -> option string -> result SQLiteSquashed.
Variable applySqliteSnapshotsDiff :
  SQLiteSquashed -> SQLiteSquashed -> SQLiteSchemaKit -> SQLiteSchemaKit -> option string ->
  result (DiffResult JsonStatement * SQLiteMeta).
Variable sqliteLogSuggestionsAndReturn :
  Conn -> list JsonStatement -> SQLiteSquashed -> SQLiteSquashed -> SQLiteMeta ->
  result Suggestions.

Definition pushSQLiteSchema (imports : Imports) (uuid : string)
  : M Conn (PushResult Conn) :=
  cur <- lift (Api.generateSQLiteDrizzleJson originUUID Imports SQLiteTables
                 sqlite_prepareFromExports generateSqliteSnapshot imports None uuid) ;
  prev <- reads (fun db => sqlitePushIntrospect db []) ;
  validatedPrev <- lift (sqliteSchema_parse prev) ;
  validatedCur <- lift (sqliteSchema_parse cur) ;
  squashedPrev <- lift (squashSqliteScheme validatedPrev (Some "push")) ;
  squashedCur <- lift (squashSqliteScheme validatedCur (Some "push")) ;
  r <- lift (applySqliteSnapshotsDiff squashedPrev squashedCur
               validatedPrev validatedCur (Some "push")) ;
  s <- reads (fun db => sqliteLogSuggestionsAndReturn db (statements r.1)
                          squashedPrev squashedCur r.2) ;
  ret (pushResult s).

(** *** [pushMySQLSchema] *)
Variables MySqlTables MySQLSchemaKit MySQLSquashed : Type.
Variable mysql_prepareFromExports : Imports -> result (Prepared MySqlTables).
Variable generateMySqlSnapshot : MySqlTables -> result (gmap string jsonValue).
Variable mysqlPushIntrospect :
  Conn -> string -> list string -> result (gmap string jsonValue).
Variable mysqlSchema_parse : gmap string jsonValue -> result MySQLSchemaKit.
Variable squashMysqlScheme : MySQLSchemaKit -> result MySQLSquashed.
Variable applyMysqlSnapshotsDiff :
  MySQLSquashed -> MySQLSquashed -> MySQLSchemaKit -> MySQLSchemaKit -> option string ->
  result (DiffResult JsonStatement).
Variable mysqlLogSuggestionsAndReturn :
  Conn -> list JsonStatement -> MySQLSchemaKit -> result Suggestions.

Definition pushMySQLSchema (imports : Imports) (databaseName : string) (uuid : string)
  : M Conn (PushResult Conn) :=
  cur <- lift (Api.generateMySQLDrizzleJson originUUID Imports MySqlTables
                 mysql_prepareFromExports generateMySqlSnapshot imports None uuid) ;
  prev <- reads (fun db => mysqlPushIntrospect db databaseName []) ;
  validatedPrev <- lift (mysqlSchema_parse prev) ;
  validatedCur <- lift (mysqlSchema_parse cur) ;
  squashedPrev <- lift (squashMysqlScheme validatedPrev) ;
  squashedCur <- lift (squashMysqlScheme validatedCur) ;
  r <- lift (applyMysqlSnapshotsDiff squashedPrev squashedCur
               validatedPrev validatedCur (Some "push")) ;
  s <- reads (fun db => mysqlLogSuggestionsAndReturn db (statements r) validatedCur) ;
  ret (pushResult s).

End ApiPush.
End ApiPush.

(** ** More on traces *)

(** The events of statements issued one after the other and all
    acknowledged. *)
Definition accepted (l : list string) : list event :=
  flat_map (fun sql => [Issued sql; Settled sql true]) l.

(** The messages shown, and the statements the connection rejected, in
    order. *)
Definition rendered (evs : list event) : list message :=
  omap (fun e => match e with Rendered m => Some m | _ => None end) evs.

Definition rejected (evs : list event) : list string :=
  omap (fun e => match e with Settled sql false => Some sql | _ => None end) evs.

(** No statement is issued unless the data-loss prompt was answered, and
    with another item than [No, abort]: a prompt that returned without an
    answer approves nothing. *)
Fixpoint explicitly_approved (evs : list event) : bool :=
  match evs with
  | [] => true
  | Issued _ :: _ => false
  | Asked (ConfirmDataLoss _ _ _) answer :: rest =>
      match answer with
      | Some (S _) => true
      | _ => bool_decide (issued rest = [])
      end
  | _ :: rest => explicitly_approved rest
  end.

(** ** [cli/commands/singlestoreIntrospect.ts] *)

Module Introspect.

(** What the code reads of a [Minimatch]: its [negate] flag and its
    [match] method. *)
Record Matcher : Type := mkMatcher {
  negate : bool;
  matches : string -> bool
}.

(** The closure [filter] that is handed to the serializer. *)
Definition tableFilter (matchers : list Matcher) (tableName : string) : bool :=
  if Nat.eqb (length matchers) 0 then true
  else
    let flags :=
      fold_left
        (fun (flags : list bool) matcher =>
           let flags :=
             if negate matcher
             then if negb (matches matcher tableName) then flags ++ [false] else flags
             else flags in
           if matches matcher tableName then flags ++ [true] else flags)
        matchers [] in
    if Nat.ltb 0 (length flags) then forallb (fun flag => flag) flags else false.

Section Introspect.
Context {Conn : Type}.

(** [originUUID] of [../../global], the [Minimatch] constructor, and
    [fromDatabase] of the serializer, which reads the database. *)
Variable originUUID : string.
Variable Minimatch : string -> Matcher.
Variable fromDatabase :
  Conn -> string -> (string -> bool) -> result (gmap string jsonValue).

(** [renderWithTask] of [hanji]: it is handed a view and a task, draws the
    view while the task runs, and gives the task's result.  A
    [ProgressView] is taken by the two labels it is constructed from.  What
    is drawn, and when, is [hanji]'s: the function is a parameter here. *)
Variable renderWithTask :
  string * string -> M Conn (gmap string jsonValue) -> M Conn (gmap string jsonValue).

(** [{ id: originUUID, prevId: '', ...res }] is the union that prefers the
    members of [res]; the destructuring [{ internal, ...rest }] deletes one
    member.  The schema is returned itself, not wrapped in [{ schema }]. *)
Definition singlestorePushIntrospect (databaseName : string) (filters : list string)
  : M Conn (gmap string jsonValue) :=
  let matchers := map Minimatch filters in
  let filter := tableFilter matchers in
  let progress :=
    ("Pulling schema from database...", "Pulling schema from database...") in
  res <- renderWithTask progress (reads (fun db => fromDatabase db databaseName filter)) ;
  let schema := res ∪ <["prevId" := JStr ""]> (<["id" := JStr originUUID]> ∅) in
  let schemaWithoutInternals := delete "internal" schema in
  ret schemaWithoutInternals.

End Introspect.
End Introspect.

(** ** [cli/commands/push.ts]: [pgPush] and [sqlitePush] *)

Module PushMore.

(** The SQLite credentials: a file URL, or a driver with its URL. *)
Record SqliteCredentials : Type := mkSqliteCredentials {
  driver : option string;
  url : string
}.

(** What [prepareSQLitePush] returns. *)
Record SqlitePrepared (Statement Squashed Meta : Type) : Type := mkSqlitePrepared {
  sp_sqlStatements : list string;
  sp_statements : list Statement;
  sp_squashedCur : Squashed;
  sp_squashedPrev : Squashed;
  sp_meta : Meta
}.
Arguments mkSqlitePrepared {Statement Squashed Meta} _ _ _ _ _.
Arguments sp_sqlStatements {Statement Squashed Meta} _.
Arguments sp_statements {Statement Squashed Meta} _.
Arguments sp_squashedCur {Statement Squashed Meta} _.
Arguments sp_squashedPrev {Statement Squashed Meta} _.
Arguments sp_meta {Statement Squashed Meta} _.

Section PushMore.
Context {Conn : Type} `{DB Conn}.
Variable user : question -> option nat.
Variables JsonStatement SchemaPath : Type.

(** The two prompts, as every push command writes them. *)
Definition confirmAll (strict force : bool) (s : Suggestions) : M Conn unit :=
  if negb force && strict
  then if negb (shouldAskForApprove s)
       then data <- ask user ConfirmAll ;
            if bool_decide (data = Some 0%nat)
            then emit (Rendered Aborted) ;;; exit 0
            else ret tt
       else ret tt
  else ret tt.

Definition confirmDataLoss (force : bool) (s : Suggestions) : M Conn unit :=
  if negb force && shouldAskForApprove s
  then emit (LoggedWarnings (infoToPrint s)) ;;;
       data <- ask user (ConfirmDataLoss (length (tablesToRemove s))
                                         (length (columnsToRemove s))
                                         (length (tablesToTruncate s))) ;
       if bool_decide (data = Some 0%nat)
       then emit (Rendered Aborted) ;;; exit 0
       else ret tt
  else ret tt.

(** *** [pgPush] *)

Variables PostgresCredentials PgSchema : Type.
Variable preparePostgresDB : PostgresCredentials -> result unit.
Variable pgPushIntrospect : Conn -> list string -> list string -> result PgSchema.
Variable preparePgPush :
  SchemaPath -> PgSchema -> list string -> result (DiffResult JsonStatement).
Variable pgSuggestions : Conn -> list JsonStatement -> result Suggestions.

Definition pgPush (schemaPath : SchemaPath) (verbose strict : bool)
    (credentials : PostgresCredentials) (tablesFilter schemasFilter : list string)
    (force : bool) : M Conn unit :=
  _ <- lift (preparePostgresDB credentials) ;
  schema <- reads (fun db => pgPushIntrospect db tablesFilter schemasFilter) ;
  prepared <- lift (preparePgPush schemaPath schema schemasFilter) ;
  try_catch
    (if Nat.eqb (length (sqlStatements prepared)) 0 then emit (Rendered NoChanges)
     else
       s <- reads (fun db => pgSuggestions db (statements prepared)) ;
       (if verbose then emit (LoggedStatements (statementsToExecute s)) else ret tt) ;;;
       confirmAll strict force s ;;;
       confirmDataLoss force s ;;;
       for_await (statementsToExecute s) (fun dStmnt => query dStmnt) ;;;
       if Nat.ltb 0 (length (statements prepared))
       then emit (Rendered Applied)
       else emit (Rendered NoChanges))
    (fun e => emit (LoggedError e)).

(** *** [sqlitePush] *)

Variables SqliteSchema SqliteSquashed SqliteMeta : Type.
Variable connectToSQLite : SqliteCredentials -> result unit.
Variable sqlitePushIntrospect : Conn -> list string -> result SqliteSchema.
Variable prepareSQLitePush :
  SchemaPath -> SqliteSchema ->
  result (SqlitePrepared JsonStatement SqliteSquashed SqliteMeta).
Variable sqliteSuggestions :
  Conn -> list JsonStatement -> SqliteSquashed -> SqliteSquashed -> SqliteMeta ->
  result Suggestions.

(** [db.batch] of a Turso connection, which the interface [DB] lacks. *)
Variable batch : list string -> M Conn unit.

Definition sqlitePush (schemaPath : SchemaPath) (verbose strict : bool)
    (credentials : SqliteCredentials) (tablesFilter : list string) (force : bool)
  : M Conn unit :=
  _ <- lift (connectToSQLite credentials) ;
  schema <- reads (fun db => sqlitePushIntrospect db tablesFilter) ;
  prepared <- lift (prepareSQLitePush schemaPath schema) ;
  if Nat.eqb (length (sp_sqlStatements prepared)) 0 then emit (Rendered NoChanges)
  else
    s <- reads (fun db => sqliteSuggestions db (sp_statements prepared)
                            (sp_squashedCur prepared) (sp_squashedPrev prepared)
                            (sp_meta prepared)) ;
    (if verbose && Nat.ltb 0 (length (statementsToExecute s))
     then emit (LoggedStatements (statementsToExecute s))
     else ret tt) ;;;
    confirmAll strict force s ;;;
    confirmDataLoss force s ;;;
    if Nat.eqb (length (statementsToExecute s)) 0 then emit (Rendered NoChanges)
    else
      (if negb (bool_decide (is_Some (driver credentials)))
       then query "begin" ;;;
            try_catch
              (for_await (statementsToExecute s) (fun dStmnt => query dStmnt) ;;;
               query "commit")
              (fun e => emit (LoggedError e) ;;; query "rollback" ;;; exit 1)
       else if bool_decide (driver credentials = Some "turso")
            then batch (statementsToExecute s)
            else ret tt) ;;;
      emit (Rendered Applied).

End PushMore.
End PushMore.

(** ** [singlestore-core/indexes.ts] *)

Module Indexes.
Section Indexes.
Variables IndexColumn SingleStoreTable : Type.

(** An optional member that is absent and one that is set to [undefined]
    are both [None]. *)
Record IndexConfig : Type := mkIndexConfig {
  name : string;
  columns : list IndexColumn;
  unique : option bool;
  using_ : option string;
  algorythm_ : option string;
  lock_ : option string
}.

(** An [Index] holds a fresh object: the members of the builder's
    configuration at the time, and the table. *)
Record Index : Type := mkIndex {
  config : IndexConfig;
  table : SingleStoreTable
}.

(** An [IndexBuilderOn] is never mutated and is a value. *)
Record IndexBuilderOn : Type := mkIndexBuilderOn {
  on_name : string;
  on_unique : bool
}.

(** An [IndexBuilder] is mutated in place and returned by its own methods:
    it is a reference into the store of builder configurations. *)
Definition St (A : Type) : Type := gmap nat IndexConfig -> A * gmap nat IndexConfig.

Definition seq {A B} (m : St A) (k : A -> St B) : St B :=
  fun h => let '(a, h') := m h in k a h'.

(** [new IndexBuilder(name, columns, unique)] *)
Definition newIndexBuilder (name : string) (columns : list IndexColumn) (unique : bool)
  : St nat :=
  fun h =>
    let self := fresh (dom h) in
    (self, <[self := mkIndexConfig name columns (Some unique) None None None]> h).

(** [on(...columns)] takes at least one column. *)
Definition on (self : IndexBuilderOn) (column : IndexColumn) (columns : list IndexColumn)
  : St nat :=
  newIndexBuilder (on_name self) (column :: columns) (on_unique self).

Definition using' (value : option string) (self : nat) : St nat :=
  fun h =>
    (self,
     alter (fun c => mkIndexConfig (name c) (columns c) (unique c) value
                       (algorythm_ c) (lock_ c)) self h).

Definition algorythm (value : option string) (self : nat) : St nat :=
  fun h =>
    (self,
     alter (fun c => mkIndexConfig (name c) (columns c) (unique c) (using_ c)
                       value (lock_ c)) self h).

Definition lock (value : option string) (self : nat) : St nat :=
  fun h =>
    (self,
     alter (fun c => mkIndexConfig (name c) (columns c) (unique c) (using_ c)
                       (algorythm_ c) value) self h).

(** [build(table)]; a reference is never dangling in the source, here a
    missing one gives [None]. *)
Definition build (t : SingleStoreTable) (self : nat) : St (option Index) :=
  fun h => ((fun c => mkIndex c t) <$> h !! self, h).

Definition index (name : string) : IndexBuilderOn := mkIndexBuilderOn name false.

Definition uniqueIndex (name : string) : IndexBuilderOn := mkIndexBuilderOn name true.

End Indexes.

Arguments mkIndexConfig {IndexColumn} _ _ _ _ _ _.
Arguments name {IndexColumn} _.
Arguments columns {IndexColumn} _.
Arguments unique {IndexColumn} _.
Arguments using_ {IndexColumn} _.
Arguments algorythm_ {IndexColumn} _.
Arguments lock_ {IndexColumn} _.
Arguments mkIndex {IndexColumn SingleStoreTable} _ _.
Arguments config {IndexColumn SingleStoreTable} _.
Arguments table {IndexColumn SingleStoreTable} _.
Arguments seq {IndexColumn A B} _ _ _.
Arguments newIndexBuilder {IndexColumn} _ _ _ _.
Arguments on {IndexColumn} _ _ _ _.
Arguments using' {IndexColumn} _ _ _.
Arguments algorythm {IndexColumn} _ _ _.
Arguments lock {IndexColumn} _ _ _.
Arguments build {IndexColumn SingleStoreTable} _ _ _.
End Indexes.

(** ** The script that skips tests: [escapeRegExp] *)

Module SkipTests.

(** The characters of the class [[.*+?^${}()|[\]\\]]. *)
Definition special : list ascii :=
  ["."; "*"; "+"; "?"; "^"; "$"; "{"; "}"; "("; ")"; "|"; "["; "]"; "\"]%char.

Definition is_special (c : ascii) : bool := existsb (Ascii.eqb c) special.

(** [string.replace(/[.*+?^${}()|[\]\\]/g, '\\$&')]: every special
    character is replaced by a backslash and itself.  The special characters
    are ASCII, so the code units of a string are its characters here. *)
Fixpoint escapeRegExp (s : string) : string :=
  match s with
  | EmptyString => EmptyString
  | String c rest =>
      if is_special c then String "\"%char (String c (escapeRegExp rest))
      else String c (escapeRegExp rest)
  end.

End SkipTests.

(** ** A concrete push *)

Module Example.

(** A connection that records the statements it acknowledged, and rejects
    the statement [REJECT]. *)
#[global] Instance log_db : DB (list string) :=
  {| run_query sql c :=
       if String.eqb sql "REJECT" then (c, false) else (c ++ [sql], true) |}.

Definition originUUID : string := "00000000-0000-0000-0000-000000000000".

Definition users_table : Table :=
  {| tbl_name := "users";
     tbl_columns :=
       {[ "id" := mkColumn "id" "serial" true true (Some true) None None None;
          "email" := mkColumn "email" "varchar(255)" false true None None None None ]};
     tbl_indexes :=
       {[ "users_email_idx" := mkIndex "users_email_idx" ["email"] true (Some "hash") None None ]};
     tbl_compositePrimaryKeys := {[ "users_pk" := mkPrimaryKey "users_pk" ["id"] ]};
     tbl_uniqueConstraints := {[ "users_email_unq" := mkUniqueConstraint "users_email_unq" ["email"] ]} |}.

(** The database holds [users]; the schema files declare no table. *)
Definition live : SingleStoreSchema :=
  {| s_version := "1"; s_dialect := "singlestore";
     s_tables := {[ "users" := users_table ]};
     s_meta := mkMeta ∅ ∅; s_internal := None;
     s_id := originUUID; s_prevId := "" |}.

Definition declared : SingleStoreSchemaInternal :=
  {| si_version := "1"; si_dialect := "singlestore"; si_tables := ∅;
     si_meta := mkMeta ∅ ∅; si_internal := None |}.

(** A snapshot of a later format. *)
Definition malformed : SingleStoreSchema :=
  {| s_version := "2"; s_dialect := "singlestore"; s_tables := ∅;
     s_meta := mkMeta ∅ ∅; s_internal := None;
     s_id := "7b1c"; s_prevId := originUUID |}.

Definition drop_users : string := "DROP TABLE `users`;".

Definition differ (prev cur : SingleStoreSchemaSquashed) (vprev vcur : SingleStoreSchema)
    (action : option string) : result (DiffResult string) :=
  Ok (mkDiffResult ["drop_table users"] [drop_users]).

(** The classifier finds three rows in [users]. *)
Definition classifier {S : Type} (db : list string) (statements : list string) (cur : S)
  : result Suggestions :=
  Ok {| shouldAskForApprove := true;
        statementsToExecute := [drop_users];
        columnsToRemove := [];
        tablesToRemove := ["users"];
        tablesToTruncate := [];
        infoToPrint := ["You're about to delete users table with 3 items"] |}.

Definition prepareFromExports (imports : unit) : result (Prepared unit) := Ok (mkPrepared tt).

Definition generateSnapshot (tables : unit) : result SingleStoreSchemaInternal := Ok declared.

Definition introspect (db : list string) (databaseName : string) (filters : list string)
  : result SingleStoreSchema := Ok live.

Definition pushSingleStoreSchema : M (list string) (PushResult (list string)) :=
  Api.pushSingleStoreSchema originUUID unit unit prepareFromExports generateSnapshot
    string differ introspect classifier tt "drizzle" "0d7a".

(** The command line: the statements are their own rendering, one of them
    comes twice, and the operator answers every prompt with [No, abort],
    or with [Yes]. *)
Definition refuses (q : question) : option nat := Some 0%nat.
Definition approves (q : question) : option nat := Some 1%nat.

Definition fromJson (statements : list string) (dialectName : string)
  : result (list string) := Ok statements.

Definition create_index : string := "CREATE INDEX `email_idx` ON `users` (`email`);".

Definition connect (credentials : unit) : result string := Ok "drizzle".

Definition cliIntrospect (db : list string) (database : string) (filters : list string)
  : result unit := Ok tt.

Definition preparePush (schemaPath : unit) (schema : unit)
  : result (Cli.PreparedPush string unit) :=
  Ok (Cli.mkPreparedPush (Some [create_index; drop_users; create_index]) tt tt).

Definition filterStatements (statements : list string) (cur prev : unit) : list string :=
  statements.

Definition singlestorePush (user : question -> option nat) (strict verbose force : bool)
  : M (list string) unit :=
  Cli.singlestorePush user string unit fromJson unit unit connect cliIntrospect preparePush
    filterStatements classifier tt tt [] strict verbose force.

Definition mysqlPush (user : question -> option nat) (strict verbose force : bool)
  : M (list string) unit :=
  Cli.mysqlPush user string unit fromJson unit unit connect cliIntrospect preparePush
    filterStatements classifier tt tt [] strict verbose force.

(** The other dialects, for which a snapshot is here just its version. *)
Definition versionSchema_parse (snapshot : string) : result string :=
  if String.eqb snapshot "7" then Ok snapshot else Err ZodError.

Definition versionSquash (snapshot : string) (action : option string) : result string :=
  Ok snapshot.

Definition versionDiffer (prev cur vprev vcur : string) (action : option string)
  : result (DiffResult string) :=
  Ok (mkDiffResult [] ["-- unreachable"]).

Definition exported : gmap string jsonValue :=
  {[ "version" := JStr "5"; "dialect" := JStr "postgresql"; "tables" := JObj [] ]}.

Definition pgPrepare (imports : unit) : result (PgPrepared unit unit unit unit) :=
  Ok (mkPgPrepared tt tt tt tt).

Definition pgSerialize (tables enums schemas sequences : unit)
    (schemaFilters : option (list string)) : result (gmap string jsonValue) :=
  Ok exported.

Definition serialize (tables : unit) : result (gmap string jsonValue) := Ok exported.

(** What [pushSingleStoreSchema] resolves to on this database. *)
Definition pushed : PushResult (list string) :=
  {| hasDataLoss := true;
     warnings := ["You're about to delete users table with 3 items"];
     res_statementsToExecute := [drop_users];
     apply := for_await [drop_users] (fun dStmnt => query dStmnt) |}.

Definition upV6 (snapshot : gmap string jsonValue) : gmap string jsonValue :=
  <["version" := JStr "6"]> snapshot.

Definition upV7 (snapshot : gmap string jsonValue) : gmap string jsonValue :=
  <["version" := JStr "7"]> snapshot.

End Example.

(** ** Further concrete runs *)

Module Sample.

Definition create_users : string := "CREATE TABLE `users` (`id` serial);".
Definition create_posts : string := "CREATE TABLE `posts` (`id` serial);".

(** A classifier that sees no data loss; the connection will reject its
    second statement. *)
Definition failing {S : Type} (db : list string) (statements : list string) (cur : S)
  : result Suggestions :=
  Ok {| shouldAskForApprove := false;
        statementsToExecute := [create_users; "REJECT"; create_posts];
        columnsToRemove := [];
        tablesToRemove := [];
        tablesToTruncate := [];
        infoToPrint := [] |}.

Definition preparePush (schemaPath : unit) (schema : unit)
  : result (Cli.PreparedPush string unit) :=
  Ok (Cli.mkPreparedPush (Some [create_users]) tt tt).

Definition singlestorePush (user : question -> option nat) (strict verbose force : bool)
  : M (list string) unit :=
  Cli.singlestorePush user string unit Example.fromJson unit unit Example.connect
    Example.cliIntrospect preparePush Example.filterStatements failing tt tt []
    strict verbose force.

Definition mysqlPush (user : question -> option nat) (strict verbose force : bool)
  : M (list string) unit :=
  Cli.mysqlPush user string unit Example.fromJson unit unit Example.connect
    Example.cliIntrospect preparePush Example.filterStatements failing tt tt []
    strict verbose force.

(** An operator who leaves every prompt without choosing. *)
Definition dismisses (q : question) : option nat := None.

(** A classifier that reports data loss only when a table is dropped, and
    adds no statement of its own. *)
Definition drops (statement : string) : bool := String.prefix "DROP TABLE" statement.

Definition careful {S : Type} (db : list string) (statements : list string) (cur : S)
  : result Suggestions :=
  Ok {| shouldAskForApprove := existsb drops statements;
        statementsToExecute := [];
        columnsToRemove := [];
        tablesToRemove := if existsb drops statements then ["users"] else [];
        tablesToTruncate := [];
        infoToPrint :=
          if existsb drops statements
          then ["You're about to delete users table with 3 items"] else [] |}.

(** Pushes that drop [users], under that classifier. *)
Definition carefulPush (user : question -> option nat) (strict verbose force : bool)
  : M (list string) unit :=
  Cli.singlestorePush user string unit Example.fromJson unit unit Example.connect
    Example.cliIntrospect Example.preparePush Example.filterStatements careful tt tt []
    strict verbose force.


(** Schema files that ask for nothing the database lacks. *)
Definition nothingPrepared (schemaPath : unit) (schema : unit)
  : result (Cli.PreparedPush string unit) :=
  Ok (Cli.mkPreparedPush None tt tt).

Definition idlePush (user : question -> option nat) (strict verbose force : bool)
  : M (list string) unit :=
  Cli.singlestorePush user string unit Example.fromJson unit unit Example.connect
    Example.cliIntrospect nothingPrepared Example.filterStatements failing tt tt []
    strict verbose force.

(** Patterns that are a table name, or a table name after [!]. *)
Definition minimatch (pattern : string) : Introspect.Matcher :=
  match pattern with
  | String "!" name => Introspect.mkMatcher true (fun t => negb (String.eqb t name))
  | _ => Introspect.mkMatcher false (String.eqb pattern)
  end.

(** A serializer that reports its own id and kit internals. *)
Definition fromDatabase (db : list string) (databaseName : string)
    (filter : string -> bool) : result (gmap string jsonValue) :=
  Ok {[ "version" := JStr "1"; "id" := JStr "7b1c"; "internal" := JStr "{}" ]}.

(** A terminal on which a view leaves the first of its labels as a line,
    before the task runs. *)
Definition renderWithTask (view : string * string)
    (task : M (list string) (gmap string jsonValue))
  : M (list string) (gmap string jsonValue) :=
  emit (LoggedWarnings [view.1]) ;;; task.

Definition introspect : M (list string) (gmap string jsonValue) :=
  Introspect.singlestorePushIntrospect Example.originUUID minimatch fromDatabase
    renderWithTask "drizzle" ["users"; "!posts"].

(** A Postgres push whose diff renders SQL but holds no JSON statement,
    and whose classifier lists a statement twice. *)
Definition twice (db : list string) (statements : list string) : result Suggestions :=
  Ok {| shouldAskForApprove := false;
        statementsToExecute := [create_users; create_users];
        columnsToRemove := [];
        tablesToRemove := [];
        tablesToTruncate := [];
        infoToPrint := [] |}.

Definition pgPush (user : question -> option nat) (verbose strict force : bool)
  : M (list string) unit :=
  PushMore.pgPush user string unit unit unit
    (fun _ => Ok tt) (fun _ _ _ => Ok tt)
    (fun _ _ _ => Ok (mkDiffResult [] [create_users])) twice
    tt verbose strict tt [] [] force.

(** A classifier that executes the statements it is given and reports data
    loss when one of them drops a table, and a Postgres push that drops
    [users]. *)
Definition wary (db : list string) (statements : list string) : result Suggestions :=
  Ok {| shouldAskForApprove := existsb drops statements;
        statementsToExecute := statements;
        columnsToRemove := [];
        tablesToRemove := if existsb drops statements then ["users"] else [];
        tablesToTruncate := [];
        infoToPrint :=
          if existsb drops statements
          then ["You're about to delete users table with 3 items"] else [] |}.

Definition pgDropPush (user : question -> option nat) (verbose strict force : bool)
  : M (list string) unit :=
  PushMore.pgPush user string unit unit unit
    (fun _ => Ok tt) (fun _ _ _ => Ok tt)
    (fun _ _ _ => Ok (mkDiffResult [Example.drop_users] [Example.drop_users])) wary
    tt verbose strict tt [] [] force.

(** SQLite pushes: on a file database, and through Turso, whose batch is
    here the loop over the statements. *)
Definition file : PushMore.SqliteCredentials :=
  PushMore.mkSqliteCredentials None "file:local.db".

Definition turso : PushMore.SqliteCredentials :=
  PushMore.mkSqliteCredentials (Some "turso") "libsql://db.turso.io".

Definition sqlitePrepared : PushMore.SqlitePrepared string unit unit :=
  PushMore.mkSqlitePrepared [create_users] ["create_table users"] tt tt tt.

Definition sqlitePush (user : question -> option nat)
    (credentials : PushMore.SqliteCredentials) (verbose strict force : bool)
  : M (list string) unit :=
  PushMore.sqlitePush user string unit unit unit unit
    (fun _ => Ok tt) (fun _ _ => Ok tt) (fun _ _ => Ok sqlitePrepared)
    (fun db statements cur prev meta => failing db statements cur)
    (fun statements => for_await statements (fun sql => query sql))
    tt verbose strict credentials [] force.

(** A SQLite push that drops [users]. *)
Definition dropPrepared : PushMore.SqlitePrepared string unit unit :=
  PushMore.mkSqlitePrepared [Example.drop_users] [Example.drop_users] tt tt tt.

Definition sqliteDropPush (user : question -> option nat)
    (credentials : PushMore.SqliteCredentials) (verbose strict force : bool)
  : M (list string) unit :=
  PushMore.sqlitePush user string unit unit unit unit
    (fun _ => Ok tt) (fun _ _ => Ok tt) (fun _ _ => Ok dropPrepared)
    (fun db statements cur prev meta => wary db statements)
    (fun statements => for_await statements (fun sql => query sql))
    tt verbose strict credentials [] force.

(** Programmatic pushes of the other dialects, with validators that accept
    or reject every snapshot. *)
Definition pgPrepare (imports : unit) : result (PgPrepared unit unit unit unit) :=
  Ok (mkPgPrepared tt tt tt tt).
Definition pgSerialize (tables enums schemas sequences : unit)
    (schemaFilters : option (list string)) : result (gmap string jsonValue) :=
  Ok {[ "version" := JStr "7" ]}.
Definition pgRead (db : list string) (tablesFilter schemasFilter : list string)
  : result (gmap string jsonValue) :=
  Ok {[ "version" := JStr "7" ]}.
Definition prepare (imports : unit) : result (Prepared unit) := Ok (mkPrepared tt).
Definition serialize (tables : unit) : result (gmap string jsonValue) :=
  Ok {[ "version" := JStr "6" ]}.
Definition sqliteRead (db : list string) (tablesFilter : list string)
  : result (gmap string jsonValue) :=
  Ok {[ "version" := JStr "6" ]}.
Definition mysqlRead (db : list string) (databaseName : string) (tablesFilter : list string)
  : result (gmap string jsonValue) :=
  Ok {[ "version" := JStr "5" ]}.
Definition accepts (snapshot : gmap string jsonValue) : result unit := Ok tt.
Definition rejects (snapshot : gmap string jsonValue) : result unit := Err ZodError.
Definition squashFor (snapshot : unit) (action : option string) : result unit := Ok tt.
Definition squash (snapshot : unit) : result unit := Ok tt.
Definition diff (squashedPrev squashedCur validatedPrev validatedCur : unit)
    (action : option string) : result (DiffResult string) :=
  Ok (mkDiffResult ["create_table users"] [create_users]).
Definition diffWithMeta (squashedPrev squashedCur validatedPrev validatedCur : unit)
    (action : option string) : result (DiffResult string * unit) :=
  Ok (mkDiffResult ["create_table users"] [create_users], tt).
Definition sqliteClassifier (db : list string) (statements : list string)
    (json1 json2 meta : unit) : result Suggestions := twice db statements.
Definition mysqlClassifier (db : list string) (statements : list string) (cur : unit)
  : result Suggestions := twice db statements.

Definition pushSchema (parse : gmap string jsonValue -> result unit)
  : M (list string) (PushResult (list string)) :=
  ApiPush.pushSchema Example.originUUID unit string unit unit unit unit unit unit
    pgPrepare pgSerialize pgRead parse squashFor diff twice tt None "0d7a".

Definition pushSQLiteSchema (parse : gmap string jsonValue -> result unit)
  : M (list string) (PushResult (list string)) :=
  ApiPush.pushSQLiteSchema Example.originUUID unit string unit unit unit unit
    prepare serialize sqliteRead parse squashFor diffWithMeta sqliteClassifier tt "0d7a".

Definition pushMySQLSchema (parse : gmap string jsonValue -> result unit)
  : M (list string) (PushResult (list string)) :=
  ApiPush.pushMySQLSchema Example.originUUID unit string unit unit unit
    prepare serialize mysqlRead parse squash diff mysqlClassifier tt "drizzle" "0d7a".

(** What these pushes resolve to. *)
Definition created : PushResult (list string) :=
  {| hasDataLoss := false;
     warnings := [];
     res_statementsToExecute := [create_users; create_users];
     apply := for_await [create_users; create_users] (fun dStmnt => query dStmnt) |}.

End Sample.

(** * Properties *)

(** ** The model on small inputs *)

Example squashIdx_example :
  squashIdx (mkIndex "i" ["a"; "b"] true None (Some "inplace") None)
  = Ok "i;a,b;true;;inplace;".
Proof. reflexivity. Qed.

Example squashIdx_rejects :
  squashIdx (mkIndex "i" ["a"] true (Some "rtree") None None) = Err ZodError.
Proof. reflexivity. Qed.

Example unsquashIdx_example :
  unsquashIdx "i;a,b;true;;inplace;"
  = Ok (mkIndex "i" ["a"; "b"] true None (Some "inplace") None).
Proof. reflexivity. Qed.

Example unsquashIdx_bad_enum : unsquashIdx "i;a;true;rtree;;" = Err ZodError.
Proof. reflexivity. Qed.

Example split_examples :
  Js.split semi "" = [""] /\ Js.split semi ";" = [""; ""]
  /\ Js.split comma "a,,b" = ["a"; ""; "b"] /\ Js.join "," [] = "".
Proof. repeat split. Qed.

Example uniqueStatements_example :
  Cli.uniqueStatements ["b"; "a"; "b"; "c"; "a"] = ["b"; "a"; "c"].
Proof. reflexivity. Qed.

Example push_refused :
  Example.singlestorePush Example.refuses false false false []
  = (Exit 0, [],
     [LoggedWarnings ["You're about to delete users table with 3 items"];
      Asked (ConfirmDataLoss 1 0 0) (Some 0%nat); Rendered Aborted]).
Proof. reflexivity. Qed.

Example push_rejected :
  for_await ["A"; "REJECT"; "B"] (fun s => query s) []
  = (Throw DriverError, ["A"],
     [Issued "A"; Settled "A" true; Issued "REJECT"; Settled "REJECT" false]).
Proof. reflexivity. Qed.

(** ** The result monad *)

Lemma rmapM_ok {A B} (f : A -> result B) (g : A -> B) (l : list A) :
  (forall x, x ∈ l -> f x = Ok (g x)) -> rmapM f l = Ok (g <$> l).
Proof.
  induction l as [|x l IH]; intros Hf; [reflexivity|].
  cbn. rewrite (Hf x) by left. cbn.
  rewrite IH; [reflexivity|]. intros y Hy. apply Hf. by right.
Qed.

(** ** [split] and [join] *)

Lemma append_String (c : ascii) (a b : string) :
  String c a +:+ b = String c (a +:+ b).
Proof. reflexivity. Qed.

Lemma append_Empty (b : string) : EmptyString +:+ b = b.
Proof. reflexivity. Qed.

Lemma has_char_app (c : ascii) (a b : string) :
  Js.has_char c (a +:+ b) = Js.has_char c a || Js.has_char c b.
Proof.
  induction a as [|d a IH]; [reflexivity|].
  rewrite append_String. cbn [Js.has_char]. rewrite IH. by rewrite orb_assoc.
Qed.

Lemma has_char_join (c : ascii) (s : string) (l : list string) :
  Js.has_char c s = false ->
  Forall (fun x => Js.has_char c x = false) l ->
  Js.has_char c (Js.join s l) = false.
Proof.
  intros Hs Hall. induction Hall as [|x l Hx Hall IH]; [reflexivity|].
  destruct l as [|y l]; [exact Hx|].
  change (Js.join s (x :: y :: l)) with (x +:+ s +:+ Js.join s (y :: l)).
  rewrite !has_char_app, Hx, Hs, IH. reflexivity.
Qed.

Section SplitJoin.
Variable sep : ascii.

Lemma split_ne_free (s : string) :
  Js.has_char sep s = false -> Js.split_ne sep s = (s, []).
Proof.
  induction s as [|c s IH]; [reflexivity|].
  cbn. intros [Hc Hs]%orb_false_elim. rewrite (IH Hs), Hc. reflexivity.
Qed.

Lemma split_free (s : string) :
  Js.has_char sep s = false -> Js.split sep s = [s].
Proof. intros Hs. unfold Js.split. by rewrite split_ne_free. Qed.

Lemma split_cons (c : ascii) (s : string) :
  Js.split sep (String c s) =
  if Ascii.eqb c sep then EmptyString :: Js.split sep s
  else match Js.split sep s with
       | h :: t => String c h :: t
       | [] => []
       end.
Proof.
  unfold Js.split. cbn. destruct (Js.split_ne sep s) as [h t].
  by destruct (Ascii.eqb c sep).
Qed.

Lemma split_not_nil (s : string) : Js.split sep s <> [].
Proof. unfold Js.split. by destruct (Js.split_ne sep s). Qed.

(** Splitting distributes over a separator. *)
Lemma split_app_sep (a b : string) :
  Js.split sep (a +:+ String sep b) = Js.split sep a ++ Js.split sep b.
Proof.
  induction a as [|c a IH].
  - rewrite append_Empty, split_cons, Ascii.eqb_refl. reflexivity.
  - rewrite append_String, !split_cons, IH.
    destruct (Ascii.eqb c sep); [reflexivity|].
    pose proof (split_not_nil a) as Hne.
    destruct (Js.split sep a); [done|reflexivity].
Qed.

Lemma split_length_pos (s : string) : 1 <= length (Js.split sep s).
Proof. unfold Js.split. destruct (Js.split_ne sep s). cbn. lia. Qed.

Lemma split_join (l : list string) :
  l <> [] ->
  Forall (fun x => Js.has_char sep x = false) l ->
  Js.split sep (Js.join (String sep EmptyString) l) = l.
Proof.
  intros Hne Hall. induction Hall as [|x l Hx Hall IH]; [done|].
  destruct l as [|y l].
  - cbn. by apply split_free.
  - change (Js.join (String sep EmptyString) (x :: y :: l))
      with (x +:+ String sep (Js.join (String sep EmptyString) (y :: l))).
    rewrite split_app_sep, (split_free x Hx), IH by done. reflexivity.
Qed.

End SplitJoin.

(** ** The squasher *)

Lemma includes_elem_of (l : list string) (x : string) :
  Js.includes l x = true <-> x ∈ l.
Proof.
  unfold Js.includes. rewrite existsb_exists, list_elem_of_In. split.
  - intros (y & Hy & ->%String.eqb_eq). exact Hy.
  - intros Hx. exists x. split; [exact Hx|apply String.eqb_refl].
Qed.

Lemma split_ne_split (sep : ascii) (s h : string) (t : list string) :
  Js.split sep s = h :: t -> Js.split_ne sep s = (h, t).
Proof. unfold Js.split. destruct (Js.split_ne sep s). by intros [= -> ->]. Qed.

(** The values of the three enumerations are non-empty words without a
    delimiter. *)
Lemma enum_values_plain (vals : list string) (o : option string) :
  vals = using_values \/ vals = algorithm_values \/ vals = lock_values ->
  enum_optional vals o = true ->
  Js.has_char semi (Js.or_empty o) = false /\ Js.truthy (Some (Js.or_empty o)) = o.
Proof.
  intros Hvals Ho. destruct o as [s|]; [|by split].
  cbn in Ho. apply includes_elem_of in Ho.
  destruct Hvals as [->|[->| ->]];
    repeat (apply elem_of_cons in Ho as [->|Ho]; [by split|]);
    by apply elem_of_nil in Ho.
Qed.

Lemma index_valid_fields (idx : Index) :
  index_valid idx = true ->
  enum_optional using_values (idx_using idx) = true
  /\ enum_optional algorithm_values (idx_algorithm idx) = true
  /\ enum_optional lock_values (idx_lock idx) = true.
Proof. unfold index_valid. by intros [[? ?]%andb_prop ?]%andb_prop. Qed.

Lemma of_bool_plain (b : bool) :
  Js.has_char semi (Js.of_bool b) = false
  /\ bool_decide (Some (Js.of_bool b) = Some "true") = b.
Proof. by destruct b. Qed.

(** The encoding of an index is its six fields joined by [;]. *)
Lemma squashIdx_fields (idx : Index) :
  index_valid idx = true ->
  squashIdx idx =
  Ok (Js.join ";" [idx_name idx; Js.join "," (idx_columns idx);
                   Js.of_bool (idx_isUnique idx); Js.or_empty (idx_using idx);
                   Js.or_empty (idx_algorithm idx); Js.or_empty (idx_lock idx)]).
Proof. intros Hv. unfold squashIdx, index_parse. by rewrite Hv. Qed.

Lemma unsquashIdx_fields (input name : string) (rest : list string) :
  Js.split semi input = name :: rest ->
  unsquashIdx input =
  match rest !! 0%nat with
  | None => Err TypeError
  | Some cs =>
      index_parse (mkIndex name (Js.split comma cs)
                     (bool_decide (rest !! 1%nat = Some "true"))
                     (Js.truthy (rest !! 2%nat)) (Js.truthy (rest !! 3%nat))
                     (Js.truthy (rest !! 4%nat)))
  end.
Proof. intros Hs. unfold unsquashIdx. by rewrite (split_ne_split _ _ _ _ Hs). Qed.

Lemma unsquashPK_fields (input name : string) (rest : list string) :
  Js.split semi input = name :: rest ->
  unsquashPK input =
  match rest !! 0%nat with
  | None => Err TypeError
  | Some cs => Ok (mkPrimaryKey name (Js.split comma cs))
  end.
Proof. intros Hs. unfold unsquashPK. by rewrite (split_ne_split _ _ _ _ Hs). Qed.

Lemma unsquashUnique_fields (input name : string) (rest : list string) :
  Js.split semi input = name :: rest ->
  unsquashUnique input =
  match rest !! 0%nat with
  | None => Err TypeError
  | Some cs => Ok (mkUniqueConstraint name (Js.split comma cs))
  end.
Proof. intros Hs. unfold unsquashUnique. by rewrite (split_ne_split _ _ _ _ Hs). Qed.

(** A name without [;] followed by a column list without [;] splits into
    exactly these two fields. *)
Lemma split_name_columns (name : string) (columns : list string) :
  Js.has_char semi name = false ->
  Forall (fun c => Js.has_char semi c = false /\ Js.has_char comma c = false) columns ->
  Js.split semi (name +:+ ";" +:+ Js.join "," columns) = [name; Js.join "," columns].
Proof.
  intros Hn Hc.
  change (name +:+ ";" +:+ Js.join "," columns)
    with (name +:+ String semi (Js.join "," columns)).
  rewrite split_app_sep, (split_free _ _ Hn), split_free; [reflexivity|].
  apply has_char_join; [reflexivity|].
  eapply Forall_impl; [exact Hc|]. by intros c [? ?].
Qed.

Lemma split_join_columns (columns : list string) :
  columns <> [] ->
  Forall (fun c => Js.has_char semi c = false /\ Js.has_char comma c = false) columns ->
  Js.split comma (Js.join "," columns) = columns.
Proof.
  intros Hne Hc. apply (split_join comma); [exact Hne|].
  eapply Forall_impl; [exact Hc|]. by intros c [? ?].
Qed.

Lemma unsquashIdx_squashIdx (v : Index) :
  index_valid v = true ->
  Js.has_char semi (idx_name v) = false ->
  idx_columns v <> [] ->
  Forall (fun c => Js.has_char semi c = false /\ Js.has_char comma c = false)
         (idx_columns v) ->
  (s <-- squashIdx v ;; unsquashIdx s) = Ok v.
Proof.
  intros Hv Hn Hne Hc.
  destruct (index_valid_fields v Hv) as (Hu & Ha & Hl).
  destruct (enum_values_plain using_values _ (or_introl eq_refl) Hu) as [Hu1 Hu2].
  destruct (enum_values_plain algorithm_values _ (or_intror (or_introl eq_refl)) Ha)
    as [Ha1 Ha2].
  destruct (enum_values_plain lock_values _ (or_intror (or_intror eq_refl)) Hl)
    as [Hl1 Hl2].
  destruct (of_bool_plain (idx_isUnique v)) as [Hb1 Hb2].
  rewrite (squashIdx_fields v Hv). cbn [rbind].
  erewrite unsquashIdx_fields; last first.
  { apply (split_join semi); [done|].
    repeat apply Forall_cons_2; try done.
    apply has_char_join; [reflexivity|].
    eapply Forall_impl; [exact Hc|]. by intros c [? ?]. }
  cbn [lookup list_lookup]. 
  rewrite (split_join_columns _ Hne Hc), Hb2, Hu2, Ha2, Hl2.
  unfold index_parse. destruct v. cbn in *. by rewrite Hv.
Qed.

(** C1, as stated, fails: the validators accept any string as a name or a
    column, and a delimiter inside one, or an empty column list, is not
    restored.  Four accepted values that do not survive the round trip: an
    index over an expression with a comma, a primary key whose name holds a
    semicolon, a unique constraint with a semicolon in a column, and a
    primary key without columns. *)
Lemma squash_unsquash_not_inverse :
  (index_valid (mkIndex "full_name_idx" ["concat(first,last)"] false None None None) = true
   /\ (s <-- squashIdx (mkIndex "full_name_idx" ["concat(first,last)"] false None None None) ;;
       unsquashIdx s)
      = Ok (mkIndex "full_name_idx" ["concat(first"; "last)"] false None None None))
  /\ unsquashPK (squashPK (mkPrimaryKey "a;b" ["id"])) = Ok (mkPrimaryKey "a" ["b"])
  /\ unsquashUnique (squashUnique (mkUniqueConstraint "u" ["x;y"]))
     = Ok (mkUniqueConstraint "u" ["x"])
  /\ unsquashPK (squashPK (mkPrimaryKey "pk" [])) = Ok (mkPrimaryKey "pk" [""]).
Proof. repeat split; reflexivity. Qed.

(** C1 (amended): for every accepted Index, PrimaryKey and UniqueConstraint
    whose name holds no [;], whose column list is not empty and whose columns
    hold neither [;] nor [,], unsquashing the squashed encoding returns the
    original value. *)
Theorem squash_unsquash_inverse :
  (forall v : Index,
      index_valid v = true ->
      Js.has_char semi (idx_name v) = false ->
      idx_columns v <> [] ->
      Forall (fun c => Js.has_char semi c = false /\ Js.has_char comma c = false)
             (idx_columns v) ->
      (s <-- squashIdx v ;; unsquashIdx s) = Ok v)
  /\ (forall v : PrimaryKey,
      Js.has_char semi (pk_name v) = false ->
      pk_columns v <> [] ->
      Forall (fun c => Js.has_char semi c = false /\ Js.has_char comma c = false)
             (pk_columns v) ->
      unsquashPK (squashPK v) = Ok v)
  /\ (forall v : UniqueConstraint,
      Js.has_char semi (unq_name v) = false ->
      unq_columns v <> [] ->
      Forall (fun c => Js.has_char semi c = false /\ Js.has_char comma c = false)
             (unq_columns v) ->
      unsquashUnique (squashUnique v) = Ok v).
Proof.
  split; [exact unsquashIdx_squashIdx|]. split.
  - intros [name columns] Hn Hne Hc. cbn in *.
    erewrite unsquashPK_fields; [|by apply split_name_columns].
    cbn. by rewrite split_join_columns.
  - intros [name columns] Hn Hne Hc. cbn in *.
    erewrite unsquashUnique_fields; [|by apply split_name_columns].
    cbn. by rewrite split_join_columns.
Qed.

Lemma squash_unsquash_inverse_witness :
  (s <-- squashIdx (mkIndex "name_idx" ["first"; "last"] true (Some "btree") None
                      (Some "shared")) ;;
   unsquashIdx s)
  = Ok (mkIndex "name_idx" ["first"; "last"] true (Some "btree") None (Some "shared"))
  /\ unsquashPK (squashPK (mkPrimaryKey "pk" ["a"; "b"])) = Ok (mkPrimaryKey "pk" ["a"; "b"])
  /\ unsquashUnique (squashUnique (mkUniqueConstraint "u" ["email"]))
     = Ok (mkUniqueConstraint "u" ["email"]).
Proof.
  destruct squash_unsquash_inverse as (HI & HP & HU).
  split; [|split].
  - apply HI; [reflexivity|reflexivity|discriminate|].
    repeat constructor.
  - apply HP; [reflexivity|discriminate|]. repeat constructor.
  - apply HU; [reflexivity|discriminate|]. repeat constructor.
Defined.

(** C2, as stated, fails: no unsquasher counts the fields.  Three fields
    are accepted as a primary key or unique constraint, and two or seven as
    an index. *)
Lemma unsquash_accepts_wrong_field_count :
  (length (Js.split semi "pk;a;b") = 3%nat
   /\ unsquashPK "pk;a;b" = Ok (mkPrimaryKey "pk" ["a"])
   /\ unsquashUnique "pk;a;b" = Ok (mkUniqueConstraint "pk" ["a"]))
  /\ (length (Js.split semi "i;a") = 2%nat
      /\ unsquashIdx "i;a" = Ok (mkIndex "i" ["a"] false None None None))
  /\ (length (Js.split semi "i;a;true;hash;;;x") = 7%nat
      /\ unsquashIdx "i;a;true;hash;;;x" = Ok (mkIndex "i" ["a"] true (Some "hash") None None)).
Proof. repeat split; reflexivity. Qed.

(** C2 (amended): [unsquashIdx], [unsquashPK] and [unsquashUnique] raise a
    TypeError exactly when the [;]-split of the input yields a single
    field.  With two or more fields [unsquashPK] and [unsquashUnique] return
    the value built from the first two and ignore the others, and
    [unsquashIdx] reads a missing field as false or absent, ignores fields
    after the sixth and returns what the [index] validator makes of that. *)
Theorem unsquash_field_count (input : string) :
  (length (Js.split semi input) < 2 ->
   unsquashIdx input = Err TypeError
   /\ unsquashPK input = Err TypeError
   /\ unsquashUnique input = Err TypeError)
  /\ (2 <= length (Js.split semi input) ->
      exists name cs rest,
        Js.split semi input = name :: cs :: rest
        /\ unsquashPK input = Ok (mkPrimaryKey name (Js.split comma cs))
        /\ unsquashUnique input = Ok (mkUniqueConstraint name (Js.split comma cs))
        /\ unsquashIdx input =
           index_parse (mkIndex name (Js.split comma cs)
                          (bool_decide (rest !! 0%nat = Some "true"))
                          (Js.truthy (rest !! 1%nat)) (Js.truthy (rest !! 2%nat))
                          (Js.truthy (rest !! 3%nat)))).
Proof.
  destruct (Js.split semi input) as [|name [|cs rest]] eqn:Hs.
  - by destruct (split_not_nil semi input).
  - split; [|cbn; lia]. intros _.
    by rewrite (unsquashIdx_fields _ _ _ Hs), (unsquashPK_fields _ _ _ Hs),
      (unsquashUnique_fields _ _ _ Hs).
  - split; [cbn; lia|]. intros _. exists name, cs, rest.
    by rewrite (unsquashIdx_fields _ _ _ Hs), (unsquashPK_fields _ _ _ Hs),
      (unsquashUnique_fields _ _ _ Hs).
Qed.

Lemma unsquash_field_count_witness :
  (unsquashIdx "users_pk" = Err TypeError
   /\ unsquashPK "users_pk" = Err TypeError
   /\ unsquashUnique "users_pk" = Err TypeError)
  /\ exists name cs rest,
       Js.split semi "i;a,b;true;zzz" = name :: cs :: rest
       /\ unsquashPK "i;a,b;true;zzz" = Ok (mkPrimaryKey name (Js.split comma cs))
       /\ unsquashUnique "i;a,b;true;zzz" = Ok (mkUniqueConstraint name (Js.split comma cs))
       /\ unsquashIdx "i;a,b;true;zzz" =
          index_parse (mkIndex name (Js.split comma cs)
                         (bool_decide (rest !! 0%nat = Some "true"))
                         (Js.truthy (rest !! 1%nat)) (Js.truthy (rest !! 2%nat))
                         (Js.truthy (rest !! 3%nat))).
Proof.
  split.
  - apply (unsquash_field_count "users_pk"). vm_compute. lia.
  - apply (unsquash_field_count "i;a,b;true;zzz"). vm_compute. lia.
Defined.

(** C3: for every valid Index, [squashIdx] returns a string whose last three
    [;]-separated fields are the values of [using], [algorithm] and [lock],
    an absent one being the empty field (so never the text [undefined] or
    [null]); and [unsquashIdx] turns each empty one of these fields of a
    six-field input back into an absent field. *)
Theorem absent_fields_encode_empty :
  (forall idx : Index,
      index_valid idx = true ->
      exists s pre u a l,
        squashIdx idx = Ok s
        /\ Js.split semi s = pre ++ [u; a; l]
        /\ 3 <= length pre
        /\ (idx_using idx = None -> u = "")
        /\ (idx_algorithm idx = None -> a = "")
        /\ (idx_lock idx = None -> l = "")
        /\ (forall x, idx_using idx = Some x -> u = x)
        /\ (forall x, idx_algorithm idx = Some x -> a = x)
        /\ (forall x, idx_lock idx = Some x -> l = x))
  /\ (forall input name cs isUnique u a l,
      Js.split semi input = [name; cs; isUnique; u; a; l] ->
      enum_optional using_values (Js.truthy (Some u)) = true ->
      enum_optional algorithm_values (Js.truthy (Some a)) = true ->
      enum_optional lock_values (Js.truthy (Some l)) = true ->
      exists idx,
        unsquashIdx input = Ok idx
        /\ idx_name idx = name
        /\ idx_columns idx = Js.split comma cs
        /\ (u = "" -> idx_using idx = None)
        /\ (a = "" -> idx_algorithm idx = None)
        /\ (l = "" -> idx_lock idx = None)
        /\ (u <> "" -> idx_using idx = Some u)
        /\ (a <> "" -> idx_algorithm idx = Some a)
        /\ (l <> "" -> idx_lock idx = Some l)).
Proof.
  split.
  - intros idx Hv.
    destruct (index_valid_fields idx Hv) as (Hu & Ha & Hl).
    destruct (enum_values_plain using_values _ (or_introl eq_refl) Hu) as [Hu1 _].
    destruct (enum_values_plain algorithm_values _ (or_intror (or_introl eq_refl)) Ha)
      as [Ha1 _].
    destruct (enum_values_plain lock_values _ (or_intror (or_intror eq_refl)) Hl)
      as [Hl1 _].
    destruct (of_bool_plain (idx_isUnique idx)) as [Hb1 _].
    eexists _, (Js.split semi (idx_name idx)
                ++ Js.split semi (Js.join "," (idx_columns idx))
                ++ [Js.of_bool (idx_isUnique idx)]),
      (Js.or_empty (idx_using idx)), (Js.or_empty (idx_algorithm idx)),
      (Js.or_empty (idx_lock idx)).
    split; [by apply squashIdx_fields|]. split.
    { change (Js.join ";" [idx_name idx; Js.join "," (idx_columns idx);
                Js.of_bool (idx_isUnique idx); Js.or_empty (idx_using idx);
                Js.or_empty (idx_algorithm idx); Js.or_empty (idx_lock idx)])
        with (idx_name idx +:+ String semi
              (Js.join "," (idx_columns idx) +:+ String semi
               (Js.of_bool (idx_isUnique idx) +:+ String semi
                (Js.or_empty (idx_using idx) +:+ String semi
                 (Js.or_empty (idx_algorithm idx) +:+ String semi
                  (Js.or_empty (idx_lock idx))))))).
      rewrite !split_app_sep.
      rewrite (split_free _ _ Hb1), (split_free _ _ Hu1), (split_free _ _ Ha1),
        (split_free _ _ Hl1).
      by rewrite <- !app_assoc. }
    split.
    { rewrite !length_app. cbn.
      pose proof (split_length_pos semi (idx_name idx)).
      pose proof (split_length_pos semi (Js.join "," (idx_columns idx))). lia. }
    repeat split; try (by intros ->); by intros x ->.
  - intros input name cs isUnique u a l Hs Hu Ha Hl.
    rewrite (unsquashIdx_fields _ _ _ Hs). cbn [lookup list_lookup].
    unfold index_parse, index_valid. cbn [idx_using idx_algorithm idx_lock].
    rewrite Hu, Ha, Hl. cbn [andb]. eexists. split; [reflexivity|].
    cbn [idx_name idx_columns idx_using idx_algorithm idx_lock Js.truthy].
    repeat split; try (by intros ->);
      intros Hne;
      match goal with
      | |- context [String.eqb ?x ""] => by destruct (String.eqb_spec x "")
      end.
Qed.

Lemma absent_fields_encode_empty_witness :
  (exists s pre u a l,
      squashIdx (mkIndex "i" ["a"; "b"] true None (Some "inplace") None) = Ok s
      /\ Js.split semi s = pre ++ [u; a; l] /\ 3 <= length pre
      /\ u = "" /\ a = "inplace" /\ l = "")
  /\ (exists idx,
      unsquashIdx "i;a,b;true;;inplace;" = Ok idx
      /\ idx_using idx = None /\ idx_algorithm idx = Some "inplace" /\ idx_lock idx = None).
Proof.
  destruct absent_fields_encode_empty as [Henc Hdec]. split.
  - destruct (Henc (mkIndex "i" ["a"; "b"] true None (Some "inplace") None) eq_refl)
      as (s & pre & u & a & l & Hs & Hsplit & Hlen & Hu & Ha & Hl & _ & Ha' & _).
    exists s, pre, u, a, l. repeat split; auto.
  - destruct (Hdec "i;a,b;true;;inplace;" "i" "a,b" "true" "" "inplace" ""
                eq_refl eq_refl eq_refl eq_refl)
      as (idx & Hidx & _ & _ & Hu & _ & Hl & _ & Ha & _).
    exists idx. repeat split; auto.
Defined.

(** ** Squashing a snapshot *)

Lemma record_valid_lookup {V} (p : V -> bool) (m : gmap string V) :
  record_valid p m = true <-> forall k v, m !! k = Some v -> p v = true.
Proof.
  unfold record_valid. rewrite forallb_forall. split.
  - intros Hall k v Hkv. apply (Hall (k, v)).
    by apply list_elem_of_In, elem_of_map_to_list.
  - intros Hall [k v] Hin%list_elem_of_In%elem_of_map_to_list. by apply (Hall k).
Qed.

(** When the callback returns on every value, [mapValues] returns the
    mapping with the same keys and the callback's results. *)
Lemma mapValues_ok {A B} (obj : gmap string A) (f : A -> result B) (g : A -> B) :
  (forall k v, obj !! k = Some v -> f v = Ok (g v)) ->
  mapValues obj f = Ok (g <$> obj).
Proof.
  intros Hf. unfold mapValues.
  rewrite (rmapM_ok _ (prod_map id g)).
  - cbn. by rewrite list_to_map_fmap, list_to_map_to_list.
  - intros [k v] Hkv%elem_of_map_to_list. cbn. by rewrite (Hf k v Hkv).
Qed.

(** The text [squashIdx] returns, or the empty text where it raises. *)
Lemma squashIdx_total (t : Table) :
  record_valid index_valid (tbl_indexes t) = true ->
  exists g : Index -> string,
    mapValues (tbl_indexes t) (fun index => squashIdx index) = Ok (g <$> tbl_indexes t)
    /\ forall k i, tbl_indexes t !! k = Some i -> squashIdx i = Ok (g i).
Proof.
  intros Hv. rewrite record_valid_lookup in Hv.
  set (g := fun i => match squashIdx i with Ok s => s | Err _ => "" end).
  assert (Hg : forall k i, tbl_indexes t !! k = Some i -> squashIdx i = Ok (g i)).
  { intros k i Hki. unfold g. by rewrite (squashIdx_fields i (Hv k i Hki)). }
  exists g. split; [by apply (mapValues_ok _ _ g)|exact Hg].
Qed.

(** C4: for every snapshot the [singlestoreSchema] validator accepts,
    [squashSingleStoreScheme] returns a snapshot with version ['1'] and the
    input's dialect, with the same table keys, and each table with its name
    and columns unchanged and with its indexes, composite primary keys and
    unique constraints replaced by mappings from the same keys to the
    squashed strings. *)
Theorem squashSingleStoreScheme_frame (json : SingleStoreSchema) :
  singlestoreSchema_valid json = true ->
  exists squashed,
    squashSingleStoreScheme json = Ok squashed
    /\ sq_version squashed = "1"
    /\ sq_dialect squashed = s_dialect json
    /\ dom (sq_tables squashed) = dom (s_tables json)
    /\ forall key t,
        s_tables json !! key = Some t ->
        exists t',
          sq_tables squashed !! key = Some t'
          /\ ts_name t' = tbl_name t
          /\ ts_columns t' = tbl_columns t
          /\ dom (ts_indexes t') = dom (tbl_indexes t)
          /\ (forall k i, tbl_indexes t !! k = Some i ->
                exists s, squashIdx i = Ok s /\ ts_indexes t' !! k = Some s)
          /\ ts_compositePrimaryKeys t' = squashPK <$> tbl_compositePrimaryKeys t
          /\ ts_uniqueConstraints t' = squashUnique <$> tbl_uniqueConstraints t.
Proof.
  intros Hv. unfold singlestoreSchema_valid in Hv.
  apply andb_prop in Hv as [_ Ht]. rewrite record_valid_lookup in Ht.
  set (idxText := fun i => match squashIdx i with Ok s => s | Err _ => "" end).
  set (squashTable := fun t : Table =>
         {| ts_name := tbl_name t;
            ts_columns := tbl_columns t;
            ts_indexes := idxText <$> tbl_indexes t;
            ts_compositePrimaryKeys := squashPK <$> tbl_compositePrimaryKeys t;
            ts_uniqueConstraints := squashUnique <$> tbl_uniqueConstraints t |}).
  assert (Hidx : forall key t, s_tables json !! key = Some t ->
            forall k i, tbl_indexes t !! k = Some i -> squashIdx i = Ok (idxText i)).
  { intros key t Hkt k i Hki. specialize (Ht key t Hkt).
    apply andb_prop in Ht as [_ Hi]. rewrite record_valid_lookup in Hi.
    unfold idxText. by rewrite (squashIdx_fields i (Hi k i Hki)). }
  exists {| sq_version := "1"; sq_dialect := s_dialect json;
            sq_tables := squashTable <$> s_tables json |}.
  split.
  { unfold squashSingleStoreScheme.
    rewrite (rmapM_ok _ (prod_map id squashTable)).
    - cbn. by rewrite list_to_map_fmap, list_to_map_to_list.
    - intros [key t] Hkt%elem_of_map_to_list. cbn [snd fst].
      rewrite (mapValues_ok _ _ idxText) by eauto.
      rewrite (mapValues_ok _ _ squashPK) by done.
      rewrite (mapValues_ok _ _ squashUnique) by done.
      reflexivity. }
  cbn. repeat split; [by rewrite dom_fmap_L|].
  intros key t Hkt. exists (squashTable t).
  rewrite lookup_fmap, Hkt. cbn. repeat split; [by rewrite dom_fmap_L|].
  intros k i Hki. exists (idxText i). split; [by eapply Hidx|].
  by rewrite lookup_fmap, Hki.
Qed.

(** ** [api.ts]: snapshots and migrations *)

Lemma singlestoreSchema_parse_Err (s : SingleStoreSchema) (e : error) :
  singlestoreSchema_parse s = Err e -> e = ZodError /\ singlestoreSchema_valid s = false.
Proof.
  unfold singlestoreSchema_parse. destruct (singlestoreSchema_valid s); [done|].
  by intros [= <-].
Qed.

Lemma singlestoreSchema_parse_Ok (s s' : SingleStoreSchema) :
  singlestoreSchema_parse s = Ok s' -> s' = s /\ singlestoreSchema_valid s = true.
Proof.
  unfold singlestoreSchema_parse. destruct (singlestoreSchema_valid s); [|done].
  by intros [= <-].
Qed.

Section ApiFacts.
Variable originUUID : string.
Variables Imports PgTables PgEnums PgSchemas PgSequences SQLiteTables MySqlTables
          SingleStoreTables : Type.
Variable pg_prepareFromExports :
  Imports -> result (PgPrepared PgTables PgEnums PgSchemas PgSequences).
Variable generatePgSnapshot :
  PgTables -> PgEnums -> PgSchemas -> PgSequences -> option (list string) ->
  result (gmap string jsonValue).
Variable sqlite_prepareFromExports : Imports -> result (Prepared SQLiteTables).
Variable generateSqliteSnapshot : SQLiteTables -> result (gmap string jsonValue).
Variable mysql_prepareFromExports : Imports -> result (Prepared MySqlTables).
Variable generateMySqlSnapshot : MySqlTables -> result (gmap string jsonValue).
Variable singlestore_prepareFromExports : Imports -> result (Prepared SingleStoreTables).
Variable generateSingleStoreSnapshot : SingleStoreTables -> result SingleStoreSchemaInternal.
Variable JsonStatement : Type.
Variables PgSchemaKit PgSquashed SQLiteSchemaKit SQLiteSquashed MySQLSchemaKit
          MySQLSquashed : Type.
Variable pgSchema_parse : PgSchemaKit -> result PgSchemaKit.
Variable squashPgScheme : PgSchemaKit -> option string -> result PgSquashed.
Variable applyPgSnapshotsDiff :
  PgSquashed -> PgSquashed -> PgSchemaKit -> PgSchemaKit -> option string ->
  result (DiffResult JsonStatement).
Variable sqliteSchema_parse : SQLiteSchemaKit -> result SQLiteSchemaKit.
Variable squashSqliteScheme : SQLiteSchemaKit -> option string -> result SQLiteSquashed.
Variable applySqliteSnapshotsDiff :
  SQLiteSquashed -> SQLiteSquashed -> SQLiteSchemaKit -> SQLiteSchemaKit -> option string ->
  result (DiffResult JsonStatement).
Variable mysqlSchema_parse : MySQLSchemaKit -> result MySQLSchemaKit.
Variable squashMysqlScheme : MySQLSchemaKit -> result MySQLSquashed.
Variable applyMysqlSnapshotsDiff :
  MySQLSquashed -> MySQLSquashed -> MySQLSchemaKit -> MySQLSchemaKit -> option string ->
  result (DiffResult JsonStatement).
Variable applySingleStoreSnapshotsDiff :
  SingleStoreSchemaSquashed -> SingleStoreSchemaSquashed ->
  SingleStoreSchema -> SingleStoreSchema -> option string ->
  result (DiffResult JsonStatement).
Variables upPgV6 upPgV7 : gmap string jsonValue -> gmap string jsonValue.

(** What [{ ...snapshot, id, prevId }] holds. *)
Lemma spread_id_prevId_lookup (snapshot : gmap string jsonValue) (id' prev : string) :
  spread_id_prevId snapshot id' prev !! "prevId" = Some (JStr prev)
  /\ spread_id_prevId snapshot id' prev !! "id" = Some (JStr id')
  /\ forall k, k <> "id" -> k <> "prevId" ->
       spread_id_prevId snapshot id' prev !! k = snapshot !! k.
Proof.
  unfold spread_id_prevId. split; [by rewrite lookup_insert_eq|]. split.
  - rewrite lookup_insert_ne by done. by rewrite lookup_insert_eq.
  - intros k Hid Hprev. by rewrite !lookup_insert_ne.
Qed.

(** C6: each of the four migration generators validates the previous and
    then the current snapshot before anything else: when either validation
    raises, the generator raises that validation error, whatever the
    squasher and the differ are, and returns no statement.  For SingleStore
    the error is zod's. *)
Theorem migration_validates_first :
  (forall prev cur,
      singlestoreSchema_valid prev && singlestoreSchema_valid cur = false ->
      Api.generateSingleStoreMigration JsonStatement applySingleStoreSnapshotsDiff prev cur
      = Err ZodError)
  /\ (forall prev cur e,
      pgSchema_parse prev = Err e
      \/ (is_Ok (pgSchema_parse prev) = true /\ pgSchema_parse cur = Err e) ->
      Api.generateMigration JsonStatement PgSchemaKit PgSquashed pgSchema_parse
        squashPgScheme applyPgSnapshotsDiff prev cur = Err e)
  /\ (forall prev cur e,
      mysqlSchema_parse prev = Err e
      \/ (is_Ok (mysqlSchema_parse prev) = true /\ mysqlSchema_parse cur = Err e) ->
      Api.generateMySQLMigration JsonStatement MySQLSchemaKit MySQLSquashed
        mysqlSchema_parse squashMysqlScheme applyMysqlSnapshotsDiff prev cur = Err e)
  /\ (forall prev cur e,
      sqliteSchema_parse prev = Err e
      \/ (is_Ok (sqliteSchema_parse prev) = true /\ sqliteSchema_parse cur = Err e) ->
      Api.generateSQLiteMigration JsonStatement SQLiteSchemaKit SQLiteSquashed
        sqliteSchema_parse squashSqliteScheme applySqliteSnapshotsDiff prev cur = Err e).
Proof.
  repeat split.
  - intros prev cur Hbad. unfold Api.generateSingleStoreMigration, singlestoreSchema_parse.
    destruct (singlestoreSchema_valid prev); [|reflexivity].
    cbn in Hbad. rewrite Hbad. reflexivity.
  - intros prev cur e [Hp|[Hp Hc]]; unfold Api.generateMigration.
    + by rewrite Hp.
    + destruct (pgSchema_parse prev); [|done]. cbn. by rewrite Hc.
  - intros prev cur e [Hp|[Hp Hc]]; unfold Api.generateMySQLMigration.
    + by rewrite Hp.
    + destruct (mysqlSchema_parse prev); [|done]. cbn. by rewrite Hc.
  - intros prev cur e [Hp|[Hp Hc]]; unfold Api.generateSQLiteMigration.
    + by rewrite Hp.
    + destruct (sqliteSchema_parse prev); [|done]. cbn. by rewrite Hc.
Qed.

(** C7: each of the four snapshot generators returns the serialized snapshot
    with [id] set to the drawn identifier and [prevId] set to the supplied
    [prevId], or to [originUUID] when none is supplied; every other field is
    the serializer's. *)
Theorem drizzleJson_prevId (imports : Imports) (prevId : option string) (uuid : string) :
  (forall prepared snapshot,
      singlestore_prepareFromExports imports = Ok prepared ->
      generateSingleStoreSnapshot (prep_tables prepared) = Ok snapshot ->
      exists r,
        Api.generateSingleStoreDrizzleJson originUUID Imports SingleStoreTables
          singlestore_prepareFromExports generateSingleStoreSnapshot imports prevId uuid
        = Ok r
        /\ (forall p, prevId = Some p -> s_prevId r = p)
        /\ (prevId = None -> s_prevId r = originUUID)
        /\ s_id r = uuid
        /\ s_version r = si_version snapshot
        /\ s_dialect r = si_dialect snapshot
        /\ s_tables r = si_tables snapshot
        /\ s_meta r = si_meta snapshot
        /\ s_internal r = si_internal snapshot)
  /\ (forall prepared snapshot,
      mysql_prepareFromExports imports = Ok prepared ->
      generateMySqlSnapshot (prep_tables prepared) = Ok snapshot ->
      exists r,
        Api.generateMySQLDrizzleJson originUUID Imports MySqlTables
          mysql_prepareFromExports generateMySqlSnapshot imports prevId uuid = Ok r
        /\ (forall p, prevId = Some p -> r !! "prevId" = Some (JStr p))
        /\ (prevId = None -> r !! "prevId" = Some (JStr originUUID))
        /\ r !! "id" = Some (JStr uuid)
        /\ forall k, k <> "id" -> k <> "prevId" -> r !! k = snapshot !! k)
  /\ (forall prepared snapshot,
      sqlite_prepareFromExports imports = Ok prepared ->
      generateSqliteSnapshot (prep_tables prepared) = Ok snapshot ->
      exists r,
        Api.generateSQLiteDrizzleJson originUUID Imports SQLiteTables
          sqlite_prepareFromExports generateSqliteSnapshot imports prevId uuid = Ok r
        /\ (forall p, prevId = Some p -> r !! "prevId" = Some (JStr p))
        /\ (prevId = None -> r !! "prevId" = Some (JStr originUUID))
        /\ r !! "id" = Some (JStr uuid)
        /\ forall k, k <> "id" -> k <> "prevId" -> r !! k = snapshot !! k)
  /\ (forall schemaFilters prepared snapshot,
      pg_prepareFromExports imports = Ok prepared ->
      generatePgSnapshot (pg_tables prepared) (pg_enums prepared) (pg_schemas prepared)
        (pg_sequences prepared) schemaFilters = Ok snapshot ->
      exists r,
        Api.generateDrizzleJson originUUID Imports PgTables PgEnums PgSchemas PgSequences
          pg_prepareFromExports generatePgSnapshot imports prevId schemaFilters uuid = Ok r
        /\ (forall p, prevId = Some p -> r !! "prevId" = Some (JStr p))
        /\ (prevId = None -> r !! "prevId" = Some (JStr originUUID))
        /\ r !! "id" = Some (JStr uuid)
        /\ forall k, k <> "id" -> k <> "prevId" -> r !! k = snapshot !! k).
Proof.
  split; [|split; [|split]].
  - intros prepared snapshot Hp Hs. eexists. split.
    { unfold Api.generateSingleStoreDrizzleJson. rewrite Hp. cbn. rewrite Hs. reflexivity. }
    cbn. repeat split; [by intros p ->|by intros ->].
  - intros prepared snapshot Hp Hs. eexists. split.
    { unfold Api.generateMySQLDrizzleJson. rewrite Hp. cbn. rewrite Hs. reflexivity. }
    destruct (spread_id_prevId_lookup snapshot uuid (default originUUID prevId))
      as (Hprev & Hid & Hother).
    repeat split; [by intros p ->|by intros ->|exact Hid|exact Hother].
  - intros prepared snapshot Hp Hs. eexists. split.
    { unfold Api.generateSQLiteDrizzleJson. rewrite Hp. cbn. rewrite Hs. reflexivity. }
    destruct (spread_id_prevId_lookup snapshot uuid (default originUUID prevId))
      as (Hprev & Hid & Hother).
    repeat split; [by intros p ->|by intros ->|exact Hid|exact Hother].
  - intros schemaFilters prepared snapshot Hp Hs. eexists. split.
    { unfold Api.generateDrizzleJson. rewrite Hp. cbn. rewrite Hs. reflexivity. }
    unfold fillPgSnapshot. cbn.
    destruct (spread_id_prevId_lookup snapshot uuid (default originUUID prevId))
      as (Hprev & Hid & Hother).
    repeat split; [by intros p ->|by intros ->|exact Hid|exact Hother].
Qed.

(** C9: [upPgSnapshot] dispatches on the [version] member: a snapshot of
    version ['5'] goes through the v6 step and then the v7 step, one of
    version ['6'] through the v7 step only, and any other snapshot is
    returned as it is. *)
Theorem upPgSnapshot_dispatch (snapshot : gmap string jsonValue) :
  (snapshot !! "version" = Some (JStr "5") ->
   Api.upPgSnapshot upPgV6 upPgV7 snapshot = upPgV7 (upPgV6 snapshot))
  /\ (snapshot !! "version" = Some (JStr "6") ->
      Api.upPgSnapshot upPgV6 upPgV7 snapshot = upPgV7 snapshot)
  /\ (snapshot !! "version" <> Some (JStr "5") ->
      snapshot !! "version" <> Some (JStr "6") ->
      Api.upPgSnapshot upPgV6 upPgV7 snapshot = snapshot).
Proof.
  unfold Api.upPgSnapshot, Api.version_is. repeat split.
  - by intros ->.
  - by intros ->.
  - intros H5 H6. destruct (snapshot !! "version") as [[| | |s| |]|]; try reflexivity.
    destruct (String.eqb_spec s "5") as [->|_]; [done|].
    destruct (String.eqb_spec s "6") as [->|_]; [done|reflexivity].
Qed.

End ApiFacts.

(** ** Traces *)

Lemma issued_app (e1 e2 : list event) : issued (e1 ++ e2) = issued e1 ++ issued e2.
Proof. apply omap_app. Qed.

Lemma prompts_app (e1 e2 : list event) : prompts (e1 ++ e2) = prompts e1 ++ prompts e2.
Proof. apply omap_app. Qed.

Lemma sequential_from_app (p : option string) (e1 e2 : list event) :
  sequential_from p e1 = true ->
  sequential_from p (e1 ++ e2) = sequential_from None e2.
Proof.
  revert p. induction e1 as [|e e1 IH]; intros p.
  - cbn. by intros ->%bool_decide_eq_true.
  - destruct e; cbn; try apply IH.
    + destruct p; [done|apply IH].
    + destruct p as [sql'|]; [|done].
      intros [-> Hr]%andb_prop. cbn. by apply IH.
Qed.

Lemma sequential_app (e1 e2 : list event) :
  sequential e1 = true -> sequential e2 = true -> sequential (e1 ++ e2) = true.
Proof. unfold sequential. intros H1 H2. by rewrite sequential_from_app. Qed.

(** In a sequential trace a query has settled before the next one is
    issued. *)
Lemma sequential_from_settled_between (evs : list event) (p : option string) :
  sequential_from p evs = true ->
  (forall i j s1 s2,
      evs !! i = Some (Issued s1) -> evs !! j = Some (Issued s2) -> i < j ->
      exists k b, i < k < j /\ evs !! k = Some (Settled s1 b))
  /\ (forall s0 j s2,
      p = Some s0 -> evs !! j = Some (Issued s2) ->
      exists k b, k < j /\ evs !! k = Some (Settled s0 b)).
Proof.
  revert p. induction evs as [|e evs IH]; intros p Hseq.
  { split; intros; by rewrite lookup_nil in *. }
  assert (Hshift : forall q, sequential_from q evs = true ->
            forall i j s1 s2,
              (e :: evs) !! S i = Some (Issued s1) ->
              (e :: evs) !! S j = Some (Issued s2) -> S i < S j ->
              exists k b, S i < k < S j /\ (e :: evs) !! k = Some (Settled s1 b)).
  { intros q Hq i j s1 s2 Hi Hj Hlt. cbn in Hi, Hj.
    destruct (proj1 (IH q Hq) i j s1 s2 Hi Hj ltac:(lia)) as (k & b & Hk & Hkb).
    exists (S k), b. split; [lia|exact Hkb]. }
  assert (Hpend : forall q, sequential_from q evs = true ->
            forall s0 j s2, q = Some s0 -> (e :: evs) !! S j = Some (Issued s2) ->
              exists k b, k < S j /\ (e :: evs) !! k = Some (Settled s0 b)).
  { intros q Hq s0 j s2 -> Hj. cbn in Hj.
    destruct (proj2 (IH _ Hq) s0 j s2 eq_refl Hj) as (k & b & Hk & Hkb).
    exists (S k), b. split; [lia|exact Hkb]. }
  destruct e; cbn in Hseq.
  - (* Issued *)
    destruct p; [done|]. split.
    + intros [|i] [|j] s1 s2 Hi Hj Hlt; try lia.
      * cbn in Hi. injection Hi as ->.
        destruct (Hpend _ Hseq s1 j s2 eq_refl Hj) as (k & b & Hk & Hkb).
        destruct k as [|k]; [done|]. exists (S k), b. split; [lia|exact Hkb].
      * by eapply Hshift.
    + by intros s0 j s2 [=].
  - (* Settled *)
    destruct p as [sql'|]; [|done]. apply andb_prop in Hseq as [Heq%String.eqb_eq Hseq].
    subst sql'. split.
    + intros [|i] [|j] s1 s2 Hi Hj Hlt; try lia; [done|by eapply Hshift].
    + intros s0 [|j] s2 [= <-] Hj; [done|].
      exists 0%nat, acknowledged. split; [lia|reflexivity].
  - split.
    + intros [|i] [|j] s1 s2 Hi Hj Hlt; try lia; [done|by eapply Hshift].
    + intros s0 [|j] s2 Hp Hj; [done|by eapply Hpend].
  - split.
    + intros [|i] [|j] s1 s2 Hi Hj Hlt; try lia; [done|by eapply Hshift].
    + intros s0 [|j] s2 Hp Hj; [done|by eapply Hpend].
  - split.
    + intros [|i] [|j] s1 s2 Hi Hj Hlt; try lia; [done|by eapply Hshift].
    + intros s0 [|j] s2 Hp Hj; [done|by eapply Hpend].
  - split.
    + intros [|i] [|j] s1 s2 Hi Hj Hlt; try lia; [done|by eapply Hshift].
    + intros s0 [|j] s2 Hp Hj; [done|by eapply Hpend].
  - split.
    + intros [|i] [|j] s1 s2 Hi Hj Hlt; try lia; [done|by eapply Hshift].
    + intros s0 [|j] s2 Hp Hj; [done|by eapply Hpend].
Qed.

Lemma sequential_settled_between (evs : list event) (i j : nat) (s1 s2 : string) :
  sequential evs = true ->
  evs !! i = Some (Issued s1) -> evs !! j = Some (Issued s2) -> i < j ->
  exists k b, i < k < j /\ evs !! k = Some (Settled s1 b).
Proof. intros Hs. by apply (sequential_from_settled_between evs None Hs). Qed.

(** ** Awaited computations *)

Section MonadFacts.
Context {Conn : Type} `{DB Conn}.

Lemma bind_assoc {A B C} (m : M Conn A) (f : A -> M Conn B) (g : B -> M Conn C) (c : Conn) :
  bind (bind m f) g c = bind m (fun a => bind (f a) g) c.
Proof.
  unfold bind. destruct (m c) as [[[a|e|n] c1] e1]; [|done|done].
  destruct (f a c1) as [[[b|e|n] c2] e2]; [|done|done].
  destruct (g b c2) as [[o c3] e3]. by rewrite app_assoc.
Qed.

Lemma bind_ext {A B} (m : M Conn A) (f g : A -> M Conn B) (c : Conn) :
  (forall a c', f a c' = g a c') -> bind m f c = bind m g c.
Proof.
  intros Hfg. unfold bind. destruct (m c) as [[[a|e|n] c1] e1]; [|done|done].
  by rewrite Hfg.
Qed.

Lemma bind_ret_l {A B} (a : A) (k : A -> M Conn B) (c : Conn) :
  bind (ret a) k c = k a c.
Proof. unfold bind, ret. by destruct (k a c) as [[o c2] e2]. Qed.

Lemma bind_emit {B} (e : event) (k : unit -> M Conn B) (c : Conn) :
  bind (emit e) k c = let '(o, c2, evs) := k tt c in (o, c2, e :: evs).
Proof. reflexivity. Qed.

Lemma bind_ask {B} (user : question -> option nat) (q : question)
    (k : option nat -> M Conn B) (c : Conn) :
  bind (ask user q) k c = let '(o, c2, evs) := k (user q) c in (o, c2, Asked q (user q) :: evs).
Proof. reflexivity. Qed.

Lemma bind_exit {A B} (n : nat) (k : A -> M Conn B) (c : Conn) :
  bind (exit n) k c = (Exit n, c, []).
Proof. reflexivity. Qed.

Lemma bind_lift_Ok {A B} (a : A) (k : A -> M Conn B) (c : Conn) :
  bind (lift (Ok a)) k c = k a c.
Proof. unfold bind, lift. by destruct (k a c) as [[o c2] e2]. Qed.

Lemma bind_lift_Err {A B} (e : error) (k : A -> M Conn B) (c : Conn) :
  bind (lift (Err e)) k c = (Throw e, c, []).
Proof. reflexivity. Qed.

Lemma bind_reads_Ok {A B} (f : Conn -> result A) (a : A) (k : A -> M Conn B) (c : Conn) :
  f c = Ok a -> bind (reads f) k c = k a c.
Proof. intros Hf. unfold bind, reads, lift. rewrite Hf. by destruct (k a c) as [[o c2] e2]. Qed.

Lemma bind_reads_Err {A B} (f : Conn -> result A) (e : error) (k : A -> M Conn B) (c : Conn) :
  f c = Err e -> bind (reads f) k c = (Throw e, c, []).
Proof. intros Hf. unfold bind, reads, lift. by rewrite Hf. Qed.

(** Two loops in a row are one loop over the concatenation. *)
Lemma for_await_app {X B} (l1 l2 : list X) (body : X -> M Conn unit)
    (k : unit -> M Conn B) (c : Conn) :
  bind (for_await l1 body) (fun _ => bind (for_await l2 body) k) c
  = bind (for_await (l1 ++ l2) body) k c.
Proof.
  revert c. induction l1 as [|x l1 IH]; intros c.
  - cbn [for_await app]. by rewrite bind_ret_l.
  - cbn [for_await app]. rewrite !bind_assoc. apply bind_ext. intros _ c'. apply IH.
Qed.

(** The loop [for (const s of l) await db.query(s)]: the queries run one
    after the other on the connection the previous one left, until one is
    rejected. *)
Lemma for_await_query (l : list string) (c : Conn) :
  exists o c' evs,
    for_await l (fun s => query s) c = (o, c', evs)
    /\ sequential evs = true
    /\ prompts evs = []
    /\ issued evs `prefix_of` l
    /\ (o = Ret tt -> issued evs = l)
    /\ (o = Ret tt \/ o = Throw DriverError)
    /\ head (issued evs) = head l
    /\ c' = fold_left (fun c s => (run_query s c).1) (issued evs) c
    /\ approved_before_issue evs = bool_decide (issued evs = [])
    /\ Rendered Applied ∉ evs.
Proof.
  revert c. induction l as [|s l IH]; intros c.
  - exists (Ret tt), c, []. repeat split; try done; [by left|apply not_elem_of_nil].
  - destruct (IH (run_query s c).1)
      as (o & c' & evs & Hrun & Hseq & Hpr & Hpre & Hall & Ho & _ & Hc & _ & Hnot).
    cbn [for_await]. unfold bind, query at 1.
    destruct (run_query s c) as [c1 [|]] eqn:Hq; cbn [fst] in *.
    + rewrite Hrun. exists o, c', ([Issued s; Settled s true] ++ evs).
      split; [reflexivity|]. split.
      { apply sequential_app; [|exact Hseq]. cbn. by rewrite String.eqb_refl. }
      split; [by rewrite prompts_app, Hpr|].
      rewrite issued_app. cbn [issued omap app]. cbn.
      split; [by apply prefix_cons|].
      split; [by intros ->%Hall|].
      split; [exact Ho|]. split; [reflexivity|]. split; [by rewrite Hq|].
      split; [reflexivity|].
      rewrite !not_elem_of_cons. by repeat split.
    + exists (Throw DriverError), c1, [Issued s; Settled s false].
      split; [reflexivity|]. split; [cbn; by rewrite String.eqb_refl|].
      split; [reflexivity|]. cbn.
      split; [apply prefix_cons, prefix_nil|].
      split; [done|]. split; [by right|]. split; [reflexivity|]. split; [by rewrite Hq|].
      split; [reflexivity|].
      rewrite !not_elem_of_cons. repeat split; try done. apply not_elem_of_nil.
Qed.

End MonadFacts.

(** ** Removing duplicate statements *)

Lemma first_occurrences_filter (P : string -> Prop) `{!forall x, Decision (P x)}
    (xs : list string) :
  Cli.first_occurrences (filter P xs) = filter P (Cli.first_occurrences xs).
Proof.
  induction xs as [|x xs IH]; [reflexivity|].
  cbn [Cli.first_occurrences]. destruct (decide (P x)) as [HP|HP].
  - rewrite !filter_cons_True by done. cbn [Cli.first_occurrences].
    rewrite IH, !list_filter_filter. f_equal. apply list_filter_iff. intros z. tauto.
  - rewrite !filter_cons_False by done. rewrite IH.
    symmetry. apply list_filter_filter_l. intros y Hy ->. by apply HP.
Qed.

Lemma uniqueStatements_from (unique xs : list string) :
  fold_left (fun unique ss => if Js.includes unique ss then unique else unique ++ [ss])
            xs unique
  = unique ++ Cli.first_occurrences (filter (fun y => y ∉ unique) xs).
Proof.
  revert unique. induction xs as [|x xs IH]; intros unique.
  - cbn. by rewrite app_nil_r.
  - cbn [fold_left]. destruct (Js.includes unique x) eqn:Hin.
    + apply includes_elem_of in Hin. rewrite IH.
      rewrite filter_cons_False; [reflexivity|]. by intros Hx.
    + assert (Hx : x ∉ unique).
      { intros Hx%includes_elem_of. congruence. }
      rewrite IH, filter_cons_True by done. cbn [Cli.first_occurrences].
      rewrite <- app_assoc. cbn [app]. do 2 f_equal.
      rewrite <- first_occurrences_filter, list_filter_filter. f_equal.
      apply list_filter_iff. intros y. rewrite not_elem_of_app, not_elem_of_cons.
      split; [intros (? & ? & _); by split|intros (? & ?); repeat split; [done..|]].
      apply not_elem_of_nil.
Qed.

Lemma uniqueStatements_first_occurrences (xs : list string) :
  Cli.uniqueStatements xs = Cli.first_occurrences xs.
Proof.
  unfold Cli.uniqueStatements. rewrite uniqueStatements_from. cbn [app]. f_equal.
  induction xs as [|x xs IH]; [reflexivity|].
  rewrite filter_cons_True by apply not_elem_of_nil. by rewrite IH.
Qed.

Lemma first_occurrences_elem_of (x : string) (xs : list string) :
  x ∈ Cli.first_occurrences xs <-> x ∈ xs.
Proof.
  induction xs as [|a xs IH]; [reflexivity|].
  cbn [Cli.first_occurrences]. rewrite !elem_of_cons, list_elem_of_filter, IH.
  destruct (decide (x = a)); tauto.
Qed.

Lemma first_occurrences_NoDup (xs : list string) : NoDup (Cli.first_occurrences xs).
Proof.
  induction xs as [|a xs IH]; [constructor|].
  cbn [Cli.first_occurrences]. constructor; [|by apply NoDup_filter].
  rewrite list_elem_of_filter. by intros [? _].
Qed.

(** Whenever [x] comes before [y] in the result, [x] occurs in the original
    list before any occurrence of [y]. *)
Lemma first_occurrences_order (x y : string) (xs : list string) :
  [x; y] `sublist_of` Cli.first_occurrences xs ->
  exists m1 m2, xs = m1 ++ x :: m2 /\ y ∉ m1.
Proof.
  induction xs as [|a xs IH]; cbn [Cli.first_occurrences].
  { by intros ?%sublist_nil_r. }
  intros [Hsub|(l' & [= -> <-] & _)]%sublist_cons_r.
  - assert (Hy : y ∈ filter (fun z => z <> a) (Cli.first_occurrences xs)).
    { apply sublist_cons_l in Hsub as (k1 & k2 & -> & (k3 & k4 & -> & _)%sublist_cons_l).
      apply elem_of_app. right. right. apply elem_of_app. right. by left. }
    apply list_elem_of_filter in Hy as [Hya _].
    destruct IH as (m1 & m2 & -> & Hm1).
    { etrans; [exact Hsub|apply sublist_filter]. }
    exists (a :: m1), m2. split; [reflexivity|].
    rewrite not_elem_of_cons. by split.
  - exists [], xs. split; [reflexivity|apply not_elem_of_nil].
Qed.

(** ** The push commands *)

Section CliFacts.
Context {Conn : Type} `{DB Conn}.
Variable user : question -> option nat.
Variables JsonStatement SchemaPath : Type.
Variable fromJson : list JsonStatement -> string -> result (list string).

(** What the shared [try] block does once there are statements, the
    classifier has answered and the statements are rendered: the verbose
    log, the prompt the flags call for, and then either the abort or the two
    loops. *)
Lemma pushStatements_run (dialectName : string) (filteredStatements : list JsonStatement)
    (classify : Conn -> result Suggestions) (strict verbose force : bool)
    (c : Conn) (s : Suggestions) (sqls : list string) :
  filteredStatements <> [] ->
  classify c = Ok s ->
  fromJson filteredStatements dialectName = Ok sqls ->
  Cli.pushStatements user JsonStatement fromJson dialectName filteredStatements classify
    strict verbose force c
  = let u := Cli.uniqueStatements (statementsToExecute s) ++ Cli.uniqueStatements sqls in
    let q := ConfirmDataLoss (length (tablesToRemove s)) (length (columnsToRemove s))
               (length (tablesToTruncate s)) in
    let log := if verbose then [LoggedStatements u] else [] in
    let gate :=
      if negb force && shouldAskForApprove s
      then [LoggedWarnings (infoToPrint s); Asked q (user q)]
      else if negb force && strict then [Asked ConfirmAll (user ConfirmAll)] else [] in
    let abort :=
      negb force
      && (if shouldAskForApprove s then bool_decide (user q = Some 0%nat)
          else strict && bool_decide (user ConfirmAll = Some 0%nat)) in
    if abort then (Exit 0, c, log ++ gate ++ [Rendered Aborted])
    else match for_await u (fun sql => query sql) c with
         | (Ret _, c', ex) => (Ret tt, c', log ++ gate ++ ex ++ [Rendered Applied])
         | (Throw e, c', ex) => (Ret tt, c', log ++ gate ++ ex ++ [LoggedError e])
         | (Exit n, c', ex) => (Exit n, c', log ++ gate ++ ex)
         end.
Proof.
  intros Hne Hc Hj. destruct filteredStatements as [|st sts]; [done|].
  unfold Cli.pushStatements, try_catch. cbn [length Nat.eqb Nat.ltb Nat.leb].
  set (u1 := Cli.uniqueStatements (statementsToExecute s)).
  set (u2 := Cli.uniqueStatements sqls).
  rewrite (bind_reads_Ok _ _ _ _ Hc), Hj, bind_lift_Ok. fold u1 u2.
  destruct verbose, force, strict, (shouldAskForApprove s); cbn [negb andb];
    repeat case_bool_decide;
    repeat first
      [ rewrite bind_assoc | rewrite bind_emit | rewrite bind_ask
      | rewrite bind_ret_l | rewrite bind_exit
      | rewrite bool_decide_eq_true_2 by assumption
      | rewrite bool_decide_eq_false_2 by assumption ];
    try reflexivity.
  all: rewrite for_await_app; unfold bind at 1;
    destruct (for_await (u1 ++ u2) (fun sql => query sql) c) as [[[[]|e|n] c'] ex];
    cbn; rewrite ?app_nil_r; reflexivity.
Qed.

Lemma pushStatements_idle (dialectName : string) (filteredStatements : list JsonStatement)
    (classify : Conn -> result Suggestions) (strict verbose force : bool) (c : Conn) :
  filteredStatements = []
  \/ (exists e, classify c = Err e)
  \/ (exists e, fromJson filteredStatements dialectName = Err e) ->
  exists ev,
    Cli.pushStatements user JsonStatement fromJson dialectName filteredStatements classify
      strict verbose force c = (Ret tt, c, [ev])
    /\ (ev = Rendered NoChanges \/ exists e, ev = LoggedError e).
Proof.
  intros Hidle. unfold Cli.pushStatements, try_catch.
  destruct filteredStatements as [|st sts].
  { exists (Rendered NoChanges). split; [reflexivity|by left]. }
  cbn [length Nat.eqb].
  destruct (classify c) as [s|e] eqn:Hc.
  - destruct Hidle as [?|[[e ?]|[e Hj]]]; [done..|].
    rewrite (bind_reads_Ok _ _ _ _ Hc), Hj, bind_lift_Err.
    exists (LoggedError e). split; [reflexivity|right; by exists e].
  - rewrite (bind_reads_Err _ _ _ _ Hc).
    exists (LoggedError e). split; [reflexivity|right; by exists e].
Qed.

(** Every run of the shared block, read as a trace. *)
Lemma pushStatements_trace (dialectName : string) (filteredStatements : list JsonStatement)
    (classify : Conn -> result Suggestions) (strict verbose force : bool) (c : Conn) :
  exists o c' evs,
    Cli.pushStatements user JsonStatement fromJson dialectName filteredStatements classify
      strict verbose force c = (o, c', evs)
    /\ sequential evs = true
    /\ (force = true -> prompts evs = [])
    /\ (force = false ->
        (forall s, classify c = Ok s -> shouldAskForApprove s = true) ->
        approved_before_issue evs = true)
    /\ (forall s sqls,
        classify c = Ok s -> fromJson filteredStatements dialectName = Ok sqls ->
        issued evs `prefix_of`
          Cli.uniqueStatements (statementsToExecute s) ++ Cli.uniqueStatements sqls
        /\ (Rendered Applied ∈ evs ->
            issued evs
            = Cli.uniqueStatements (statementsToExecute s) ++ Cli.uniqueStatements sqls)
        /\ (force = true -> filteredStatements <> [] ->
            head (issued evs)
            = head (Cli.uniqueStatements (statementsToExecute s) ++ Cli.uniqueStatements sqls)))
    /\ c' = fold_left (fun c s => (run_query s c).1) (issued evs) c.
Proof.
  destruct (decide (filteredStatements = [])) as [Hfs|Hfs];
    [|destruct (classify c) as [s|e] eqn:Hc;
      [destruct (fromJson filteredStatements dialectName) as [sqls|e] eqn:Hj|]].
  2: {
    rewrite (pushStatements_run _ _ _ strict verbose force c s sqls Hfs Hc Hj). cbv zeta.
    set (u := Cli.uniqueStatements (statementsToExecute s) ++ Cli.uniqueStatements sqls).
    set (q := ConfirmDataLoss _ _ _).
    set (pre1 := if verbose then _ else _).
    set (pre2 := if negb force && shouldAskForApprove s then _ else _).
    set (abort := negb force && _).
    assert (Hpre_issued : forall rest, issued (pre1 ++ pre2 ++ rest) = issued rest).
    { intros rest. subst pre1 pre2.
      by destruct verbose, force, strict, (shouldAskForApprove s). }
    assert (Hpre_seq : forall rest, sequential (pre1 ++ pre2 ++ rest) = sequential rest).
    { intros rest. subst pre1 pre2.
      by destruct verbose, force, strict, (shouldAskForApprove s). }
    assert (Hpre_prompts : force = true ->
              forall rest, prompts (pre1 ++ pre2 ++ rest) = prompts rest).
    { intros -> rest. subst pre1 pre2. by destruct verbose. }
    assert (Hpre_gate : force = false -> shouldAskForApprove s = true ->
              forall rest, approved_before_issue (pre1 ++ pre2 ++ rest)
                           = if abort then bool_decide (issued rest = []) else true).
    { intros -> Hask rest. subst pre1 pre2 abort. rewrite Hask. by destruct verbose. }
    assert (Hpre_applied : forall rest,
              Rendered Applied ∈ pre1 ++ pre2 ++ rest -> Rendered Applied ∈ rest).
    { intros rest. subst pre1 pre2.
      destruct verbose, force, strict, (shouldAskForApprove s); cbn [negb andb app];
        rewrite ?elem_of_cons; intuition congruence. }
    assert (Habort : force = true -> abort = false) by (by intros ->).
    clearbody pre1 pre2 abort.
    destruct (for_await_query u c)
      as (o & c' & ex & -> & Hseq & Hpr & Hpre & Hall & Ho & Hhd & Hc' & Hap & Hnot).
    destruct abort.
    - eexists _, _, _. split; [reflexivity|].
      rewrite Hpre_seq, Hpre_issued.
      split; [reflexivity|]. split; [by intros ?%Habort|].
      split; [intros Hf Hask; by rewrite (Hpre_gate Hf (Hask s eq_refl))|].
      split; [|reflexivity].
      intros s1 sqls1 _ _. split; [apply prefix_nil|]. split; [|by intros ?%Habort].
      intros Hin%Hpre_applied. by apply list_elem_of_singleton in Hin.
    - assert (Hex : forall t, t <> Rendered Applied \/ o = Ret tt ->
                (sequential_from None [t] = true) -> issued [t] = [] -> prompts [t] = [] ->
                sequential (pre1 ++ pre2 ++ ex ++ [t]) = true
                /\ (force = true -> prompts (pre1 ++ pre2 ++ ex ++ [t]) = [])
                /\ (force = false ->
                    (forall s0, Ok s = Ok s0 -> shouldAskForApprove s0 = true) ->
                    approved_before_issue (pre1 ++ pre2 ++ ex ++ [t]) = true)
                /\ (forall s0 sqls0, Ok s = Ok s0 -> Ok sqls = Ok sqls0 ->
                    issued (pre1 ++ pre2 ++ ex ++ [t]) `prefix_of`
                      Cli.uniqueStatements (statementsToExecute s0)
                      ++ Cli.uniqueStatements sqls0
                    /\ (Rendered Applied ∈ pre1 ++ pre2 ++ ex ++ [t] ->
                        issued (pre1 ++ pre2 ++ ex ++ [t])
                        = Cli.uniqueStatements (statementsToExecute s0)
                          ++ Cli.uniqueStatements sqls0)
                    /\ (force = true -> filteredStatements <> [] ->
                        head (issued (pre1 ++ pre2 ++ ex ++ [t]))
                        = head (Cli.uniqueStatements (statementsToExecute s0)
                                ++ Cli.uniqueStatements sqls0)))
                /\ c' = fold_left (fun c s => (run_query s c).1)
                          (issued (pre1 ++ pre2 ++ ex ++ [t])) c).
      { intros t Ht Hts Hti Htp.
        rewrite Hpre_seq, Hpre_issued, issued_app, Hti, app_nil_r.
        split; [unfold sequential; by rewrite sequential_from_app|].
        split; [intros Hf; by rewrite (Hpre_prompts Hf), prompts_app, Hpr, Htp|].
        split; [intros Hf Hask; by rewrite (Hpre_gate Hf (Hask s eq_refl))|].
        split; [|exact Hc'].
        intros s1 sqls1 [= <-] [= <-]. fold u. repeat split; [exact Hpre| |done].
        intros Hin%Hpre_applied. apply elem_of_app in Hin as [Hin|Hin]; [done|].
        apply list_elem_of_singleton in Hin. destruct Ht as [Ht|Ht]; [done|by apply Hall]. }
      destruct Ho as [-> | ->]; eexists _, _, _; (split; [reflexivity|]).
      + apply Hex; [by right|done..].
      + apply Hex; [by left|done..]. }
  all: edestruct (pushStatements_idle dialectName filteredStatements classify
                    strict verbose force c) as (ev & -> & Hev);
    [eauto|];
    exists (Ret tt), c, [ev]; (split; [reflexivity|]);
    assert (Hq : sequential [ev] = true /\ prompts [ev] = [] /\ issued [ev] = []
                 /\ approved_before_issue [ev] = true /\ Rendered Applied ∉ [ev])
      by (destruct Hev as [->|[e' ->]]; repeat split; by rewrite list_elem_of_singleton);
    destruct Hq as (Hq1 & Hq2 & Hq3 & Hq4 & Hq5);
    rewrite Hq3; repeat split; try done; try apply prefix_nil.
  all: try congruence.
Qed.

Variables MysqlCredentials SingleStoreCredentials MySqlSchema SingleStoreSchemaT : Type.
Variable connectToMySQL : MysqlCredentials -> result string.
Variable mysqlPushIntrospect : Conn -> string -> list string -> result MySqlSchema.
Variable prepareMySQLPush :
  SchemaPath -> MySqlSchema -> result (Cli.PreparedPush JsonStatement MySqlSchema).
Variable mySqlFilterStatements :
  list JsonStatement -> MySqlSchema -> MySqlSchema -> list JsonStatement.
Variable mySqlLogSuggestionsAndReturn :
  Conn -> list JsonStatement -> MySqlSchema -> result Suggestions.
Variable connectToSingleStore : SingleStoreCredentials -> result string.
Variable singlestorePushIntrospect :
  Conn -> string -> list string -> result SingleStoreSchemaT.
Variable prepareSingleStorePush :
  SchemaPath -> SingleStoreSchemaT ->
  result (Cli.PreparedPush JsonStatement SingleStoreSchemaT).
Variable singleStoreFilterStatements :
  list JsonStatement -> SingleStoreSchemaT -> SingleStoreSchemaT -> list JsonStatement.
Variable singleStoreLogSuggestionsAndReturn :
  Conn -> list JsonStatement -> SingleStoreSchemaT -> result Suggestions.

Local Abbreviation singlestorePush :=
  (Cli.singlestorePush user JsonStatement SchemaPath fromJson SingleStoreCredentials
     SingleStoreSchemaT connectToSingleStore singlestorePushIntrospect
     prepareSingleStorePush singleStoreFilterStatements singleStoreLogSuggestionsAndReturn).
Local Abbreviation mysqlPush :=
  (Cli.mysqlPush user JsonStatement SchemaPath fromJson MysqlCredentials MySqlSchema
     connectToMySQL mysqlPushIntrospect prepareMySQLPush mySqlFilterStatements
     mySqlLogSuggestionsAndReturn).

(** A command either raises before its [try] block, with the connection
    as it was and no event of its own, or runs the shared block on its
    filtered statements. *)
Lemma singlestorePush_cases (schemaPath : SchemaPath) (credentials : SingleStoreCredentials)
    (tablesFilter : list string) (strict verbose force : bool) (c : Conn) :
  (exists e,
      singlestorePush schemaPath credentials tablesFilter strict verbose force c
      = (Throw e, c, [])
      /\ (connectToSingleStore credentials = Err e
          \/ (exists database,
                connectToSingleStore credentials = Ok database
                /\ (singlestorePushIntrospect c database tablesFilter = Err e
                    \/ exists schema,
                        singlestorePushIntrospect c database tablesFilter = Ok schema
                        /\ prepareSingleStorePush schemaPath schema = Err e))))
  \/ (exists database schema statements,
        connectToSingleStore credentials = Ok database
        /\ singlestorePushIntrospect c database tablesFilter = Ok schema
        /\ prepareSingleStorePush schemaPath schema = Ok statements
        /\ singlestorePush schemaPath credentials tablesFilter strict verbose force c
           = Cli.pushStatements user JsonStatement fromJson "singlestore"
               (singleStoreFilterStatements (default [] (Cli.pp_statements statements))
                  (Cli.validatedCur statements) (Cli.validatedPrev statements))
               (fun db =>
                  singleStoreLogSuggestionsAndReturn db
                    (singleStoreFilterStatements (default [] (Cli.pp_statements statements))
                       (Cli.validatedCur statements) (Cli.validatedPrev statements))
                    (Cli.validatedCur statements))
               strict verbose force c).
Proof.
  unfold Cli.singlestorePush.
  destruct (connectToSingleStore credentials) as [database|e] eqn:Hconn.
  2: { left. exists e. rewrite bind_lift_Err. split; [reflexivity|by left]. }
  rewrite bind_lift_Ok.
  destruct (singlestorePushIntrospect c database tablesFilter) as [schema|e] eqn:Hint.
  2: { left. exists e. rewrite (bind_reads_Err (fun db => singlestorePushIntrospect db database tablesFilter)
                  _ _ c Hint).
       split; [reflexivity|]. right. exists database. split; [reflexivity|by left]. }
  rewrite (bind_reads_Ok (fun db => singlestorePushIntrospect db database tablesFilter)
             _ _ c Hint).
  destruct (prepareSingleStorePush schemaPath schema) as [statements|e] eqn:Hprep.
  2: { left. exists e. rewrite bind_lift_Err. split; [reflexivity|]. right.
       exists database. split; [reflexivity|]. right. by exists schema. }
  rewrite bind_lift_Ok. right. by exists database, schema, statements.
Qed.

Lemma mysqlPush_cases (schemaPath : SchemaPath) (credentials : MysqlCredentials)
    (tablesFilter : list string) (strict verbose force : bool) (c : Conn) :
  (exists e,
      mysqlPush schemaPath credentials tablesFilter strict verbose force c
      = (Throw e, c, [])
      /\ (connectToMySQL credentials = Err e
          \/ (exists database,
                connectToMySQL credentials = Ok database
                /\ (mysqlPushIntrospect c database tablesFilter = Err e
                    \/ exists schema,
                        mysqlPushIntrospect c database tablesFilter = Ok schema
                        /\ prepareMySQLPush schemaPath schema = Err e))))
  \/ (exists database schema statements,
        connectToMySQL credentials = Ok database
        /\ mysqlPushIntrospect c database tablesFilter = Ok schema
        /\ prepareMySQLPush schemaPath schema = Ok statements
        /\ mysqlPush schemaPath credentials tablesFilter strict verbose force c
           = Cli.pushStatements user JsonStatement fromJson "mysql"
               (mySqlFilterStatements (default [] (Cli.pp_statements statements))
                  (Cli.validatedCur statements) (Cli.validatedPrev statements))
               (fun db =>
                  mySqlLogSuggestionsAndReturn db
                    (mySqlFilterStatements (default [] (Cli.pp_statements statements))
                       (Cli.validatedCur statements) (Cli.validatedPrev statements))
                    (Cli.validatedCur statements))
               strict verbose force c).
Proof.
  unfold Cli.mysqlPush.
  destruct (connectToMySQL credentials) as [database|e] eqn:Hconn.
  2: { left. exists e. rewrite bind_lift_Err. split; [reflexivity|by left]. }
  rewrite bind_lift_Ok.
  destruct (mysqlPushIntrospect c database tablesFilter) as [schema|e] eqn:Hint.
  2: { left. exists e. rewrite (bind_reads_Err (fun db => mysqlPushIntrospect db database tablesFilter)
                  _ _ c Hint).
       split; [reflexivity|]. right. exists database. split; [reflexivity|by left]. }
  rewrite (bind_reads_Ok (fun db => mysqlPushIntrospect db database tablesFilter)
             _ _ c Hint).
  destruct (prepareMySQLPush schemaPath schema) as [statements|e] eqn:Hprep.
  2: { left. exists e. rewrite bind_lift_Err. split; [reflexivity|]. right.
       exists database. split; [reflexivity|]. right. by exists schema. }
  rewrite bind_lift_Ok. right. by exists database, schema, statements.
Qed.

(** Every run of [singlestorePush], read as a trace. *)
Lemma singlestorePush_trace (schemaPath : SchemaPath) (credentials : SingleStoreCredentials)
    (tablesFilter : list string) (strict verbose force : bool) (c : Conn) :
  exists o c' evs,
    singlestorePush schemaPath credentials tablesFilter strict verbose force c = (o, c', evs)
    /\ sequential evs = true
    /\ (force = true -> prompts evs = [])
    /\ (force = false ->
        (forall db stmts cur s,
            singleStoreLogSuggestionsAndReturn db stmts cur = Ok s ->
            shouldAskForApprove s = true) ->
        approved_before_issue evs = true)
    /\ (forall database schema statements s sqls,
        connectToSingleStore credentials = Ok database ->
        singlestorePushIntrospect c database tablesFilter = Ok schema ->
        prepareSingleStorePush schemaPath schema = Ok statements ->
        singleStoreLogSuggestionsAndReturn c
          (singleStoreFilterStatements (default [] (Cli.pp_statements statements))
             (Cli.validatedCur statements) (Cli.validatedPrev statements))
          (Cli.validatedCur statements) = Ok s ->
        fromJson
          (singleStoreFilterStatements (default [] (Cli.pp_statements statements))
             (Cli.validatedCur statements) (Cli.validatedPrev statements))
          "singlestore" = Ok sqls ->
        issued evs `prefix_of`
          Cli.uniqueStatements (statementsToExecute s) ++ Cli.uniqueStatements sqls
        /\ (Rendered Applied ∈ evs ->
            issued evs
            = Cli.uniqueStatements (statementsToExecute s) ++ Cli.uniqueStatements sqls)
        /\ (force = true ->
            singleStoreFilterStatements (default [] (Cli.pp_statements statements))
              (Cli.validatedCur statements) (Cli.validatedPrev statements) <> [] ->
            head (issued evs)
            = head (Cli.uniqueStatements (statementsToExecute s) ++ Cli.uniqueStatements sqls)))
    /\ c' = fold_left (fun c s => (run_query s c).1) (issued evs) c.
Proof.
  destruct (singlestorePush_cases schemaPath credentials tablesFilter strict verbose force c)
    as [(e & -> & Hwhy)|(database & schema & statements & Hconn & Hint & Hprep & ->)].
  - exists (Throw e), c, []. do 4 (split; [done|]). split; [|reflexivity].
    intros database schema statements s sqls Hconn Hint Hprep. exfalso.
    destruct Hwhy as [?|(d & ? & [?|(sc & ? & ?)])]; congruence.
  - edestruct pushStatements_trace as (o & c' & evs & -> & Hseq & Hpr & Hgate & Hiss & Hc').
    exists o, c', evs. split; [reflexivity|]. split; [exact Hseq|]. split; [exact Hpr|].
    split; [intros Hf Hask; apply (Hgate Hf); eauto|]. split; [|exact Hc'].
    intros database' schema' statements' s sqls Hconn' Hint' Hprep'.
    assert (database' = database) as -> by congruence.
    assert (schema' = schema) as -> by congruence.
    assert (statements' = statements) as -> by congruence.
    apply Hiss.
Qed.

(** Every run of [mysqlPush], read as a trace. *)
Lemma mysqlPush_trace (schemaPath : SchemaPath) (credentials : MysqlCredentials)
    (tablesFilter : list string) (strict verbose force : bool) (c : Conn) :
  exists o c' evs,
    mysqlPush schemaPath credentials tablesFilter strict verbose force c = (o, c', evs)
    /\ sequential evs = true
    /\ (force = true -> prompts evs = [])
    /\ (force = false ->
        (forall db stmts cur s,
            mySqlLogSuggestionsAndReturn db stmts cur = Ok s ->
            shouldAskForApprove s = true) ->
        approved_before_issue evs = true)
    /\ (forall database schema statements s sqls,
        connectToMySQL credentials = Ok database ->
        mysqlPushIntrospect c database tablesFilter = Ok schema ->
        prepareMySQLPush schemaPath schema = Ok statements ->
        mySqlLogSuggestionsAndReturn c
          (mySqlFilterStatements (default [] (Cli.pp_statements statements))
             (Cli.validatedCur statements) (Cli.validatedPrev statements))
          (Cli.validatedCur statements) = Ok s ->
        fromJson
          (mySqlFilterStatements (default [] (Cli.pp_statements statements))
             (Cli.validatedCur statements) (Cli.validatedPrev statements))
          "mysql" = Ok sqls ->
        issued evs `prefix_of`
          Cli.uniqueStatements (statementsToExecute s) ++ Cli.uniqueStatements sqls
        /\ (Rendered Applied ∈ evs ->
            issued evs
            = Cli.uniqueStatements (statementsToExecute s) ++ Cli.uniqueStatements sqls)
        /\ (force = true ->
            mySqlFilterStatements (default [] (Cli.pp_statements statements))
              (Cli.validatedCur statements) (Cli.validatedPrev statements) <> [] ->
            head (issued evs)
            = head (Cli.uniqueStatements (statementsToExecute s) ++ Cli.uniqueStatements sqls)))
    /\ c' = fold_left (fun c s => (run_query s c).1) (issued evs) c.
Proof.
  destruct (mysqlPush_cases schemaPath credentials tablesFilter strict verbose force c)
    as [(e & -> & Hwhy)|(database & schema & statements & Hconn & Hint & Hprep & ->)].
  - exists (Throw e), c, []. do 4 (split; [done|]). split; [|reflexivity].
    intros database schema statements s sqls Hconn Hint Hprep. exfalso.
    destruct Hwhy as [?|(d & ? & [?|(sc & ? & ?)])]; congruence.
  - edestruct pushStatements_trace as (o & c' & evs & -> & Hseq & Hpr & Hgate & Hiss & Hc').
    exists o, c', evs. split; [reflexivity|]. split; [exact Hseq|]. split; [exact Hpr|].
    split; [intros Hf Hask; apply (Hgate Hf); eauto|]. split; [|exact Hc'].
    intros database' schema' statements' s sqls Hconn' Hint' Hprep'.
    assert (database' = database) as -> by congruence.
    assert (schema' = schema) as -> by congruence.
    assert (statements' = statements) as -> by congruence.
    apply Hiss.
Qed.

(** *** The programmatic push *)

Variable originUUID : string.
Variables Imports SingleStoreTables : Type.
Variable singlestore_prepareFromExports : Imports -> result (Prepared SingleStoreTables).
Variable generateSingleStoreSnapshot : SingleStoreTables -> result SingleStoreSchemaInternal.
Variable applySingleStoreSnapshotsDiff :
  SingleStoreSchemaSquashed -> SingleStoreSchemaSquashed ->
  SingleStoreSchema -> SingleStoreSchema -> option string ->
  result (DiffResult JsonStatement).
Variable apiPushIntrospect : Conn -> string -> list string -> result SingleStoreSchema.
Variable apiLogSuggestionsAndReturn :
  Conn -> list JsonStatement -> SingleStoreSchema -> result Suggestions.

Local Abbreviation pushSingleStoreSchema :=
  (Api.pushSingleStoreSchema originUUID Imports SingleStoreTables
     singlestore_prepareFromExports generateSingleStoreSnapshot JsonStatement
     applySingleStoreSnapshotsDiff apiPushIntrospect apiLogSuggestionsAndReturn).

(** [pushSingleStoreSchema] leaves the connection as it is and issues and
    asks nothing; what it resolves to is made of the classifier's answer,
    and its [apply] is the loop over the classifier's statements. *)
Lemma pushSingleStoreSchema_run (imports : Imports) (databaseName uuid : string) (c : Conn) :
  exists o,
    pushSingleStoreSchema imports databaseName uuid c = (o, c, [])
    /\ forall r, o = Ret r ->
         exists cur stmts s,
           singlestoreSchema_valid cur = true
           /\ apiLogSuggestionsAndReturn c stmts cur = Ok s
           /\ hasDataLoss r = shouldAskForApprove s
           /\ warnings r = infoToPrint s
           /\ res_statementsToExecute r = statementsToExecute s
           /\ apply r = for_await (statementsToExecute s) (fun dStmnt => query dStmnt).
Proof.
  unfold Api.pushSingleStoreSchema.
  repeat match goal with
         | |- context [bind (lift ?r) _ _] =>
             let Hr := fresh "Hr" in
             destruct r eqn:Hr;
             [rewrite bind_lift_Ok
             |rewrite bind_lift_Err; eexists; split; [reflexivity|by intros ? [=]]]
         | |- context [bind (reads ?f) _ ?c] =>
             let Hr := fresh "Hr" in
             let x := eval cbv beta in (f c) in
             destruct x eqn:Hr;
             [rewrite (bind_reads_Ok f _ _ c Hr)
             |rewrite (bind_reads_Err f _ _ c Hr); eexists; split;
              [reflexivity|by intros ? [=]]]
         end.
  eexists. split; [reflexivity|]. intros r [= <-]. cbn.
  match goal with
  | Hp : singlestoreSchema_parse ?a = Ok ?v,
    Hs : apiLogSuggestionsAndReturn c ?stmts ?v = Ok ?s |- _ =>
      exists v, stmts, s; apply singlestoreSchema_parse_Ok in Hp as [-> Hp]
  end.
  by repeat split.
Qed.

(** C10: the list each push command builds from a statement list holds
    every distinct statement exactly once, in the order of first occurrence;
    and in a run of [singlestorePush] or [mysqlPush] that ends with the
    changes applied, the statements issued are that list for the classifier's
    [statementsToExecute] followed by that list for the rendered filtered
    statements. *)
Theorem unique_statements_executed :
  (forall xs,
      NoDup (Cli.uniqueStatements xs)
      /\ (forall x, x ∈ Cli.uniqueStatements xs <-> x ∈ xs)
      /\ (forall x y, [x; y] `sublist_of` Cli.uniqueStatements xs ->
            exists m1 m2, xs = m1 ++ x :: m2 /\ y ∉ m1)
      /\ Cli.uniqueStatements xs = Cli.first_occurrences xs)
  /\ (forall schemaPath credentials tablesFilter strict verbose force c,
      exists o c' evs,
        singlestorePush schemaPath credentials tablesFilter strict verbose force c
        = (o, c', evs)
        /\ forall database schema statements s sqls,
            connectToSingleStore credentials = Ok database ->
            singlestorePushIntrospect c database tablesFilter = Ok schema ->
            prepareSingleStorePush schemaPath schema = Ok statements ->
            singleStoreLogSuggestionsAndReturn c
              (singleStoreFilterStatements (default [] (Cli.pp_statements statements))
                 (Cli.validatedCur statements) (Cli.validatedPrev statements))
              (Cli.validatedCur statements) = Ok s ->
            fromJson
              (singleStoreFilterStatements (default [] (Cli.pp_statements statements))
                 (Cli.validatedCur statements) (Cli.validatedPrev statements))
              "singlestore" = Ok sqls ->
            Rendered Applied ∈ evs ->
            issued evs
            = Cli.uniqueStatements (statementsToExecute s) ++ Cli.uniqueStatements sqls)
  /\ (forall schemaPath credentials tablesFilter strict verbose force c,
      exists o c' evs,
        mysqlPush schemaPath credentials tablesFilter strict verbose force c
        = (o, c', evs)
        /\ forall database schema statements s sqls,
            connectToMySQL credentials = Ok database ->
            mysqlPushIntrospect c database tablesFilter = Ok schema ->
            prepareMySQLPush schemaPath schema = Ok statements ->
            mySqlLogSuggestionsAndReturn c
              (mySqlFilterStatements (default [] (Cli.pp_statements statements))
                 (Cli.validatedCur statements) (Cli.validatedPrev statements))
              (Cli.validatedCur statements) = Ok s ->
            fromJson
              (mySqlFilterStatements (default [] (Cli.pp_statements statements))
                 (Cli.validatedCur statements) (Cli.validatedPrev statements))
              "mysql" = Ok sqls ->
            Rendered Applied ∈ evs ->
            issued evs
            = Cli.uniqueStatements (statementsToExecute s) ++ Cli.uniqueStatements sqls).
Proof.
  split; [|split].
  - intros xs. rewrite uniqueStatements_first_occurrences.
    split; [apply first_occurrences_NoDup|].
    split; [intros x; apply first_occurrences_elem_of|].
    split; [intros x y; apply first_occurrences_order|reflexivity].
  - intros schemaPath credentials tablesFilter strict verbose force c.
    destruct (singlestorePush_trace schemaPath credentials tablesFilter strict verbose force c)
      as (o & c' & evs & Hrun & _ & _ & _ & Hiss & _).
    exists o, c', evs. split; [exact Hrun|].
    intros database schema statements s sqls Hconn Hint Hprep Hcl Hj.
    by apply (Hiss database schema statements s sqls).
  - intros schemaPath credentials tablesFilter strict verbose force c.
    destruct (mysqlPush_trace schemaPath credentials tablesFilter strict verbose force c)
      as (o & c' & evs & Hrun & _ & _ & _ & Hiss & _).
    exists o, c', evs. split; [exact Hrun|].
    intros database schema statements s sqls Hconn Hint Hprep Hcl Hj.
    by apply (Hiss database schema statements s sqls).
Qed.

End CliFacts.

(** ** The properties on the concrete push *)

Lemma squashSingleStoreScheme_frame_witness :
  exists squashed,
    squashSingleStoreScheme Example.live = Ok squashed
    /\ sq_version squashed = "1"
    /\ sq_dialect squashed = "singlestore"
    /\ dom (sq_tables squashed) = dom (s_tables Example.live)
    /\ exists t',
        sq_tables squashed !! "users" = Some t'
        /\ ts_name t' = "users"
        /\ ts_columns t' = tbl_columns Example.users_table
        /\ ts_indexes t' !! "users_email_idx" = Some "users_email_idx;email;true;hash;;"
        /\ ts_compositePrimaryKeys t' !! "users_pk" = Some "users_pk;id"
        /\ ts_uniqueConstraints t' !! "users_email_unq" = Some "users_email_unq;email".
Proof.
  destruct (squashSingleStoreScheme_frame Example.live) as
    (squashed & Hrun & Hv & Hd & Hdom & Htables); [vm_compute; reflexivity|].
  exists squashed. split; [exact Hrun|]. split; [exact Hv|]. split; [exact Hd|].
  split; [exact Hdom|].
  destruct (Htables "users" Example.users_table) as
    (t' & Ht' & Hname & Hcols & _ & Hidx & Hpk & Hunq); [vm_compute; reflexivity|].
  exists t'. split; [exact Ht'|]. split; [exact Hname|]. split; [exact Hcols|].
  split; [|split].
  - destruct (Hidx "users_email_idx"
                (mkIndex "users_email_idx" ["email"] true (Some "hash") None None))
      as (s & Hs & Hlook); [vm_compute; reflexivity|].
    rewrite Hlook. f_equal. by injection Hs.
  - rewrite Hpk. vm_compute. reflexivity.
  - rewrite Hunq. vm_compute. reflexivity.
Defined.

Lemma migration_validates_first_witness :
  Api.generateSingleStoreMigration string Example.differ Example.live Example.malformed
  = Err ZodError
  /\ Api.generateMigration string string string Example.versionSchema_parse
       Example.versionSquash Example.versionDiffer "5" "7" = Err ZodError
  /\ Api.generateMySQLMigration string string string Example.versionSchema_parse
       (fun s => Example.versionSquash s None) Example.versionDiffer "7" "6" = Err ZodError
  /\ Api.generateSQLiteMigration string string string Example.versionSchema_parse
       Example.versionSquash Example.versionDiffer "7" "6" = Err ZodError.
Proof.
  destruct (migration_validates_first string string string string string string string
              Example.versionSchema_parse Example.versionSquash Example.versionDiffer
              Example.versionSchema_parse Example.versionSquash Example.versionDiffer
              Example.versionSchema_parse (fun s => Example.versionSquash s None)
              Example.versionDiffer Example.differ) as (HS & HP & HM & HL).
  split; [apply HS; vm_compute; reflexivity|].
  split; [apply HP; left; reflexivity|].
  split; [apply HM; right; split; reflexivity|].
  apply HL; right; split; reflexivity.
Defined.

Lemma upPgSnapshot_dispatch_witness :
  Api.upPgSnapshot Example.upV6 Example.upV7 Example.exported
  = Example.upV7 (Example.upV6 Example.exported)
  /\ Api.upPgSnapshot Example.upV6 Example.upV7 (Example.upV6 Example.exported)
     = Example.upV7 (Example.upV6 Example.exported)
  /\ Api.upPgSnapshot Example.upV6 Example.upV7 (Example.upV7 Example.exported)
     = Example.upV7 Example.exported.
Proof.
  split; [|split].
  - apply (proj1 (upPgSnapshot_dispatch Example.upV6 Example.upV7 Example.exported)).
    vm_compute. reflexivity.
  - apply (proj1 (proj2 (upPgSnapshot_dispatch Example.upV6 Example.upV7
                           (Example.upV6 Example.exported)))).
    vm_compute. reflexivity.
  - apply (proj2 (proj2 (upPgSnapshot_dispatch Example.upV6 Example.upV7
                           (Example.upV7 Example.exported))));
      vm_compute; discriminate.
Defined.

Lemma drizzleJson_prevId_witness :
  (exists r,
      Api.generateSingleStoreDrizzleJson Example.originUUID unit unit
        Example.prepareFromExports Example.generateSnapshot tt None "0d7a" = Ok r
      /\ s_prevId r = Example.originUUID
      /\ s_id r = "0d7a"
      /\ s_tables r = si_tables Example.declared)
  /\ (exists r,
      Api.generateMySQLDrizzleJson Example.originUUID unit unit
        Example.prepareFromExports Example.serialize tt (Some "41c2") "0d7a" = Ok r
      /\ r !! "prevId" = Some (JStr "41c2")
      /\ r !! "id" = Some (JStr "0d7a")
      /\ r !! "dialect" = Example.exported !! "dialect")
  /\ (exists r,
      Api.generateSQLiteDrizzleJson Example.originUUID unit unit
        Example.prepareFromExports Example.serialize tt (Some "41c2") "0d7a" = Ok r
      /\ r !! "prevId" = Some (JStr "41c2")
      /\ r !! "tables" = Example.exported !! "tables")
  /\ (exists r,
      Api.generateDrizzleJson Example.originUUID unit unit unit unit unit
        Example.pgPrepare Example.pgSerialize tt None (Some ["public"]) "0d7a" = Ok r
      /\ r !! "prevId" = Some (JStr Example.originUUID)
      /\ r !! "version" = Example.exported !! "version").
Proof.
  pose proof (drizzleJson_prevId Example.originUUID unit unit unit unit unit unit unit unit
                Example.pgPrepare Example.pgSerialize
                Example.prepareFromExports Example.serialize
                Example.prepareFromExports Example.serialize
                Example.prepareFromExports Example.generateSnapshot) as Hall.
  split; [|split; [|split]].
  - destruct (Hall tt None "0d7a") as (HS & _).
    destruct (HS (mkPrepared tt) Example.declared eq_refl eq_refl)
      as (r & Hr & _ & Hnone & Hid & _ & _ & Htab & _).
    exists r. split; [exact Hr|]. split; [by apply Hnone|]. by split.
  - destruct (Hall tt (Some "41c2") "0d7a") as (_ & HM & _).
    destruct (HM (mkPrepared tt) Example.exported eq_refl eq_refl)
      as (r & Hr & Hsome & _ & Hid & Hother).
    exists r. split; [exact Hr|]. split; [by apply Hsome|]. split; [exact Hid|].
    apply Hother; discriminate.
  - destruct (Hall tt (Some "41c2") "0d7a") as (_ & _ & HL & _).
    destruct (HL (mkPrepared tt) Example.exported eq_refl eq_refl)
      as (r & Hr & Hsome & _ & _ & Hother).
    exists r. split; [exact Hr|]. split; [by apply Hsome|].
    apply Hother; discriminate.
  - destruct (Hall tt None "0d7a") as (_ & _ & _ & HP).
    destruct (HP (Some ["public"]) (mkPgPrepared tt tt tt tt) Example.exported
                eq_refl eq_refl)
      as (r & Hr & _ & Hnone & _ & Hother).
    exists r. split; [exact Hr|]. split; [by apply Hnone|].
    apply Hother; discriminate.
Defined.

Lemma unique_statements_executed_witness :
  (exists m1 m2,
      [Example.create_index; Example.drop_users; Example.create_index]
      = m1 ++ Example.create_index :: m2
      /\ Example.drop_users ∉ m1)
  /\ (exists o c' evs,
      Example.singlestorePush Example.approves false false false [] = (o, c', evs)
      /\ issued evs = [Example.drop_users; Example.create_index; Example.drop_users])
  /\ (exists o c' evs,
      Example.mysqlPush Example.approves false true true [] = (o, c', evs)
      /\ issued evs = [Example.drop_users; Example.create_index; Example.drop_users]).
Proof.
  destruct (@unique_statements_executed (list string) Example.log_db Example.approves
              string unit Example.fromJson unit unit unit unit
              Example.connect Example.cliIntrospect Example.preparePush
              Example.filterStatements Example.classifier
              Example.connect Example.cliIntrospect Example.preparePush
              Example.filterStatements Example.classifier) as (HU & HS & HM).
  split; [|split].
  - destruct (HU [Example.create_index; Example.drop_users; Example.create_index])
      as (_ & _ & Horder & _).
    apply Horder. vm_compute. repeat constructor.
  - destruct (HS tt tt [] false false false []) as (o & c' & evs & Hrun & Hdone).
    exists o, c', evs. split; [exact Hrun|].
    apply (Hdone "drizzle" tt _ _ _ eq_refl eq_refl eq_refl eq_refl eq_refl).
    vm_compute in Hrun. injection Hrun as _ _ <-.
    apply list_elem_of_In. vm_compute. auto 20.
  - destruct (HM tt tt [] false true true []) as (o & c' & evs & Hrun & Hdone).
    exists o, c', evs. split; [exact Hrun|].
    apply (Hdone "drizzle" tt _ _ _ eq_refl eq_refl eq_refl eq_refl eq_refl).
    vm_compute in Hrun. injection Hrun as _ _ <-.
    apply list_elem_of_In. vm_compute. auto 20.
Defined.

(** * Further properties *)

(** ** More on [split] and [join] *)

Lemma split_fields_free (sep : ascii) (s : string) :
  Forall (fun f => Js.has_char sep f = false) (Js.split sep s).
Proof.
  induction s as [|c s IH]; [by repeat constructor|].
  rewrite split_cons. destruct (Ascii.eqb c sep) eqn:Hc.
  - constructor; [reflexivity|exact IH].
  - destruct (Js.split sep s) as [|h t]; [constructor|].
    apply Forall_cons in IH as [Hh Ht]. constructor; [|exact Ht].
    cbn. by rewrite Hc, Hh.
Qed.

Lemma split_pieces_free (c sep : ascii) (s : string) :
  Js.has_char c s = false ->
  Forall (fun f => Js.has_char c f = false) (Js.split sep s).
Proof.
  induction s as [|d s IH]; [by repeat constructor|].
  cbn [Js.has_char]. intros [Hd Hs]%orb_false_elim. specialize (IH Hs).
  rewrite split_cons. destruct (Ascii.eqb d sep).
  - constructor; [reflexivity|exact IH].
  - destruct (Js.split sep s) as [|h t]; [constructor|].
    apply Forall_cons in IH as [Hh Ht]. constructor; [|exact Ht].
    cbn. by rewrite Hd, Hh.
Qed.

(** Joining what was split gives the string back. *)
Lemma join_split (sep : ascii) (s : string) :
  Js.join (String sep EmptyString) (Js.split sep s) = s.
Proof.
  induction s as [|c s IH]; [reflexivity|].
  rewrite split_cons. destruct (Ascii.eqb_spec c sep) as [->|Hne].
  - pose proof (split_not_nil sep s) as Hnil.
    destruct (Js.split sep s) as [|h t] eqn:Hs; [done|].
    change (Js.join (String sep EmptyString) (EmptyString :: h :: t))
      with (String sep (Js.join (String sep EmptyString) (h :: t))).
    by rewrite IH.
  - pose proof (split_not_nil sep s) as Hnil.
    destruct (Js.split sep s) as [|h t] eqn:Hs; [done|].
    destruct t as [|h' t].
    + cbn in IH |- *. by rewrite IH.
    + change (Js.join (String sep EmptyString) (String c h :: h' :: t))
        with (String c (Js.join (String sep EmptyString) (h :: h' :: t))).
      by rewrite IH.
Qed.

(** ** The squasher, decoded values first *)

Lemma unsquashPK_squashPK (v : PrimaryKey) :
  Js.has_char semi (pk_name v) = false ->
  pk_columns v <> [] ->
  Forall (fun c => Js.has_char semi c = false /\ Js.has_char comma c = false)
         (pk_columns v) ->
  unsquashPK (squashPK v) = Ok v.
Proof.
  destruct v as [name columns]. cbn. intros Hn Hne Hc.
  erewrite unsquashPK_fields; [|by apply split_name_columns].
  cbn. by rewrite split_join_columns.
Qed.

Lemma unsquashUnique_squashUnique (v : UniqueConstraint) :
  Js.has_char semi (unq_name v) = false ->
  unq_columns v <> [] ->
  Forall (fun c => Js.has_char semi c = false /\ Js.has_char comma c = false)
         (unq_columns v) ->
  unsquashUnique (squashUnique v) = Ok v.
Proof.
  destruct v as [name columns]. cbn. intros Hn Hne Hc.
  erewrite unsquashUnique_fields; [|by apply split_name_columns].
  cbn. by rewrite split_join_columns.
Qed.

(** The columns read from a [;]-field hold no delimiter. *)
Lemma columns_of_field_plain (field : string) :
  Js.has_char semi field = false ->
  Js.split comma field <> []
  /\ Forall (fun c => Js.has_char semi c = false /\ Js.has_char comma c = false)
            (Js.split comma field).
Proof.
  intros Hf. split; [apply split_not_nil|].
  apply Forall_and. split; [by apply split_pieces_free|apply split_fields_free].
Qed.

Lemma index_parse_Ok (idx v : Index) :
  index_parse idx = Ok v -> v = idx /\ index_valid idx = true.
Proof. unfold index_parse. destruct (index_valid idx); [|done]. by intros [= <-]. Qed.

(** X1: whatever [unsquashIdx], [unsquashPK] or [unsquashUnique] returns is
    a value that the round trip preserves: it is accepted by the validator
    and squashing then unsquashing it returns it again. *)
Theorem unsquashed_values_round_trip (input : string) :
  (forall v, unsquashIdx input = Ok v ->
             index_valid v = true /\ (s <-- squashIdx v ;; unsquashIdx s) = Ok v)
  /\ (forall v, unsquashPK input = Ok v -> unsquashPK (squashPK v) = Ok v)
  /\ (forall v, unsquashUnique input = Ok v -> unsquashUnique (squashUnique v) = Ok v).
Proof.
  pose proof (split_fields_free semi input) as Hfree.
  destruct (Js.split semi input) as [|name rest] eqn:Hs;
    [by destruct (split_not_nil semi input)|].
  apply Forall_cons in Hfree as [Hname Hrest].
  rewrite (unsquashIdx_fields _ _ _ Hs), (unsquashPK_fields _ _ _ Hs),
    (unsquashUnique_fields _ _ _ Hs).
  destruct rest as [|cs rest]; [by repeat split|].
  apply Forall_cons in Hrest as [Hcs _].
  destruct (columns_of_field_plain cs Hcs) as [Hne Hcols].
  cbn [lookup list_lookup]. split; [|split].
  - intros v [-> Hv]%index_parse_Ok. split; [exact Hv|].
    by apply unsquashIdx_squashIdx.
  - intros v [= <-]. by apply unsquashPK_squashPK.
  - intros v [= <-]. by apply unsquashUnique_squashUnique.
Qed.

Lemma unsquashed_values_round_trip_witness :
  (s <-- squashIdx (mkIndex "i" ["a"] false None None None) ;; unsquashIdx s)
  = Ok (mkIndex "i" ["a"] false None None None)
  /\ unsquashPK (squashPK (mkPrimaryKey "pk" ["a"; ""])) = Ok (mkPrimaryKey "pk" ["a"; ""]).
Proof.
  split.
  - apply (proj1 (unsquashed_values_round_trip "i;a;maybe") _ eq_refl).
  - apply (proj1 (proj2 (unsquashed_values_round_trip "pk;a,;x")) _ eq_refl).
Defined.

(** X2: a string with exactly six [;]-fields whose third field is [true]
    or [false] and whose last three fields are empty or in their
    enumerations is the encoding of the index it decodes to; a string with
    exactly two fields is the encoding of the primary key, and of the unique
    constraint, it decodes to. *)
Theorem squash_of_unsquashed (input : string) :
  (forall name cs isUnique u a l,
      Js.split semi input = [name; cs; isUnique; u; a; l] ->
      isUnique = "true" \/ isUnique = "false" ->
      enum_optional using_values (Js.truthy (Some u)) = true ->
      enum_optional algorithm_values (Js.truthy (Some a)) = true ->
      enum_optional lock_values (Js.truthy (Some l)) = true ->
      (v <-- unsquashIdx input ;; squashIdx v) = Ok input)
  /\ (forall name cs,
      Js.split semi input = [name; cs] ->
      (v <-- unsquashPK input ;; Ok (squashPK v)) = Ok input
      /\ (v <-- unsquashUnique input ;; Ok (squashUnique v)) = Ok input).
Proof.
  assert (Htruthy : forall x, Js.or_empty (Js.truthy (Some x)) = x).
  { intros x. cbn. by destruct (String.eqb_spec x "") as [->|_]. }
  split.
  - intros name cs isUnique u a l Hs Hb Hu Ha Hl.
    rewrite (unsquashIdx_fields _ _ _ Hs). cbn [lookup list_lookup].
    unfold index_parse at 1. unfold index_valid. cbn [idx_using idx_algorithm idx_lock].
    rewrite Hu, Ha, Hl. cbn [andb rbind].
    rewrite squashIdx_fields
      by (unfold index_valid; cbn [idx_using idx_algorithm idx_lock]; by rewrite Hu, Ha, Hl).
    cbn [idx_name idx_columns idx_isUnique idx_using idx_algorithm idx_lock].
    rewrite !Htruthy.
    replace (Js.join "," (Js.split comma cs)) with cs
      by (symmetry; apply (join_split comma)).
    assert (Js.of_bool (bool_decide (Some isUnique = Some "true")) = isUnique) as ->
      by (by destruct Hb as [-> | ->]).
    rewrite <- Hs. f_equal. apply (join_split semi).
  - intros name cs Hs.
    rewrite (unsquashPK_fields _ _ _ Hs), (unsquashUnique_fields _ _ _ Hs).
    cbn [lookup list_lookup rbind]. unfold squashPK, squashUnique.
    cbn [pk_name pk_columns unq_name unq_columns].
    replace (Js.join "," (Js.split comma cs)) with cs
      by (symmetry; apply (join_split comma)).
    assert (Hin : name +:+ ";" +:+ cs = input)
      by (rewrite <- (join_split semi input), Hs; reflexivity).
    split; f_equal; exact Hin.
Qed.

Lemma squash_of_unsquashed_witness :
  (v <-- unsquashIdx "i;a,b;true;hash;;none" ;; squashIdx v) = Ok "i;a,b;true;hash;;none"
  /\ (v <-- unsquashPK ";" ;; Ok (squashPK v)) = Ok ";".
Proof.
  split.
  - apply (proj1 (squash_of_unsquashed "i;a,b;true;hash;;none")
             "i" "a,b" "true" "hash" "" "none" eq_refl); by (left + reflexivity).
  - apply (proj2 (squash_of_unsquashed ";") "" "" eq_refl).
Defined.

(** X3: on values whose names and columns hold no delimiter and whose
    column lists are not empty, the three encodings are injective: equal
    squashed strings come from equal values. *)
Theorem squash_injective :
  (forall a b : Index,
      index_valid a = true -> index_valid b = true ->
      Js.has_char semi (idx_name a) = false -> Js.has_char semi (idx_name b) = false ->
      idx_columns a <> [] -> idx_columns b <> [] ->
      Forall (fun c => Js.has_char semi c = false /\ Js.has_char comma c = false)
             (idx_columns a) ->
      Forall (fun c => Js.has_char semi c = false /\ Js.has_char comma c = false)
             (idx_columns b) ->
      squashIdx a = squashIdx b -> a = b)
  /\ (forall a b : PrimaryKey,
      Js.has_char semi (pk_name a) = false -> Js.has_char semi (pk_name b) = false ->
      pk_columns a <> [] -> pk_columns b <> [] ->
      Forall (fun c => Js.has_char semi c = false /\ Js.has_char comma c = false)
             (pk_columns a) ->
      Forall (fun c => Js.has_char semi c = false /\ Js.has_char comma c = false)
             (pk_columns b) ->
      squashPK a = squashPK b -> a = b)
  /\ (forall a b : UniqueConstraint,
      Js.has_char semi (unq_name a) = false -> Js.has_char semi (unq_name b) = false ->
      unq_columns a <> [] -> unq_columns b <> [] ->
      Forall (fun c => Js.has_char semi c = false /\ Js.has_char comma c = false)
             (unq_columns a) ->
      Forall (fun c => Js.has_char semi c = false /\ Js.has_char comma c = false)
             (unq_columns b) ->
      squashUnique a = squashUnique b -> a = b).
Proof.
  split; [|split].
  - intros a b Hva Hvb Hna Hnb Hea Heb Hca Hcb Heq.
    pose proof (unsquashIdx_squashIdx a Hva Hna Hea Hca) as Ha.
    pose proof (unsquashIdx_squashIdx b Hvb Hnb Heb Hcb) as Hb.
    rewrite Heq in Ha. congruence.
  - intros a b Hna Hnb Hea Heb Hca Hcb Heq.
    pose proof (unsquashPK_squashPK a Hna Hea Hca) as Ha.
    pose proof (unsquashPK_squashPK b Hnb Heb Hcb) as Hb.
    rewrite Heq in Ha. congruence.
  - intros a b Hna Hnb Hea Heb Hca Hcb Heq.
    pose proof (unsquashUnique_squashUnique a Hna Hea Hca) as Ha.
    pose proof (unsquashUnique_squashUnique b Hnb Heb Hcb) as Hb.
    rewrite Heq in Ha. congruence.
Qed.

Lemma squash_injective_witness :
  mkPrimaryKey "pk" ["a"; "b"] = mkPrimaryKey "pk" ["a"; "b"]
  /\ mkIndex "i" ["a"] true None None None = mkIndex "i" ["a"] true None None None.
Proof.
  split.
  - apply (proj1 (proj2 squash_injective)); try reflexivity; try discriminate;
      repeat constructor.
  - apply (proj1 squash_injective); try reflexivity; try discriminate;
      repeat constructor.
Defined.

(** ** Squashing a snapshot: when it raises *)

Lemma rmapM_Err {A B} (f : A -> result B) (l : list A) (e : error) :
  rmapM f l = Err e -> exists x, x ∈ l /\ f x = Err e.
Proof.
  induction l as [|x l IH]; [done|]. cbn.
  destruct (f x) as [y|e'] eqn:Hx; cbn.
  - destruct (rmapM f l) as [ys|e'] eqn:Hl; cbn; [done|].
    intros [= ->]. destruct (IH eq_refl) as (z & Hz & Hfz).
    exists z. split; [by right|exact Hfz].
  - intros [= ->]. exists x. split; [by left|exact Hx].
Qed.

Lemma rmapM_Ok_inv {A B} (f : A -> result B) (l : list A) (ys : list B) :
  rmapM f l = Ok ys -> forall x, x ∈ l -> exists y, f x = Ok y.
Proof.
  revert ys. induction l as [|x l IH]; intros ys; [by intros _ z ?%elem_of_nil|].
  cbn. destruct (f x) as [y|e] eqn:Hx; cbn; [|done].
  destruct (rmapM f l) as [ys'|e] eqn:Hl; cbn; [|done].
  intros _ z [->|Hz]%elem_of_cons; [by exists y|by eapply IH].
Qed.

Lemma mapValues_Err {A B} (obj : gmap string A) (f : A -> result B) (e : error) :
  mapValues obj f = Err e -> exists k v, obj !! k = Some v /\ f v = Err e.
Proof.
  unfold mapValues.
  destruct (rmapM _ (map_to_list obj)) as [kvs|e'] eqn:Hm; cbn; [done|].
  intros [= ->]. apply rmapM_Err in Hm as ([k v] & Hkv & Hf).
  apply elem_of_map_to_list in Hkv.
  exists k, v. split; [exact Hkv|]. cbn in Hf. destruct (f v); cbn in Hf; congruence.
Qed.

Lemma mapValues_Ok_inv {A B} (obj : gmap string A) (f : A -> result B) (m : gmap string B) :
  mapValues obj f = Ok m -> forall k v, obj !! k = Some v -> exists y, f v = Ok y.
Proof.
  unfold mapValues.
  destruct (rmapM _ (map_to_list obj)) as [kvs|e'] eqn:Hm; cbn; [|done].
  intros _ k v Hkv%elem_of_map_to_list.
  destruct (rmapM_Ok_inv _ _ _ Hm (k, v) Hkv) as (y & Hy). cbn in Hy.
  destruct (f v) as [b|]; [by exists b|cbn in Hy; congruence].
Qed.

Lemma squashIdx_Ok_valid (i : Index) (s : string) : squashIdx i = Ok s -> index_valid i = true.
Proof. unfold squashIdx, index_parse. by destruct (index_valid i). Qed.

Lemma squashIdx_Err (i : Index) (e : error) : squashIdx i = Err e -> e = ZodError.
Proof. unfold squashIdx, index_parse. destruct (index_valid i); [done|]. by intros [= <-]. Qed.

(** The squashed snapshot, when every index is valid. *)
Lemma squashSingleStoreScheme_Ok (json : SingleStoreSchema) :
  (forall key t name i,
      s_tables json !! key = Some t -> tbl_indexes t !! name = Some i ->
      index_valid i = true) ->
  is_Ok (squashSingleStoreScheme json) = true.
Proof.
  intros Hv.
  set (idxText := fun i => match squashIdx i with Ok s => s | Err _ => "" end).
  set (squashTable := fun t : Table =>
         {| ts_name := tbl_name t;
            ts_columns := tbl_columns t;
            ts_indexes := idxText <$> tbl_indexes t;
            ts_compositePrimaryKeys := squashPK <$> tbl_compositePrimaryKeys t;
            ts_uniqueConstraints := squashUnique <$> tbl_uniqueConstraints t |}).
  unfold squashSingleStoreScheme.
  rewrite (rmapM_ok _ (prod_map id squashTable)); [reflexivity|].
  intros [key t] Hkt%elem_of_map_to_list. cbn [snd fst].
  rewrite (mapValues_ok _ _ idxText).
  - rewrite (mapValues_ok _ _ squashPK) by done.
    by rewrite (mapValues_ok _ _ squashUnique).
  - intros k i Hki. unfold idxText.
    by rewrite (squashIdx_fields i (Hv key t k i Hkt Hki)).
Qed.

(** X4: [squashSingleStoreScheme] returns exactly when every index of every
    table passes the [index] validator, whatever the snapshot's version,
    dialect and columns are; when it raises, the exception is zod's; and
    what it returns has version ['1'] even if the input has another. *)
Theorem squashSingleStoreScheme_raises (json : SingleStoreSchema) :
  (is_Ok (squashSingleStoreScheme json) = true <->
   forall key t name i,
     s_tables json !! key = Some t -> tbl_indexes t !! name = Some i ->
     index_valid i = true)
  /\ (forall e, squashSingleStoreScheme json = Err e -> e = ZodError)
  /\ (forall squashed, squashSingleStoreScheme json = Ok squashed ->
        sq_version squashed = "1" /\ sq_dialect squashed = s_dialect json).
Proof.
  split; [split|split].
  - intros Hok key t name i Hkt Hki. unfold squashSingleStoreScheme in Hok.
    destruct (rmapM _ (map_to_list (s_tables json))) as [entries|e] eqn:Hm; [|done].
    destruct (rmapM_Ok_inv _ _ _ Hm (key, t)) as (y & Hy);
      [by apply elem_of_map_to_list|].
    cbn [snd fst] in Hy.
    destruct (mapValues (tbl_indexes t) _) as [sq|e] eqn:Hidx; [|done].
    destruct (mapValues_Ok_inv _ _ _ Hidx name i Hki) as (s & Hs).
    by eapply squashIdx_Ok_valid.
  - apply squashSingleStoreScheme_Ok.
  - intros e. unfold squashSingleStoreScheme.
    destruct (rmapM _ (map_to_list (s_tables json))) as [entries|e'] eqn:Hm; [done|].
    cbn. intros [= ->]. apply rmapM_Err in Hm as ([key t] & _ & Hf). cbn [snd fst] in Hf.
    destruct (mapValues (tbl_indexes t) _) as [sq|e'] eqn:Hidx.
    + cbn in Hf. unfold mapValues in Hf.
      rewrite (rmapM_ok _ (prod_map id squashPK)) in Hf by (by intros [??] _).
      cbn in Hf.
      by rewrite (rmapM_ok _ (prod_map id squashUnique)) in Hf by (by intros [??] _).
    + cbn in Hf. injection Hf as ->.
      apply mapValues_Err in Hidx as (k & i & _ & Hi). by eapply squashIdx_Err.
  - intros squashed. unfold squashSingleStoreScheme.
    destruct (rmapM _ (map_to_list (s_tables json))) as [entries|e'] eqn:Hm; [|done].
    by intros [= <-].
Qed.

Lemma squashSingleStoreScheme_raises_witness :
  is_Ok (squashSingleStoreScheme Example.malformed) = true
  /\ exists squashed,
       squashSingleStoreScheme Example.malformed = Ok squashed
       /\ sq_version squashed = "1".
Proof.
  assert (Hok : is_Ok (squashSingleStoreScheme Example.malformed) = true).
  { apply (proj1 (squashSingleStoreScheme_raises Example.malformed)).
    intros key t name i Hkt. vm_compute in Hkt. discriminate. }
  split; [exact Hok|].
  destruct (squashSingleStoreScheme Example.malformed) as [squashed|e] eqn:Hs; [|done].
  exists squashed. split; [reflexivity|].
  exact (proj1 (proj2 (proj2 (squashSingleStoreScheme_raises Example.malformed))
                  squashed Hs)).
Defined.

Section MigrationFacts.
Variable JsonStatement : Type.
Variable applySingleStoreSnapshotsDiff :
  SingleStoreSchemaSquashed -> SingleStoreSchemaSquashed ->
  SingleStoreSchema -> SingleStoreSchema -> option string ->
  result (DiffResult JsonStatement).

Lemma valid_snapshot_squashes (s : SingleStoreSchema) :
  singlestoreSchema_valid s = true -> exists sq, squashSingleStoreScheme s = Ok sq.
Proof.
  intros Hv. unfold singlestoreSchema_valid in Hv.
  apply andb_prop in Hv as [_ Ht]. rewrite record_valid_lookup in Ht.
  assert (Hok : is_Ok (squashSingleStoreScheme s) = true).
  { apply squashSingleStoreScheme_Ok. intros key t name i Hkt Hki.
    specialize (Ht key t Hkt). apply andb_prop in Ht as [_ Hi].
    rewrite record_valid_lookup in Hi. by apply (Hi name). }
  destruct (squashSingleStoreScheme s) as [sq|]; [by exists sq|done].
Qed.

(** X5: in [generateSingleStoreMigration] the squasher cannot raise once
    both snapshots are validated: the call returns the differ's SQL
    statements for the two squashed snapshots, and it raises only for a
    snapshot the validator rejects (zod's error) or with the differ's own
    error. *)
Theorem generateSingleStoreMigration_outcomes (prev cur : SingleStoreSchema) :
  (singlestoreSchema_valid prev = true -> singlestoreSchema_valid cur = true ->
   exists squashedPrev squashedCur,
     squashSingleStoreScheme prev = Ok squashedPrev
     /\ squashSingleStoreScheme cur = Ok squashedCur
     /\ Api.generateSingleStoreMigration JsonStatement applySingleStoreSnapshotsDiff prev cur
        = (r <-- applySingleStoreSnapshotsDiff squashedPrev squashedCur prev cur None ;;
           Ok (sqlStatements r)))
  /\ (forall e,
      Api.generateSingleStoreMigration JsonStatement applySingleStoreSnapshotsDiff prev cur
      = Err e ->
      (e = ZodError /\ singlestoreSchema_valid prev && singlestoreSchema_valid cur = false)
      \/ exists squashedPrev squashedCur,
           squashSingleStoreScheme prev = Ok squashedPrev
           /\ squashSingleStoreScheme cur = Ok squashedCur
           /\ applySingleStoreSnapshotsDiff squashedPrev squashedCur prev cur None = Err e).
Proof.
  assert (Hvalid : singlestoreSchema_valid prev = true -> singlestoreSchema_valid cur = true ->
            exists squashedPrev squashedCur,
              squashSingleStoreScheme prev = Ok squashedPrev
              /\ squashSingleStoreScheme cur = Ok squashedCur
              /\ Api.generateSingleStoreMigration JsonStatement
                   applySingleStoreSnapshotsDiff prev cur
                 = (r <-- applySingleStoreSnapshotsDiff squashedPrev squashedCur prev cur None ;;
                    Ok (sqlStatements r))).
  { intros Hp Hc.
    destruct (valid_snapshot_squashes prev Hp) as (sp & Hsp).
    destruct (valid_snapshot_squashes cur Hc) as (sc & Hsc).
    exists sp, sc. split; [exact Hsp|]. split; [exact Hsc|].
    unfold Api.generateSingleStoreMigration, singlestoreSchema_parse.
    rewrite Hp, Hc. cbn [rbind]. by rewrite Hsp, Hsc. }
  split; [exact Hvalid|].
  intros e He.
  destruct (singlestoreSchema_valid prev) eqn:Hp; [destruct (singlestoreSchema_valid cur) eqn:Hc|].
  - right. destruct (Hvalid eq_refl eq_refl) as (sp & sc & Hsp & Hsc & Hrun).
    exists sp, sc. split; [exact Hsp|]. split; [exact Hsc|].
    rewrite Hrun in He.
    destruct (applySingleStoreSnapshotsDiff sp sc prev cur None); cbn in He; congruence.
  - left. split; [|reflexivity].
    unfold Api.generateSingleStoreMigration, singlestoreSchema_parse in He.
    rewrite Hp, Hc in He. cbn in He. congruence.
  - left. split; [|reflexivity].
    unfold Api.generateSingleStoreMigration, singlestoreSchema_parse in He.
    rewrite Hp in He. cbn in He. congruence.
Qed.

End MigrationFacts.

Lemma generateSingleStoreMigration_outcomes_witness :
  Api.generateSingleStoreMigration string Example.differ Example.live Example.live
  = Ok [Example.drop_users].
Proof.
  destruct (proj1 (generateSingleStoreMigration_outcomes string Example.differ
                     Example.live Example.live))
    as (sp & sc & _ & _ & ->); [vm_compute; reflexivity..|].
  reflexivity.
Defined.

(** ** The loop over the statements *)

Lemma accepted_app (l1 l2 : list string) : accepted (l1 ++ l2) = accepted l1 ++ accepted l2.
Proof. apply flat_map_app. Qed.

Lemma issued_accepted (l : list string) : issued (accepted l) = l.
Proof. induction l as [|s l IH]; [reflexivity|]. cbn. f_equal. exact IH. Qed.

Lemma prompts_accepted (l : list string) : prompts (accepted l) = [].
Proof. induction l as [|s l IH]; [reflexivity|]. cbn. exact IH. Qed.

Lemma elem_of_accepted (ev : event) (l : list string) :
  ev ∈ accepted l -> exists s, s ∈ l /\ (ev = Issued s \/ ev = Settled s true).
Proof.
  induction l as [|s l IH]; cbn; [by intros ?%elem_of_nil|].
  rewrite !elem_of_cons. intros [->|[->|Hin]].
  - exists s. split; [by left|by left].
  - exists s. split; [by left|by right].
  - destruct (IH Hin) as (s' & Hs' & Hev). exists s'. split; [by right|exact Hev].
Qed.

Section LoopFacts.
Context {Conn : Type} `{DB Conn}.

(** The loop either acknowledges every statement, or stops at the first
    one that is rejected and raises. *)
Lemma for_await_query_cases (l : list string) (c : Conn) :
  (exists c', for_await l (fun s => query s) c = (Ret tt, c', accepted l))
  \/ (exists c' l1 s l2,
        l = l1 ++ s :: l2
        /\ for_await l (fun s => query s) c
           = (Throw DriverError, c', accepted l1 ++ [Issued s; Settled s false])).
Proof.
  revert c. induction l as [|s l IH]; intros c.
  - left. by exists c.
  - assert (Hstep :
      for_await (s :: l) (fun s => query s) c
      = let '(c1, ok) := run_query s c in
        if ok
        then let '(o, c2, evs) := for_await l (fun s => query s) c1 in
             (o, c2, [Issued s; Settled s true] ++ evs)
        else (Throw DriverError, c1, [Issued s; Settled s false])).
    { cbn [for_await]. unfold bind, query at 1.
      by destruct (run_query s c) as [c1 [|]]. }
    rewrite Hstep. destruct (run_query s c) as [c1 [|]] eqn:Hq.
    + destruct (IH c1) as [(c' & ->)|(c' & l1 & s' & l2 & -> & ->)].
      * left. by exists c'.
      * right. exists c', (s :: l1), s', l2. split; reflexivity.
    + right. exists c1, [], s, l. split; reflexivity.
Qed.

End LoopFacts.

(** ** More on the push commands *)

Section PushFacts.
Context {Conn : Type} `{DB Conn}.
Variable user : question -> option nat.
Variables JsonStatement SchemaPath : Type.
Variable fromJson : list JsonStatement -> string -> result (list string).

Local Abbreviation pushStatements := (Cli.pushStatements user JsonStatement fromJson).

Local Abbreviation dataLoss s :=
  (ConfirmDataLoss (length (tablesToRemove s)) (length (columnsToRemove s))
     (length (tablesToTruncate s))).

(** What is shown before the first statement is issued. *)
Local Abbreviation shown s u strict verbose force :=
  ((if verbose then [LoggedStatements u] else [])
   ++ (if negb force && shouldAskForApprove s
       then [LoggedWarnings (infoToPrint s); Asked (dataLoss s) (user (dataLoss s))]
       else if negb force && strict then [Asked ConfirmAll (user ConfirmAll)] else [])).

Local Abbreviation aborts s strict force :=
  (negb force
   && (if shouldAskForApprove s then bool_decide (user (dataLoss s) = Some 0%nat)
       else strict && bool_decide (user ConfirmAll = Some 0%nat))).

(** The five shapes of a run of the shared block. *)
Lemma pushStatements_forms (dialectName : string) (filteredStatements : list JsonStatement)
    (classify : Conn -> result Suggestions) (strict verbose force : bool) (c : Conn) :
  (filteredStatements = []
   /\ pushStatements dialectName filteredStatements classify strict verbose force c
      = (Ret tt, c, [Rendered NoChanges]))
  \/ (filteredStatements <> []
      /\ exists e,
          pushStatements dialectName filteredStatements classify strict verbose force c
          = (Ret tt, c, [LoggedError e])
          /\ (classify c = Err e
              \/ (exists s, classify c = Ok s)
                 /\ fromJson filteredStatements dialectName = Err e))
  \/ (exists s sqls,
        filteredStatements <> []
        /\ classify c = Ok s
        /\ fromJson filteredStatements dialectName = Ok sqls
        /\ let u := Cli.uniqueStatements (statementsToExecute s)
                    ++ Cli.uniqueStatements sqls in
           (aborts s strict force = true
            /\ pushStatements dialectName filteredStatements classify strict verbose force c
               = (Exit 0, c, shown s u strict verbose force ++ [Rendered Aborted]))
           \/ (aborts s strict force = false
               /\ exists c',
                   pushStatements dialectName filteredStatements classify
                     strict verbose force c
                   = (Ret tt, c',
                      shown s u strict verbose force ++ accepted u ++ [Rendered Applied]))
           \/ (aborts s strict force = false
               /\ exists c' l1 x l2,
                   u = l1 ++ x :: l2
                   /\ pushStatements dialectName filteredStatements classify
                        strict verbose force c
                      = (Ret tt, c',
                         shown s u strict verbose force ++ accepted l1
                         ++ [Issued x; Settled x false; LoggedError DriverError]))).
Proof.
  destruct (decide (filteredStatements = [])) as [->|Hfs]; [by left|]. right.
  destruct (classify c) as [s|e] eqn:Hc.
  2: { left. split; [exact Hfs|]. exists e. split; [|by left].
       unfold Cli.pushStatements, try_catch.
       destruct filteredStatements as [|st sts]; [done|]. cbn [length Nat.eqb].
       by rewrite (bind_reads_Err _ _ _ _ Hc). }
  destruct (fromJson filteredStatements dialectName) as [sqls|e] eqn:Hj.
  2: { left. split; [exact Hfs|]. exists e. split; [|right; split; [by exists s|reflexivity]].
       unfold Cli.pushStatements, try_catch.
       destruct filteredStatements as [|st sts]; [done|]. cbn [length Nat.eqb].
       by rewrite (bind_reads_Ok _ _ _ _ Hc), Hj, bind_lift_Err. }
  right. exists s, sqls. split; [exact Hfs|]. split; [reflexivity|]. split; [reflexivity|].
  cbv zeta.
  rewrite (pushStatements_run user JsonStatement fromJson _ _ _ strict verbose force c s sqls
             Hfs Hc Hj). cbv zeta.
  set (u := Cli.uniqueStatements (statementsToExecute s) ++ Cli.uniqueStatements sqls).
  destruct (aborts s strict force) eqn:Hab.
  - left. split; [reflexivity|]. by rewrite <- app_assoc.
  - right.
    destruct (for_await_query_cases u c) as [(c' & ->)|(c' & l1 & x & l2 & Hu & ->)].
    + left. split; [reflexivity|]. exists c'. by rewrite <- !app_assoc.
    + right. split; [reflexivity|]. exists c', l1, x, l2. split; [exact Hu|].
      by rewrite <- !app_assoc.
Qed.

(** What is shown before the first statement holds no query and no
    message. *)
Lemma shown_events (s : Suggestions) (u : list string) (strict verbose force : bool)
    (ev : event) :
  ev ∈ shown s u strict verbose force ->
  (exists l, ev = LoggedStatements l) \/ (exists w, ev = LoggedWarnings w)
  \/ (exists q a, ev = Asked q a).
Proof.
  destruct verbose, (negb force && shouldAskForApprove s), (negb force && strict);
    cbn [app]; rewrite ?elem_of_cons, ?elem_of_nil; intros Hin;
    repeat match goal with
           | Hor : _ \/ _ |- _ => destruct Hor as [Hor|Hor]
           | Heq : ev = _ |- _ => rewrite Heq
           end;
    try done; eauto.
Qed.

Lemma issued_shown (s : Suggestions) (u : list string) (strict verbose force : bool) :
  issued (shown s u strict verbose force) = [].
Proof.
  by destruct verbose, (negb force && shouldAskForApprove s), (negb force && strict).
Qed.

(** The shared block as one equation. *)
Lemma pushStatements_eq (dialectName : string) (filteredStatements : list JsonStatement)
    (classify : Conn -> result Suggestions) (strict verbose force : bool) (c : Conn) :
  pushStatements dialectName filteredStatements classify strict verbose force c
  = match filteredStatements with
    | [] => (Ret tt, c, [Rendered NoChanges])
    | _ :: _ =>
        match classify c with
        | Err e => (Ret tt, c, [LoggedError e])
        | Ok s =>
            match fromJson filteredStatements dialectName with
            | Err e => (Ret tt, c, [LoggedError e])
            | Ok sqls =>
                let u := Cli.uniqueStatements (statementsToExecute s)
                         ++ Cli.uniqueStatements sqls in
                if aborts s strict force
                then (Exit 0, c, shown s u strict verbose force ++ [Rendered Aborted])
                else match for_await u (fun sql => query sql) c with
                     | (Ret _, c', ex) =>
                         (Ret tt, c', shown s u strict verbose force ++ ex ++ [Rendered Applied])
                     | (Throw e, c', ex) =>
                         (Ret tt, c', shown s u strict verbose force ++ ex ++ [LoggedError e])
                     | (Exit n, c', ex) =>
                         (Exit n, c', shown s u strict verbose force ++ ex)
                     end
            end
        end
    end.
Proof.
  destruct filteredStatements as [|st sts] eqn:Hfs; [reflexivity|]. rewrite <- Hfs.
  assert (Hne : filteredStatements <> []) by (by rewrite Hfs).
  clear Hfs.
  destruct (classify c) as [s|e] eqn:Hc.
  2: { unfold Cli.pushStatements, try_catch.
       destruct filteredStatements as [|st' sts']; [done|]. cbn [length Nat.eqb].
       by rewrite (bind_reads_Err _ _ _ _ Hc). }
  destruct (fromJson filteredStatements dialectName) as [sqls|e] eqn:Hj.
  2: { unfold Cli.pushStatements, try_catch.
       destruct filteredStatements as [|st' sts']; [done|]. cbn [length Nat.eqb].
       by rewrite (bind_reads_Ok _ _ _ _ Hc), Hj, bind_lift_Err. }
  rewrite (pushStatements_run user JsonStatement fromJson _ _ _ strict verbose force c s sqls
             Hne Hc Hj). cbv zeta.
  destruct (aborts s strict force); [by rewrite <- app_assoc|].
  destruct (for_await _ _ c) as [[[[]|e|n] c'] ex]; by rewrite <- !app_assoc.
Qed.

(** How a run ends: raised before the [try] block with nothing issued and
    nothing asked; stopped by the operator, with code 0 and nothing issued;
    or returned, after a message or a logged error. *)
Local Abbreviation ends_well run c force :=
  (match run with
   | (Throw _, c', evs) => c' = c /\ issued evs = [] /\ prompts evs = []
   | (Exit n, c', evs) =>
       n = 0%nat /\ c' = c /\ force = false /\ issued evs = []
       /\ last evs = Some (Rendered Aborted)
       /\ exists q, Asked q (Some 0%nat) ∈ evs
   | (Ret _, c', evs) =>
       exists ev,
         last evs = Some ev
         /\ (ev = Rendered NoChanges \/ ev = Rendered Applied \/ exists e, ev = LoggedError e)
   end).

Lemma pushStatements_ends_well (dialectName : string)
    (filteredStatements : list JsonStatement) (classify : Conn -> result Suggestions)
    (strict verbose force : bool) (c : Conn) :
  ends_well (pushStatements dialectName filteredStatements classify strict verbose force c)
    c force.
Proof.
  destruct (pushStatements_forms dialectName filteredStatements classify strict verbose force c)
    as [[_ ->]|[(_ & e & -> & _)|(s & sqls & _ & _ & _ & Hrun)]].
  - exists (Rendered NoChanges). split; [reflexivity|by left].
  - exists (LoggedError e). split; [reflexivity|right; right; by exists e].
  - cbv zeta in Hrun.
    destruct Hrun as [[Hab ->]|[(Hab & c' & ->)|(Hab & c' & l1 & x & l2 & _ & ->)]].
    + split; [reflexivity|]. split; [reflexivity|].
      split; [by destruct force|].
      split; [by rewrite issued_app, issued_shown|].
      split; [apply last_snoc|].
      destruct force; [done|]. cbn [negb andb] in Hab |- *.
      destruct (shouldAskForApprove s).
      * apply bool_decide_eq_true_1 in Hab. exists (dataLoss s). rewrite <- Hab.
        rewrite !elem_of_app, !elem_of_cons. tauto.
      * destruct strict; [|done]. apply bool_decide_eq_true_1 in Hab.
        exists ConfirmAll. rewrite <- Hab.
        rewrite !elem_of_app, !elem_of_cons. tauto.
    + exists (Rendered Applied). split; [|by right; left].
      rewrite !app_assoc. apply last_snoc.
    + exists (LoggedError DriverError). split; [|right; right; by eexists].
      replace (shown s _ strict verbose force ++ accepted l1
               ++ [Issued x; Settled x false; LoggedError DriverError])
        with ((shown s (Cli.uniqueStatements (statementsToExecute s)
                        ++ Cli.uniqueStatements sqls) strict verbose force
               ++ accepted l1 ++ [Issued x; Settled x false])
              ++ [LoggedError DriverError])
        by (by rewrite <- !app_assoc).
      apply last_snoc.
Qed.

(** A rejected statement ends the run of the shared block. *)
Lemma pushStatements_rejection (dialectName : string)
    (filteredStatements : list JsonStatement) (classify : Conn -> result Suggestions)
    (strict verbose force : bool) (c : Conn)
    (o : outcome unit) (c' : Conn) (evs : list event) (x : string) :
  pushStatements dialectName filteredStatements classify strict verbose force c
  = (o, c', evs) ->
  Settled x false ∈ evs ->
  o = Ret tt
  /\ (exists pre,
        evs = pre ++ [Issued x; Settled x false; LoggedError DriverError]
        /\ forall y, Settled y false ∉ pre)
  /\ Rendered Applied ∉ evs.
Proof.
  intros Hrun Hin.
  destruct (pushStatements_forms dialectName filteredStatements classify strict verbose force c)
    as [[_ Heq]|[(_ & e & Heq & _)|(s & sqls & _ & _ & _ & Hforms)]].
  { rewrite Heq in Hrun. injection Hrun as <- <- <-.
    by apply list_elem_of_singleton in Hin. }
  { rewrite Heq in Hrun. injection Hrun as <- <- <-.
    by apply list_elem_of_singleton in Hin. }
  cbv zeta in Hforms.
  set (u := Cli.uniqueStatements (statementsToExecute s) ++ Cli.uniqueStatements sqls) in *.
  assert (Hshown : forall ev, ev ∈ shown s u strict verbose force ->
            (forall y ok, ev <> Settled y ok) /\ ev <> Rendered Applied).
  { intros ev [(l & ->)|[(w & ->)|(q & a & ->)]]%shown_events; by split. }
  assert (Hacc : forall l ev, ev ∈ accepted l ->
            (forall y, ev <> Settled y false) /\ ev <> Rendered Applied).
  { intros l ev (y & _ & [-> | ->])%elem_of_accepted; by split. }
  set (sh := shown s u strict verbose force) in *. clearbody sh.
  destruct Hforms as [[_ Heq]|[(_ & c1 & Heq)|(_ & c1 & l1 & y & l2 & _ & Heq)]];
    rewrite Heq in Hrun; injection Hrun as <- <- <-.
  - exfalso. apply elem_of_app in Hin as [Hin|Hin].
    + by apply (proj1 (Hshown _ Hin) x false).
    + by apply list_elem_of_singleton in Hin.
  - exfalso. rewrite !elem_of_app in Hin. destruct Hin as [Hin|[Hin|Hin]].
    + by apply (proj1 (Hshown _ Hin) x false).
    + by apply (proj1 (Hacc _ _ Hin) x).
    + by apply list_elem_of_singleton in Hin.
  - assert (y = x) as ->.
    { rewrite !elem_of_app, !elem_of_cons, elem_of_nil in Hin.
      destruct Hin as [Hin|[Hin|[?|[?|[?|?]]]]]; try congruence; try done.
      - by destruct (proj1 (Hshown _ Hin) x false).
      - by destruct (proj1 (Hacc _ _ Hin) x). }
    split; [reflexivity|]. split.
    + exists (sh ++ accepted l1).
      split; [by rewrite <- app_assoc|].
      intros z [Hz|Hz]%elem_of_app.
      * by apply (proj1 (Hshown _ Hz) z false).
      * by apply (proj1 (Hacc _ _ Hz) z).
    + rewrite !elem_of_app, !elem_of_cons, elem_of_nil.
      intros [Hz|[Hz|[?|[?|[?|?]]]]]; try congruence; try done.
      * by apply (proj2 (Hshown _ Hz)).
      * by apply (proj2 (Hacc _ _ Hz)).
Qed.

Variables MysqlCredentials SingleStoreCredentials MySqlSchema SingleStoreSchemaT : Type.
Variable connectToMySQL : MysqlCredentials -> result string.
Variable mysqlPushIntrospect : Conn -> string -> list string -> result MySqlSchema.
Variable prepareMySQLPush :
  SchemaPath -> MySqlSchema -> result (Cli.PreparedPush JsonStatement MySqlSchema).
Variable mySqlFilterStatements :
  list JsonStatement -> MySqlSchema -> MySqlSchema -> list JsonStatement.
Variable mySqlLogSuggestionsAndReturn :
  Conn -> list JsonStatement -> MySqlSchema -> result Suggestions.
Variable connectToSingleStore : SingleStoreCredentials -> result string.
Variable singlestorePushIntrospect :
  Conn -> string -> list string -> result SingleStoreSchemaT.
Variable prepareSingleStorePush :
  SchemaPath -> SingleStoreSchemaT ->
  result (Cli.PreparedPush JsonStatement SingleStoreSchemaT).
Variable singleStoreFilterStatements :
  list JsonStatement -> SingleStoreSchemaT -> SingleStoreSchemaT -> list JsonStatement.
Variable singleStoreLogSuggestionsAndReturn :
  Conn -> list JsonStatement -> SingleStoreSchemaT -> result Suggestions.

Local Abbreviation singlestorePush :=
  (Cli.singlestorePush user JsonStatement SchemaPath fromJson SingleStoreCredentials
     SingleStoreSchemaT connectToSingleStore singlestorePushIntrospect
     prepareSingleStorePush singleStoreFilterStatements singleStoreLogSuggestionsAndReturn).
Local Abbreviation mysqlPush :=
  (Cli.mysqlPush user JsonStatement SchemaPath fromJson MysqlCredentials MySqlSchema
     connectToMySQL mysqlPushIntrospect prepareMySQLPush mySqlFilterStatements
     mySqlLogSuggestionsAndReturn).

(** The statements a command goes on with. *)
Local Abbreviation singleStoreFiltered statements :=
  (singleStoreFilterStatements (default [] (Cli.pp_statements statements))
     (Cli.validatedCur statements) (Cli.validatedPrev statements)).
Local Abbreviation mySqlFiltered statements :=
  (mySqlFilterStatements (default [] (Cli.pp_statements statements))
     (Cli.validatedCur statements) (Cli.validatedPrev statements)).

Lemma singlestorePush_eq (schemaPath : SchemaPath) (credentials : SingleStoreCredentials)
    (tablesFilter : list string) (strict verbose force : bool) (c : Conn) :
  singlestorePush schemaPath credentials tablesFilter strict verbose force c
  = match connectToSingleStore credentials with
    | Err e => (Throw e, c, [])
    | Ok database =>
        match singlestorePushIntrospect c database tablesFilter with
        | Err e => (Throw e, c, [])
        | Ok schema =>
            match prepareSingleStorePush schemaPath schema with
            | Err e => (Throw e, c, [])
            | Ok statements =>
                pushStatements "singlestore" (singleStoreFiltered statements)
                  (fun db =>
                     singleStoreLogSuggestionsAndReturn db (singleStoreFiltered statements)
                       (Cli.validatedCur statements))
                  strict verbose force c
            end
        end
    end.
Proof.
  unfold Cli.singlestorePush.
  destruct (connectToSingleStore credentials) as [database|e];
    [rewrite bind_lift_Ok|by rewrite bind_lift_Err].
  destruct (singlestorePushIntrospect c database tablesFilter) as [schema|e] eqn:Hint.
  2: { by rewrite (bind_reads_Err (fun db => singlestorePushIntrospect db database tablesFilter)
                     _ _ c Hint). }
  rewrite (bind_reads_Ok (fun db => singlestorePushIntrospect db database tablesFilter)
             _ _ c Hint).
  destruct (prepareSingleStorePush schemaPath schema) as [statements|e];
    [by rewrite bind_lift_Ok|by rewrite bind_lift_Err].
Qed.

Lemma mysqlPush_eq (schemaPath : SchemaPath) (credentials : MysqlCredentials)
    (tablesFilter : list string) (strict verbose force : bool) (c : Conn) :
  mysqlPush schemaPath credentials tablesFilter strict verbose force c
  = match connectToMySQL credentials with
    | Err e => (Throw e, c, [])
    | Ok database =>
        match mysqlPushIntrospect c database tablesFilter with
        | Err e => (Throw e, c, [])
        | Ok schema =>
            match prepareMySQLPush schemaPath schema with
            | Err e => (Throw e, c, [])
            | Ok statements =>
                pushStatements "mysql" (mySqlFiltered statements)
                  (fun db =>
                     mySqlLogSuggestionsAndReturn db (mySqlFiltered statements)
                       (Cli.validatedCur statements))
                  strict verbose force c
            end
        end
    end.
Proof.
  unfold Cli.mysqlPush.
  destruct (connectToMySQL credentials) as [database|e];
    [rewrite bind_lift_Ok|by rewrite bind_lift_Err].
  destruct (mysqlPushIntrospect c database tablesFilter) as [schema|e] eqn:Hint.
  2: { by rewrite (bind_reads_Err (fun db => mysqlPushIntrospect db database tablesFilter)
                     _ _ c Hint). }
  rewrite (bind_reads_Ok (fun db => mysqlPushIntrospect db database tablesFilter)
             _ _ c Hint).
  destruct (prepareMySQLPush schemaPath schema) as [statements|e];
    [by rewrite bind_lift_Ok|by rewrite bind_lift_Err].
Qed.

(** X6: every run of [singlestorePush] and of [mysqlPush] ends in one of
    three ways.  It raises only before the [try] block: the connection is
    untouched, no statement was issued and no prompt shown (the progress
    view of the introspection is no event of the command, so nothing is
    said of it).  It exits only with code 0, only without [force], after a
    prompt was answered [No, abort], with the abort message last and no
    statement issued.  Otherwise it returns, and the last event is one of
    the two messages or a logged error: an error inside the [try] block is
    logged, never raised. *)
Theorem push_outcomes :
  (forall schemaPath credentials tablesFilter strict verbose force c,
      ends_well (singlestorePush schemaPath credentials tablesFilter strict verbose force c)
        c force)
  /\ (forall schemaPath credentials tablesFilter strict verbose force c,
      ends_well (mysqlPush schemaPath credentials tablesFilter strict verbose force c)
        c force).
Proof.
  split; intros schemaPath credentials tablesFilter strict verbose force c.
  - rewrite singlestorePush_eq.
    destruct (connectToSingleStore credentials) as [database|e]; [|done].
    destruct (singlestorePushIntrospect c database tablesFilter) as [schema|e]; [|done].
    destruct (prepareSingleStorePush schemaPath schema) as [statements|e]; [|done].
    apply pushStatements_ends_well.
  - rewrite mysqlPush_eq.
    destruct (connectToMySQL credentials) as [database|e]; [|done].
    destruct (mysqlPushIntrospect c database tablesFilter) as [schema|e]; [|done].
    destruct (prepareMySQLPush schemaPath schema) as [statements|e]; [|done].
    apply pushStatements_ends_well.
Qed.

(** X7: when the connection rejects a statement in a run of
    [singlestorePush] or [mysqlPush], that statement is the last one issued
    and the first one rejected, the driver's error is logged right after it,
    the command returns normally, and the success message is not shown; the
    statements acknowledged before it are not taken back. *)
Theorem push_rejection_halts :
  (forall schemaPath credentials tablesFilter strict verbose force c o c' evs x,
      singlestorePush schemaPath credentials tablesFilter strict verbose force c
      = (o, c', evs) ->
      Settled x false ∈ evs ->
      o = Ret tt
      /\ (exists pre,
            evs = pre ++ [Issued x; Settled x false; LoggedError DriverError]
            /\ forall y, Settled y false ∉ pre)
      /\ Rendered Applied ∉ evs)
  /\ (forall schemaPath credentials tablesFilter strict verbose force c o c' evs x,
      mysqlPush schemaPath credentials tablesFilter strict verbose force c
      = (o, c', evs) ->
      Settled x false ∈ evs ->
      o = Ret tt
      /\ (exists pre,
            evs = pre ++ [Issued x; Settled x false; LoggedError DriverError]
            /\ forall y, Settled y false ∉ pre)
      /\ Rendered Applied ∉ evs).
Proof.
  split; intros schemaPath credentials tablesFilter strict verbose force c o c' evs x Hrun Hin.
  - rewrite singlestorePush_eq in Hrun.
    destruct (connectToSingleStore credentials) as [database|e];
      [|injection Hrun as <- <- <-; by apply elem_of_nil in Hin].
    destruct (singlestorePushIntrospect c database tablesFilter) as [schema|e];
      [|injection Hrun as <- <- <-; by apply elem_of_nil in Hin].
    destruct (prepareSingleStorePush schemaPath schema) as [statements|e];
      [|injection Hrun as <- <- <-; by apply elem_of_nil in Hin].
    exact (pushStatements_rejection _ _ _ _ _ _ _ _ _ _ _ Hrun Hin).
  - rewrite mysqlPush_eq in Hrun.
    destruct (connectToMySQL credentials) as [database|e];
      [|injection Hrun as <- <- <-; by apply elem_of_nil in Hin].
    destruct (mysqlPushIntrospect c database tablesFilter) as [schema|e];
      [|injection Hrun as <- <- <-; by apply elem_of_nil in Hin].
    destruct (prepareMySQLPush schemaPath schema) as [statements|e];
      [|injection Hrun as <- <- <-; by apply elem_of_nil in Hin].
    exact (pushStatements_rejection _ _ _ _ _ _ _ _ _ _ _ Hrun Hin).
Qed.

Lemma prompts_shown (s : Suggestions) (u : list string) (strict verbose force : bool) :
  prompts (shown s u strict verbose force)
  = if negb force && shouldAskForApprove s then [dataLoss s]
    else if negb force && strict then [ConfirmAll] else [].
Proof.
  by destruct verbose, (negb force && shouldAskForApprove s), (negb force && strict).
Qed.

Lemma pushStatements_no_changes (dialectName : string)
    (filteredStatements : list JsonStatement) (classify : Conn -> result Suggestions)
    (strict verbose force : bool) (c : Conn) :
  (filteredStatements = [] ->
   pushStatements dialectName filteredStatements classify strict verbose force c
   = (Ret tt, c, [Rendered NoChanges]))
  /\ (Rendered NoChanges
        ∈ (pushStatements dialectName filteredStatements classify strict verbose force c).2 ->
      filteredStatements = []).
Proof.
  split; [by intros ->|].
  destruct (pushStatements_forms dialectName filteredStatements classify strict verbose force c)
    as [[Hfs _]|[(_ & e & -> & _)|(s & sqls & _ & _ & _ & Hforms)]]; [done| |].
  { by intros ?%list_elem_of_singleton. }
  cbv zeta in Hforms.
  set (u := Cli.uniqueStatements (statementsToExecute s) ++ Cli.uniqueStatements sqls) in *.
  assert (Hshown : forall ev, ev ∈ shown s u strict verbose force -> ev <> Rendered NoChanges).
  { by intros ev [(l & ->)|[(w & ->)|(q & a & ->)]]%shown_events. }
  assert (Hacc : forall l ev, ev ∈ accepted l -> ev <> Rendered NoChanges).
  { by intros l ev (y & _ & [-> | ->])%elem_of_accepted. }
  set (sh := shown s u strict verbose force) in *. clearbody sh.
  destruct Hforms as [[_ ->]|[(_ & c1 & ->)|(_ & c1 & l1 & y & l2 & _ & ->)]];
    cbn [snd]; rewrite !elem_of_app, ?elem_of_cons, ?elem_of_nil; intros Hin; exfalso.
  - destruct Hin as [Hin|[?|?]]; [by apply (Hshown _ Hin)|done..].
  - destruct Hin as [Hin|[Hin|[?|?]]];
      [by apply (Hshown _ Hin)|by apply (Hacc _ _ Hin)|done..].
  - destruct Hin as [Hin|[Hin|[?|[?|[?|?]]]]];
      [by apply (Hshown _ Hin)|by apply (Hacc _ _ Hin)|done..].
Qed.

Lemma pushStatements_verbose (dialectName : string)
    (filteredStatements : list JsonStatement) (classify : Conn -> result Suggestions)
    (strict force : bool) (c : Conn) :
  let quiet := pushStatements dialectName filteredStatements classify strict false force c in
  let loud := pushStatements dialectName filteredStatements classify strict true force c in
  loud.1 = quiet.1
  /\ (loud.2 = quiet.2 \/ exists l, loud.2 = LoggedStatements l :: quiet.2).
Proof.
  cbv zeta. rewrite !pushStatements_eq.
  destruct filteredStatements as [|st sts]; [by split; [|left]|].
  destruct (classify c) as [s|e]; [|by split; [|left]].
  destruct (fromJson (st :: sts) dialectName) as [sqls|e]; [|by split; [|left]].
  cbv zeta. destruct (aborts s strict force).
  - split; [reflexivity|]. right. by eexists.
  - destruct (for_await _ _ c) as [[[[]|e|n] c'] ex];
      (split; [reflexivity|]); right; by eexists.
Qed.

Lemma pushStatements_prompts (dialectName : string)
    (filteredStatements : list JsonStatement) (classify : Conn -> result Suggestions)
    (strict verbose force : bool) (c : Conn) :
  let evs :=
    (pushStatements dialectName filteredStatements classify strict verbose force c).2 in
  length (prompts evs) <= 1
  /\ (ConfirmAll ∈ prompts evs -> strict = true /\ force = false).
Proof.
  cbv zeta.
  destruct (pushStatements_forms dialectName filteredStatements classify strict verbose force c)
    as [[_ ->]|[(_ & e & -> & _)|(s & sqls & _ & _ & _ & Hforms)]].
  { split; [cbn; lia|by intros ?%elem_of_nil]. }
  { split; [cbn; lia|by intros ?%elem_of_nil]. }
  cbv zeta in Hforms.
  set (u := Cli.uniqueStatements (statementsToExecute s) ++ Cli.uniqueStatements sqls) in *.
  pose proof (prompts_shown s u strict verbose force) as Hsh.
  set (sh := shown s u strict verbose force) in *. clearbody sh.
  destruct Hforms as [[_ ->]|[(_ & c1 & ->)|(_ & c1 & l1 & y & l2 & _ & ->)]];
    cbn [snd]; rewrite !prompts_app, Hsh, ?prompts_accepted;
    cbn [prompts omap app]; rewrite ?app_nil_r;
    destruct force, strict, (shouldAskForApprove s); cbn [negb andb length];
    (split; [lia|]);
    rewrite ?elem_of_cons, ?elem_of_nil; intros Hin; try done;
    destruct Hin as [?|?]; done.
Qed.

Lemma pushStatements_strict (dialectName : string)
    (filteredStatements : list JsonStatement) (classify : Conn -> result Suggestions)
    (verbose force : bool) (c : Conn) :
  force = true \/ (forall s, classify c = Ok s -> shouldAskForApprove s = true) ->
  pushStatements dialectName filteredStatements classify true verbose force c
  = pushStatements dialectName filteredStatements classify false verbose force c.
Proof.
  intros Hor. rewrite !pushStatements_eq.
  destruct filteredStatements as [|st sts]; [reflexivity|].
  destruct (classify c) as [s|e] eqn:Hc; [|reflexivity].
  destruct (fromJson (st :: sts) dialectName) as [sqls|e]; [|reflexivity].
  assert (Hcase : force = true \/ shouldAskForApprove s = true)
    by (destruct Hor as [?|Hask]; [by left|right; by apply Hask]).
  cbv zeta. destruct Hcase as [-> | ->]; [reflexivity|].
  by destruct force.
Qed.

(** X8: once the schema files are prepared, [singlestorePush] and
    [mysqlPush] show [No changes detected] exactly when no statement is left
    after filtering, and then they do nothing else: the classifier is not
    consulted, nothing is asked and nothing is issued.  The same message at
    the end of the [try] block is never reached. *)
Theorem push_no_changes :
  (forall schemaPath credentials tablesFilter strict verbose force c
          database schema statements,
      connectToSingleStore credentials = Ok database ->
      singlestorePushIntrospect c database tablesFilter = Ok schema ->
      prepareSingleStorePush schemaPath schema = Ok statements ->
      (singleStoreFiltered statements = [] ->
       singlestorePush schemaPath credentials tablesFilter strict verbose force c
       = (Ret tt, c, [Rendered NoChanges]))
      /\ (Rendered NoChanges
            ∈ (singlestorePush schemaPath credentials tablesFilter strict verbose force c).2 ->
          singleStoreFiltered statements = []))
  /\ (forall schemaPath credentials tablesFilter strict verbose force c
             database schema statements,
      connectToMySQL credentials = Ok database ->
      mysqlPushIntrospect c database tablesFilter = Ok schema ->
      prepareMySQLPush schemaPath schema = Ok statements ->
      (mySqlFiltered statements = [] ->
       mysqlPush schemaPath credentials tablesFilter strict verbose force c
       = (Ret tt, c, [Rendered NoChanges]))
      /\ (Rendered NoChanges
            ∈ (mysqlPush schemaPath credentials tablesFilter strict verbose force c).2 ->
          mySqlFiltered statements = [])).
Proof.
  split; intros schemaPath credentials tablesFilter strict verbose force c
           database schema statements Hconn Hint Hprep.
  - rewrite singlestorePush_eq, Hconn, Hint, Hprep. apply pushStatements_no_changes.
  - rewrite mysqlPush_eq, Hconn, Hint, Hprep. apply pushStatements_no_changes.
Qed.

(** X9: the [verbose] flag of [singlestorePush] and [mysqlPush] changes
    nothing but the log: the run with it ends the same way on the same
    connection, and shows the same events, except that the list of
    statements may be logged first, before any prompt. *)
Theorem push_verbose_only_logs :
  (forall schemaPath credentials tablesFilter strict force c,
      let quiet := singlestorePush schemaPath credentials tablesFilter strict false force c in
      let loud := singlestorePush schemaPath credentials tablesFilter strict true force c in
      loud.1 = quiet.1
      /\ (loud.2 = quiet.2 \/ exists l, loud.2 = LoggedStatements l :: quiet.2))
  /\ (forall schemaPath credentials tablesFilter strict force c,
      let quiet := mysqlPush schemaPath credentials tablesFilter strict false force c in
      let loud := mysqlPush schemaPath credentials tablesFilter strict true force c in
      loud.1 = quiet.1
      /\ (loud.2 = quiet.2 \/ exists l, loud.2 = LoggedStatements l :: quiet.2)).
Proof.
  split; intros schemaPath credentials tablesFilter strict force c; cbv zeta.
  - rewrite !singlestorePush_eq.
    destruct (connectToSingleStore credentials) as [database|e]; [|by split; [|left]].
    destruct (singlestorePushIntrospect c database tablesFilter) as [schema|e];
      [|by split; [|left]].
    destruct (prepareSingleStorePush schemaPath schema) as [statements|e];
      [|by split; [|left]].
    apply pushStatements_verbose.
  - rewrite !mysqlPush_eq.
    destruct (connectToMySQL credentials) as [database|e]; [|by split; [|left]].
    destruct (mysqlPushIntrospect c database tablesFilter) as [schema|e];
      [|by split; [|left]].
    destruct (prepareMySQLPush schemaPath schema) as [statements|e];
      [|by split; [|left]].
    apply pushStatements_verbose.
Qed.

(** X10: a run of [singlestorePush] or [mysqlPush] shows at most one
    prompt, and the prompt of the [strict] flag only when [strict] is passed
    and [force] is not. *)
Theorem push_asks_at_most_once :
  (forall schemaPath credentials tablesFilter strict verbose force c,
      let evs :=
        (singlestorePush schemaPath credentials tablesFilter strict verbose force c).2 in
      length (prompts evs) <= 1
      /\ (ConfirmAll ∈ prompts evs -> strict = true /\ force = false))
  /\ (forall schemaPath credentials tablesFilter strict verbose force c,
      let evs := (mysqlPush schemaPath credentials tablesFilter strict verbose force c).2 in
      length (prompts evs) <= 1
      /\ (ConfirmAll ∈ prompts evs -> strict = true /\ force = false)).
Proof.
  split; intros schemaPath credentials tablesFilter strict verbose force c; cbv zeta.
  - rewrite singlestorePush_eq.
    destruct (connectToSingleStore credentials) as [database|e];
      [|split; [cbn; lia|by intros ?%elem_of_nil]].
    destruct (singlestorePushIntrospect c database tablesFilter) as [schema|e];
      [|split; [cbn; lia|by intros ?%elem_of_nil]].
    destruct (prepareSingleStorePush schemaPath schema) as [statements|e];
      [|split; [cbn; lia|by intros ?%elem_of_nil]].
    apply pushStatements_prompts.
  - rewrite mysqlPush_eq.
    destruct (connectToMySQL credentials) as [database|e];
      [|split; [cbn; lia|by intros ?%elem_of_nil]].
    destruct (mysqlPushIntrospect c database tablesFilter) as [schema|e];
      [|split; [cbn; lia|by intros ?%elem_of_nil]].
    destruct (prepareMySQLPush schemaPath schema) as [statements|e];
      [|split; [cbn; lia|by intros ?%elem_of_nil]].
    apply pushStatements_prompts.
Qed.

(** X11: the [strict] flag of [singlestorePush] and [mysqlPush] is read
    only for a push without data loss: with [force], or when the classifier
    asks for approval of the statements of this run, the run with [strict]
    is the run without it. *)
Theorem push_strict_only_without_data_loss :
  (forall schemaPath credentials tablesFilter verbose force c,
      force = true
      \/ (forall database schema statements s,
            connectToSingleStore credentials = Ok database ->
            singlestorePushIntrospect c database tablesFilter = Ok schema ->
            prepareSingleStorePush schemaPath schema = Ok statements ->
            singleStoreLogSuggestionsAndReturn c (singleStoreFiltered statements)
              (Cli.validatedCur statements) = Ok s ->
            shouldAskForApprove s = true) ->
      singlestorePush schemaPath credentials tablesFilter true verbose force c
      = singlestorePush schemaPath credentials tablesFilter false verbose force c)
  /\ (forall schemaPath credentials tablesFilter verbose force c,
      force = true
      \/ (forall database schema statements s,
            connectToMySQL credentials = Ok database ->
            mysqlPushIntrospect c database tablesFilter = Ok schema ->
            prepareMySQLPush schemaPath schema = Ok statements ->
            mySqlLogSuggestionsAndReturn c (mySqlFiltered statements)
              (Cli.validatedCur statements) = Ok s ->
            shouldAskForApprove s = true) ->
      mysqlPush schemaPath credentials tablesFilter true verbose force c
      = mysqlPush schemaPath credentials tablesFilter false verbose force c).
Proof.
  split; intros schemaPath credentials tablesFilter verbose force c Hor.
  - rewrite !singlestorePush_eq.
    destruct (connectToSingleStore credentials) as [database|e] eqn:Hconn; [|reflexivity].
    destruct (singlestorePushIntrospect c database tablesFilter) as [schema|e] eqn:Hint;
      [|reflexivity].
    destruct (prepareSingleStorePush schemaPath schema) as [statements|e] eqn:Hprep;
      [|reflexivity].
    apply pushStatements_strict. destruct Hor as [?|Hask]; [by left|right].
    intros s Hs. exact (Hask database schema statements s eq_refl Hint Hprep Hs).
  - rewrite !mysqlPush_eq.
    destruct (connectToMySQL credentials) as [database|e] eqn:Hconn; [|reflexivity].
    destruct (mysqlPushIntrospect c database tablesFilter) as [schema|e] eqn:Hint;
      [|reflexivity].
    destruct (prepareMySQLPush schemaPath schema) as [statements|e] eqn:Hprep;
      [|reflexivity].
    apply pushStatements_strict. destruct Hor as [?|Hask]; [by left|right].
    intros s Hs. exact (Hask database schema statements s eq_refl Hint Hprep Hs).
Qed.

Lemma count_NoDup (x : string) (l : list string) :
  NoDup l -> length (filter (fun y => y = x) l) = if decide (x ∈ l) then 1 else 0.
Proof.
  induction 1 as [|a l Ha Hl IH]; [reflexivity|].
  destruct (decide (a = x)) as [->|Hax].
  - rewrite filter_cons_True by reflexivity. cbn [length].
    rewrite decide_True by (by left).
    rewrite IH, decide_False by exact Ha. reflexivity.
  - rewrite filter_cons_False by exact Hax. rewrite IH.
    destruct (decide (x ∈ l)) as [Hin|Hin].
    + by rewrite decide_True by (by right).
    + rewrite decide_False; [reflexivity|]. rewrite elem_of_cons. intros [?|?]; congruence.
Qed.

Lemma count_uniqueStatements (x : string) (xs : list string) :
  length (filter (fun y => y = x) (Cli.uniqueStatements xs))
  = if decide (x ∈ xs) then 1 else 0.
Proof.
  rewrite uniqueStatements_first_occurrences.
  rewrite count_NoDup by apply first_occurrences_NoDup.
  destruct (decide (x ∈ xs)) as [Hin|Hin].
  - by rewrite decide_True by (by apply first_occurrences_elem_of).
  - by rewrite decide_False by (by rewrite first_occurrences_elem_of).
Qed.

(** X12: the two statement lists are deduplicated one by one, not
    together: in a run of [singlestorePush] or [mysqlPush] that ends with
    the changes applied, a statement is issued once for the classifier's
    list if it occurs there, and once more for the rendered list if it
    occurs there, so a statement of both lists is issued twice. *)
Theorem push_statement_counts :
  (forall schemaPath credentials tablesFilter strict verbose force c
          database schema statements s sqls x,
      connectToSingleStore credentials = Ok database ->
      singlestorePushIntrospect c database tablesFilter = Ok schema ->
      prepareSingleStorePush schemaPath schema = Ok statements ->
      singleStoreLogSuggestionsAndReturn c (singleStoreFiltered statements)
        (Cli.validatedCur statements) = Ok s ->
      fromJson (singleStoreFiltered statements) "singlestore" = Ok sqls ->
      Rendered Applied
        ∈ (singlestorePush schemaPath credentials tablesFilter strict verbose force c).2 ->
      length (filter (fun y => y = x)
                (issued (singlestorePush schemaPath credentials tablesFilter
                           strict verbose force c).2))
      = (if decide (x ∈ statementsToExecute s) then 1 else 0)
        + (if decide (x ∈ sqls) then 1 else 0))
  /\ (forall schemaPath credentials tablesFilter strict verbose force c
             database schema statements s sqls x,
      connectToMySQL credentials = Ok database ->
      mysqlPushIntrospect c database tablesFilter = Ok schema ->
      prepareMySQLPush schemaPath schema = Ok statements ->
      mySqlLogSuggestionsAndReturn c (mySqlFiltered statements)
        (Cli.validatedCur statements) = Ok s ->
      fromJson (mySqlFiltered statements) "mysql" = Ok sqls ->
      Rendered Applied
        ∈ (mysqlPush schemaPath credentials tablesFilter strict verbose force c).2 ->
      length (filter (fun y => y = x)
                (issued (mysqlPush schemaPath credentials tablesFilter
                           strict verbose force c).2))
      = (if decide (x ∈ statementsToExecute s) then 1 else 0)
        + (if decide (x ∈ sqls) then 1 else 0)).
Proof.
  split; intros schemaPath credentials tablesFilter strict verbose force c
           database schema statements s sqls x Hconn Hint Hprep Hc Hj Hin.
  - destruct (singlestorePush_trace user JsonStatement SchemaPath fromJson _ _
                connectToSingleStore singlestorePushIntrospect prepareSingleStorePush
                singleStoreFilterStatements singleStoreLogSuggestionsAndReturn
                schemaPath credentials tablesFilter strict verbose force c)
      as (o & c' & evs & Hrun & _ & _ & _ & Hiss & _).
    rewrite Hrun in Hin |- *. cbn [snd] in Hin |- *.
    destruct (Hiss database schema statements s sqls Hconn Hint Hprep Hc Hj)
      as (_ & Heq & _).
    by rewrite (Heq Hin), filter_app, length_app, !count_uniqueStatements.
  - destruct (mysqlPush_trace user JsonStatement SchemaPath fromJson _ _
                connectToMySQL mysqlPushIntrospect prepareMySQLPush
                mySqlFilterStatements mySqlLogSuggestionsAndReturn
                schemaPath credentials tablesFilter strict verbose force c)
      as (o & c' & evs & Hrun & _ & _ & _ & Hiss & _).
    rewrite Hrun in Hin |- *. cbn [snd] in Hin |- *.
    destruct (Hiss database schema statements s sqls Hconn Hint Hprep Hc Hj)
      as (_ & Heq & _).
    by rewrite (Heq Hin), filter_app, length_app, !count_uniqueStatements.
Qed.

(** *** The programmatic push *)

Variable originUUID : string.
Variables Imports SingleStoreTables : Type.
Variable singlestore_prepareFromExports : Imports -> result (Prepared SingleStoreTables).
Variable generateSingleStoreSnapshot : SingleStoreTables -> result SingleStoreSchemaInternal.
Variable applySingleStoreSnapshotsDiff :
  SingleStoreSchemaSquashed -> SingleStoreSchemaSquashed ->
  SingleStoreSchema -> SingleStoreSchema -> option string ->
  result (DiffResult JsonStatement).
Variable apiPushIntrospect : Conn -> string -> list string -> result SingleStoreSchema.
Variable apiLogSuggestionsAndReturn :
  Conn -> list JsonStatement -> SingleStoreSchema -> result Suggestions.

Local Abbreviation pushSingleStoreSchema :=
  (Api.pushSingleStoreSchema originUUID Imports SingleStoreTables
     singlestore_prepareFromExports generateSingleStoreSnapshot JsonStatement
     applySingleStoreSnapshotsDiff apiPushIntrospect apiLogSuggestionsAndReturn).

(** X13: the [apply] that [pushSingleStoreSchema] returns issues, on
    whatever connection it is run, exactly the statements reported in
    [statementsToExecute], in that order and with their duplicates; it stops
    at the first statement the connection rejects and raises the driver's
    error, which is not caught. *)
Theorem apply_issues_reported_statements :
  forall imports databaseName uuid c r c' evs,
    pushSingleStoreSchema imports databaseName uuid c = (Ret r, c', evs) ->
    forall c0,
      (exists c1, apply r c0 = (Ret tt, c1, accepted (res_statementsToExecute r)))
      \/ (exists c1 l1 x l2,
            res_statementsToExecute r = l1 ++ x :: l2
            /\ apply r c0
               = (Throw DriverError, c1, accepted l1 ++ [Issued x; Settled x false])).
Proof.
  intros imports databaseName uuid c r c' evs Hrun c0.
  destruct (pushSingleStoreSchema_run JsonStatement originUUID Imports SingleStoreTables
              singlestore_prepareFromExports generateSingleStoreSnapshot
              applySingleStoreSnapshotsDiff apiPushIntrospect apiLogSuggestionsAndReturn
              imports databaseName uuid c) as (o & Heq & Hret).
  rewrite Heq in Hrun. injection Hrun as -> <- <-.
  destruct (Hret r eq_refl) as (cur & stmts & s & _ & _ & _ & _ & -> & ->).
  apply for_await_query_cases.
Qed.

(** *** The approval gate and the order of the statements *)

(** What the data-loss prompt guards in a run that ended as [o] on [c']
    with events [evs]: the answer [No, abort] leaves the connection as it
    was; a statement is issued only after the prompt, and only when it
    returned something else than [No, abort], be it no answer at all. *)
#[warnings="-inconsistent-scopes"] Local Abbreviation gated s c c' evs :=
  (approved_before_issue evs = true
   /\ (user (dataLoss s) <> None -> explicitly_approved evs = true)
   /\ (user (dataLoss s) = Some 0%nat -> issued evs = [] /\ c' = c)
   /\ (issued evs <> [] ->
       exists pre post,
         evs = pre ++ Asked (dataLoss s) (user (dataLoss s)) :: post
         /\ issued pre = [] /\ prompts pre = []
         /\ user (dataLoss s) <> Some 0%nat)).

(** How the statements of a run follow one another: none after [No, abort];
    else all of [u] in order, each acknowledged, and then the success
    message; or those before the first rejected one, that one, and the
    logged error. *)
#[warnings="-inconsistent-scopes"] Local Abbreviation ordered u o force evs :=
  ((o = Exit 0 /\ force = false /\ issued evs = []
    /\ exists q, Asked q (Some 0%nat) ∈ evs)
   \/ (o = Ret tt
       /\ exists pre,
           issued pre = [] /\ evs = pre ++ accepted u ++ [Rendered Applied])
   \/ (o = Ret tt
       /\ exists pre l1 x l2,
           u = l1 ++ x :: l2 /\ issued pre = []
           /\ evs = pre ++ accepted l1
                    ++ [Issued x; Settled x false; LoggedError DriverError])).


Lemma pushStatements_ordered (dialectName : string)
    (filteredStatements : list JsonStatement) (classify : Conn -> result Suggestions)
    (strict verbose force : bool) (c : Conn) (s : Suggestions) (sqls : list string)
    (o : outcome unit) (c' : Conn) (evs : list event) :
  filteredStatements <> [] ->
  classify c = Ok s ->
  fromJson filteredStatements dialectName = Ok sqls ->
  pushStatements dialectName filteredStatements classify strict verbose force c
  = (o, c', evs) ->
  ordered (Cli.uniqueStatements (statementsToExecute s) ++ Cli.uniqueStatements sqls)
    o force evs.
Proof.
  intros Hne Hc Hj Hrun.
  pose proof (pushStatements_ends_well dialectName filteredStatements classify
                strict verbose force c) as Hend.
  destruct (pushStatements_forms dialectName filteredStatements classify strict verbose force c)
    as [[? _]|[(_ & e & _ & [?|[_ ?]])|(s' & sqls' & _ & Hc' & Hj' & Hforms)]];
    [done|congruence|congruence|].
  assert (s' = s) as -> by congruence.
  assert (sqls' = sqls) as -> by congruence.
  cbv zeta in Hforms.
  set (u := Cli.uniqueStatements (statementsToExecute s) ++ Cli.uniqueStatements sqls) in *.
  pose proof (issued_shown s u strict verbose force) as Hsh.
  set (sh := shown s u strict verbose force) in *. clearbody sh.
  destruct Hforms as [[_ Heq]|[(_ & c1 & Heq)|(_ & c1 & l1 & x & l2 & Hu & Heq)]];
    rewrite Heq in Hrun, Hend; injection Hrun as <- <- <-.
  - left. destruct Hend as (_ & _ & Hf & Hiss & _ & Hq). by repeat split.
  - right; left. split; [reflexivity|]. by exists sh.
  - right; right. split; [reflexivity|]. by exists sh, l1, x, l2.
Qed.


(** C8: the [apply] that [pushSingleStoreSchema] returns, and the loops of
    [singlestorePush] and [mysqlPush], issue their statements one at a time
    and in list order: a statement is issued only after the query of the one
    before has settled, and runs on the connection that one left.  For
    [apply] the list is the classifier's [statementsToExecute]; for the
    commands it is that list and then the rendered statements, each without
    its repetitions.  A command that has statements to push and is not
    stopped by the answer [No, abort] issues the whole list, each statement
    acknowledged before the next, or the list up to the first statement the
    connection rejects. *)
Theorem push_statements_sequential :
  (forall imports databaseName uuid c r c1 evs1,
      pushSingleStoreSchema imports databaseName uuid c = (Ret r, c1, evs1) ->
      (exists cur stmts s,
          apiLogSuggestionsAndReturn c stmts cur = Ok s
          /\ res_statementsToExecute r = statementsToExecute s)
      /\ forall c0, exists o c' evs,
           apply r c0 = (o, c', evs)
           /\ (forall i j s1 s2,
                  evs !! i = Some (Issued s1) -> evs !! j = Some (Issued s2) -> i < j ->
                  exists k b, i < k < j /\ evs !! k = Some (Settled s1 b))
           /\ issued evs `prefix_of` res_statementsToExecute r
           /\ (o = Ret tt -> issued evs = res_statementsToExecute r)
           /\ c' = fold_left (fun c s => (run_query s c).1) (issued evs) c0)
  /\ (forall schemaPath credentials tablesFilter strict verbose force c,
      exists o c' evs,
        singlestorePush schemaPath credentials tablesFilter strict verbose force c
        = (o, c', evs)
        /\ (forall i j s1 s2,
               evs !! i = Some (Issued s1) -> evs !! j = Some (Issued s2) -> i < j ->
               exists k b, i < k < j /\ evs !! k = Some (Settled s1 b))
        /\ c' = fold_left (fun c s => (run_query s c).1) (issued evs) c
        /\ forall database schema statements s sqls,
            connectToSingleStore credentials = Ok database ->
            singlestorePushIntrospect c database tablesFilter = Ok schema ->
            prepareSingleStorePush schemaPath schema = Ok statements ->
            singleStoreLogSuggestionsAndReturn c (singleStoreFiltered statements)
              (Cli.validatedCur statements) = Ok s ->
            fromJson (singleStoreFiltered statements) "singlestore" = Ok sqls ->
            issued evs `prefix_of`
              Cli.uniqueStatements (statementsToExecute s) ++ Cli.uniqueStatements sqls
            /\ (singleStoreFiltered statements <> [] ->
                ordered
                  (Cli.uniqueStatements (statementsToExecute s)
                   ++ Cli.uniqueStatements sqls)
                  o force evs))
  /\ (forall schemaPath credentials tablesFilter strict verbose force c,
      exists o c' evs,
        mysqlPush schemaPath credentials tablesFilter strict verbose force c
        = (o, c', evs)
        /\ (forall i j s1 s2,
               evs !! i = Some (Issued s1) -> evs !! j = Some (Issued s2) -> i < j ->
               exists k b, i < k < j /\ evs !! k = Some (Settled s1 b))
        /\ c' = fold_left (fun c s => (run_query s c).1) (issued evs) c
        /\ forall database schema statements s sqls,
            connectToMySQL credentials = Ok database ->
            mysqlPushIntrospect c database tablesFilter = Ok schema ->
            prepareMySQLPush schemaPath schema = Ok statements ->
            mySqlLogSuggestionsAndReturn c (mySqlFiltered statements)
              (Cli.validatedCur statements) = Ok s ->
            fromJson (mySqlFiltered statements) "mysql" = Ok sqls ->
            issued evs `prefix_of`
              Cli.uniqueStatements (statementsToExecute s) ++ Cli.uniqueStatements sqls
            /\ (mySqlFiltered statements <> [] ->
                ordered
                  (Cli.uniqueStatements (statementsToExecute s)
                   ++ Cli.uniqueStatements sqls)
                  o force evs)).
Proof.
  split; [|split].
  - intros imports databaseName uuid c r c1 evs1 Hrun.
    destruct (pushSingleStoreSchema_run JsonStatement originUUID Imports SingleStoreTables
                singlestore_prepareFromExports generateSingleStoreSnapshot
                applySingleStoreSnapshotsDiff apiPushIntrospect apiLogSuggestionsAndReturn
                imports databaseName uuid c) as (o & Hrun' & Hret).
    rewrite Hrun in Hrun'. injection Hrun' as <- -> ->.
    destruct (Hret r eq_refl) as (cur & stmts & s & _ & Hcl & _ & _ & Hst & Hap).
    split; [by exists cur, stmts, s|].
    intros c0. rewrite Hap, Hst.
    destruct (for_await_query (statementsToExecute s) c0)
      as (o & c' & evs & Hfa & Hseq & _ & Hpre & Hall & _ & _ & Hc' & _).
    exists o, c', evs. repeat split; try done.
    intros i j s1 s2. by apply sequential_settled_between.
  - intros schemaPath credentials tablesFilter strict verbose force c.
    destruct (singlestorePush_trace user JsonStatement SchemaPath fromJson
                SingleStoreCredentials SingleStoreSchemaT connectToSingleStore
                singlestorePushIntrospect prepareSingleStorePush
                singleStoreFilterStatements singleStoreLogSuggestionsAndReturn
                schemaPath credentials tablesFilter strict verbose force c)
      as (o & c' & evs & Hrun & Hseq & _ & _ & Hiss & Hc').
    exists o, c', evs. split; [exact Hrun|].
    split; [intros i j s1 s2; by apply sequential_settled_between|].
    split; [exact Hc'|].
    intros database schema statements s sqls Hconn Hint Hprep Hcl Hj.
    split; [by apply (Hiss database schema statements s sqls)|].
    intros Hne. rewrite singlestorePush_eq, Hconn, Hint, Hprep in Hrun.
    exact (pushStatements_ordered _ _ _ _ _ _ _ _ _ _ _ _ Hne Hcl Hj Hrun).
  - intros schemaPath credentials tablesFilter strict verbose force c.
    destruct (mysqlPush_trace user JsonStatement SchemaPath fromJson
                MysqlCredentials MySqlSchema connectToMySQL
                mysqlPushIntrospect prepareMySQLPush
                mySqlFilterStatements mySqlLogSuggestionsAndReturn
                schemaPath credentials tablesFilter strict verbose force c)
      as (o & c' & evs & Hrun & Hseq & _ & _ & Hiss & Hc').
    exists o, c', evs. split; [exact Hrun|].
    split; [intros i j s1 s2; by apply sequential_settled_between|].
    split; [exact Hc'|].
    intros database schema statements s sqls Hconn Hint Hprep Hcl Hj.
    split; [by apply (Hiss database schema statements s sqls)|].
    intros Hne. rewrite mysqlPush_eq, Hconn, Hint, Hprep in Hrun.
    exact (pushStatements_ordered _ _ _ _ _ _ _ _ _ _ _ _ Hne Hcl Hj Hrun).
Qed.

End PushFacts.

(** ** The deduplication loop *)

Lemma filter_ne_id (x : string) (xs : list string) :
  x ∉ xs -> filter (fun y => y <> x) xs = xs.
Proof.
  induction xs as [|y xs IH]; [reflexivity|].
  intros [Hxy Hx]%not_elem_of_cons.
  rewrite filter_cons_True by congruence. f_equal. by apply IH.
Qed.

Lemma first_occurrences_NoDup_id (xs : list string) :
  NoDup xs -> Cli.first_occurrences xs = xs.
Proof.
  induction 1 as [|x xs Hx Hxs IH]; [reflexivity|].
  cbn [Cli.first_occurrences]. rewrite IH. f_equal. by apply filter_ne_id.
Qed.

Lemma first_occurrences_length (xs : list string) :
  length (Cli.first_occurrences xs) <= length xs.
Proof.
  induction xs as [|x xs IH]; [reflexivity|].
  cbn [Cli.first_occurrences length].
  pose proof (length_filter (fun y => y <> x) (Cli.first_occurrences xs)). lia.
Qed.

(** X14: the loop that removes duplicate statements leaves a list without
    repetition as it is, and only such a list; it never makes the list
    longer; and running it a second time changes nothing. *)
Theorem uniqueStatements_fixpoints (xs : list string) :
  (Cli.uniqueStatements xs = xs <-> NoDup xs)
  /\ length (Cli.uniqueStatements xs) <= length xs
  /\ Cli.uniqueStatements (Cli.uniqueStatements xs) = Cli.uniqueStatements xs.
Proof.
  rewrite !uniqueStatements_first_occurrences.
  split; [|split].
  - split; [intros <-; apply first_occurrences_NoDup|apply first_occurrences_NoDup_id].
  - apply first_occurrences_length.
  - apply first_occurrences_NoDup_id, first_occurrences_NoDup.
Qed.

(** ** The further properties on concrete runs *)

Lemma push_rejection_halts_witness :
  (exists pre,
      (Sample.singlestorePush Example.approves false false true []).2
      = pre ++ [Issued "REJECT"; Settled "REJECT" false; LoggedError DriverError])
  /\ (exists pre,
      (Sample.mysqlPush Example.approves false false true []).2
      = pre ++ [Issued "REJECT"; Settled "REJECT" false; LoggedError DriverError]).
Proof.
  pose proof (@push_rejection_halts (list string) Example.log_db Example.approves
                string unit Example.fromJson unit unit unit unit
                Example.connect Example.cliIntrospect Sample.preparePush
                Example.filterStatements Sample.failing
                Example.connect Example.cliIntrospect Sample.preparePush
                Example.filterStatements Sample.failing) as [HS HM].
  assert (Hin : Settled "REJECT" false
                ∈ [Issued Sample.create_users; Settled Sample.create_users true;
                   Issued "REJECT"; Settled "REJECT" false; LoggedError DriverError]).
  { rewrite !elem_of_cons. tauto. }
  split.
  - destruct (HS tt tt [] false false true [] (Ret tt) [Sample.create_users] _ "REJECT"
                eq_refl Hin) as (_ & (pre & Hpre & _) & _).
    exists pre. exact Hpre.
  - destruct (HM tt tt [] false false true [] (Ret tt) [Sample.create_users] _ "REJECT"
                eq_refl Hin) as (_ & (pre & Hpre & _) & _).
    exists pre. exact Hpre.
Defined.

Lemma push_no_changes_witness :
  Sample.idlePush Example.refuses true true false [] = (Ret tt, [], [Rendered NoChanges])
  /\ Rendered NoChanges ∉ (Example.mysqlPush Example.approves false false true []).2.
Proof.
  split.
  - apply (proj1 (@push_no_changes (list string) Example.log_db Example.refuses
                    string unit Example.fromJson unit unit unit unit
                    Example.connect Example.cliIntrospect Sample.nothingPrepared
                    Example.filterStatements Sample.failing
                    Example.connect Example.cliIntrospect Sample.nothingPrepared
                    Example.filterStatements Sample.failing)
             tt tt [] true true false [] "drizzle" tt
             (Cli.mkPreparedPush None tt tt) eq_refl eq_refl eq_refl).
    reflexivity.
  - intros Hin.
    apply (proj2 (@push_no_changes (list string) Example.log_db Example.approves
                    string unit Example.fromJson unit unit unit unit
                    Example.connect Example.cliIntrospect Example.preparePush
                    Example.filterStatements Example.classifier
                    Example.connect Example.cliIntrospect Example.preparePush
                    Example.filterStatements Example.classifier)
             tt tt [] false false true [] "drizzle" tt
             (Cli.mkPreparedPush
                (Some [Example.create_index; Example.drop_users; Example.create_index])
                tt tt)
             eq_refl eq_refl eq_refl) in Hin.
    discriminate Hin.
Defined.

Lemma push_asks_at_most_once_witness :
  (ConfirmAll ∉ prompts ((Example.singlestorePush Example.approves false true false []).2))
  /\ length (prompts ((Example.mysqlPush Example.refuses true true false []).2)) <= 1.
Proof.
  pose proof (@push_asks_at_most_once (list string) Example.log_db Example.approves
                string unit Example.fromJson unit unit unit unit
                Example.connect Example.cliIntrospect Example.preparePush
                Example.filterStatements Example.classifier
                Example.connect Example.cliIntrospect Example.preparePush
                Example.filterStatements Example.classifier) as [HS _].
  pose proof (@push_asks_at_most_once (list string) Example.log_db Example.refuses
                string unit Example.fromJson unit unit unit unit
                Example.connect Example.cliIntrospect Example.preparePush
                Example.filterStatements Example.classifier
                Example.connect Example.cliIntrospect Example.preparePush
                Example.filterStatements Example.classifier) as [_ HM].
  split.
  - intros Hin. destruct (proj2 (HS tt tt [] false true false []) Hin) as [Hstrict _].
    discriminate Hstrict.
  - exact (proj1 (HM tt tt [] true true false [])).
Defined.

Lemma push_strict_only_without_data_loss_witness :
  Sample.carefulPush Example.refuses true true false []
  = Sample.carefulPush Example.refuses false true false []
  /\ Example.mysqlPush Example.approves true false true []
     = Example.mysqlPush Example.approves false false true [].
Proof.
  split.
  - apply (proj1 (@push_strict_only_without_data_loss (list string) Example.log_db
                    Example.refuses string unit Example.fromJson unit unit unit unit
                    Example.connect Example.cliIntrospect Example.preparePush
                    Example.filterStatements Sample.careful
                    Example.connect Example.cliIntrospect Example.preparePush
                    Example.filterStatements Sample.careful)
             tt tt [] true false []).
    right. by intros database schema statements s _ _ [= <-] [= <-].
  - apply (proj2 (@push_strict_only_without_data_loss (list string) Example.log_db
                    Example.approves string unit Example.fromJson unit unit unit unit
                    Example.connect Example.cliIntrospect Example.preparePush
                    Example.filterStatements Example.classifier
                    Example.connect Example.cliIntrospect Example.preparePush
                    Example.filterStatements Example.classifier)
             tt tt [] false true []).
    by left.
Defined.

Lemma push_statement_counts_witness :
  length (filter (fun y => y = Example.drop_users)
            (issued (Example.singlestorePush Example.approves false false true []).2))
  = 2
  /\ length (filter (fun y => y = Example.create_index)
               (issued (Example.mysqlPush Example.approves false false true []).2))
     = 1.
Proof.
  pose proof (@push_statement_counts (list string) Example.log_db Example.approves
                string unit Example.fromJson unit unit unit unit
                Example.connect Example.cliIntrospect Example.preparePush
                Example.filterStatements Example.classifier
                Example.connect Example.cliIntrospect Example.preparePush
                Example.filterStatements Example.classifier) as [HS HM].
  assert (Hin : Rendered Applied
                ∈ [Issued Example.drop_users; Settled Example.drop_users true;
                   Issued Example.create_index; Settled Example.create_index true;
                   Issued Example.drop_users; Settled Example.drop_users true;
                   Rendered Applied]).
  { rewrite !elem_of_cons. tauto. }
  split.
  - exact (HS tt tt [] false false true [] "drizzle" tt _ _ _ Example.drop_users
             eq_refl eq_refl eq_refl eq_refl eq_refl Hin).
  - exact (HM tt tt [] false false true [] "drizzle" tt _ _ _ Example.create_index
             eq_refl eq_refl eq_refl eq_refl eq_refl Hin).
Defined.

Lemma apply_issues_reported_statements_witness :
  (exists c1,
      apply Example.pushed [Example.create_index]
      = (Ret tt, c1, accepted (res_statementsToExecute Example.pushed)))
  \/ (exists c1 l1 x l2,
        res_statementsToExecute Example.pushed = l1 ++ x :: l2
        /\ apply Example.pushed [Example.create_index]
           = (Throw DriverError, c1, accepted l1 ++ [Issued x; Settled x false])).
Proof.
  apply (@apply_issues_reported_statements (list string) Example.log_db string
           Example.originUUID unit unit Example.prepareFromExports
           Example.generateSnapshot Example.differ Example.introspect
           Example.classifier tt "drizzle" "0d7a" [] Example.pushed [] []).
  vm_compute. reflexivity.
Defined.

Lemma uniqueStatements_fixpoints_witness :
  NoDup (Cli.uniqueStatements [Example.create_index; Example.drop_users]).
Proof.
  apply (proj1 (uniqueStatements_fixpoints
                  (Cli.uniqueStatements [Example.create_index; Example.drop_users]))).
  apply (proj2 (proj2 (uniqueStatements_fixpoints
                         [Example.create_index; Example.drop_users]))).
Defined.

(** ** The table filter of the introspection *)

Section IntrospectFacts.
Import Introspect.

(** What one matcher adds to [flags]. *)
Local Abbreviation pushed_by t :=
  (fun m : Matcher =>
     (if negate m then if negb (matches m t) then [false] else [] else [])
     ++ (if matches m t then [true] else [])).

Lemma tableFilter_flags (tableName : string) (matchers : list Matcher) (flags : list bool) :
  fold_left
    (fun (flags : list bool) matcher =>
       let flags :=
         if negate matcher
         then if negb (matches matcher tableName) then flags ++ [false] else flags
         else flags in
       if matches matcher tableName then flags ++ [true] else flags)
    matchers flags
  = flags ++ flat_map (pushed_by tableName) matchers.
Proof.
  revert flags. induction matchers as [|m ms IH]; intros flags.
  - by rewrite app_nil_r.
  - cbn [fold_left flat_map]. rewrite IH, !app_assoc. f_equal.
    destruct (negate m), (matches m tableName); cbn [negb app];
      by rewrite <- ?app_assoc, ?app_nil_r.
Qed.

Lemma flags_all_true (tableName : string) (matchers : list Matcher) :
  forallb (fun flag => flag) (flat_map (pushed_by tableName) matchers) = true
  <-> forall m, m ∈ matchers -> negate m = true -> matches m tableName = true.
Proof.
  induction matchers as [|m ms IH].
  - split; [by intros _ m ?%elem_of_nil|reflexivity].
  - cbn [flat_map]. rewrite forallb_app, andb_true_iff, IH. split.
    + intros [Hm Hms] m' [->|Hin]%elem_of_cons Hneg; [|by apply Hms].
      rewrite Hneg in Hm. by destruct (matches m tableName).
    + intros Hall. split.
      * pose proof (Hall m (list_elem_of_here _ _)) as Hm.
        destruct (negate m); [by rewrite Hm|]. by destruct (matches m tableName).
      * intros m' Hin. apply Hall. by right.
Qed.

Lemma flags_nonempty (tableName : string) (matchers : list Matcher) :
  Nat.ltb 0 (length (flat_map (pushed_by tableName) matchers)) = true
  <-> exists m, m ∈ matchers /\ (matches m tableName = true \/ negate m = true).
Proof.
  induction matchers as [|m ms IH].
  - split; [done|by intros (m & ?%elem_of_nil & _)].
  - cbn [flat_map]. rewrite length_app. split.
    + intros Hlen.
      destruct (matches m tableName) eqn:Hm; [exists m; split; [by left|by left]|].
      destruct (negate m) eqn:Hneg; [exists m; split; [by left|by right]|].
      cbn [app length Nat.add] in Hlen. apply IH in Hlen as (m' & Hin & Hm').
      exists m'. split; [by right|exact Hm'].
    + intros (m' & [->|Hin]%elem_of_cons & Hm').
      * destruct Hm' as [-> | ->]; [by destruct (negate m)|].
        by destruct (matches m tableName).
      * apply Nat.ltb_lt. assert (Hms : exists m, m ∈ ms /\ (matches m tableName = true
                                                           \/ negate m = true))
          by (by exists m').
        apply IH, Nat.ltb_lt in Hms. lia.
Qed.

(** X15: the filter that [singlestorePushIntrospect] hands to the
    serializer lets every table pass when no pattern is given; with
    patterns, a table passes exactly when some pattern matches it and every
    negated pattern matches it.  A table that no pattern matches is left
    out, and so is a table that a negated pattern excludes, whatever the
    other patterns say. *)
Theorem tableFilter_passes (matchers : list Matcher) (tableName : string) :
  tableFilter matchers tableName = true
  <-> matchers = []
      \/ ((exists m, m ∈ matchers /\ matches m tableName = true)
          /\ forall m, m ∈ matchers -> negate m = true -> matches m tableName = true).
Proof.
  unfold tableFilter. destruct matchers as [|m0 ms]; [by split; [left|]|].
  cbn [length Nat.eqb]. rewrite tableFilter_flags. cbn [app].
  set (matchers := m0 :: ms).
  destruct (Nat.ltb 0 (length (flat_map (pushed_by tableName) matchers))) eqn:Hlen.
  - apply flags_nonempty in Hlen as (m & Hin & Hm). rewrite flags_all_true. split.
    + intros Hall. right. split; [|exact Hall].
      exists m. split; [exact Hin|]. destruct Hm as [Hm|Hm]; [exact Hm|by apply Hall].
    + by intros [?|[_ Hall]].
  - split; [done|]. intros [?|[(m & Hin & Hm) _]]; [done|].
    assert (Hex : exists m, m ∈ matchers /\ (matches m tableName = true \/ negate m = true))
      by (exists m; by split; [|left]).
    apply flags_nonempty in Hex. congruence.
Qed.

Context {Conn : Type}.
Variable originUUID : string.
Variable Minimatch : string -> Matcher.
Variable fromDatabase :
  Conn -> string -> (string -> bool) -> result (gmap string jsonValue).

Variable renderWithTask :
  string * string -> M Conn (gmap string jsonValue) -> M Conn (gmap string jsonValue).

(** X16: [singlestorePushIntrospect] hands [renderWithTask] the progress
    view with the label 'Pulling schema from database...' (twice) and the
    serializer's read of the database under the table filter of the
    patterns, and ends as that call ends: same connection, same events, and
    when the call raises or exits, so does the introspection.  In the schema
    it returns, the member [internal] is absent, [id] and [prevId] are
    those of the result when it has them and the origin id and the empty
    string otherwise, and every other member is the result's. *)
Theorem singlestorePushIntrospect_schema (databaseName : string) (filters : list string)
    (c : Conn) (o : outcome (gmap string jsonValue)) (c' : Conn) (evs : list event) :
  renderWithTask
    ("Pulling schema from database...", "Pulling schema from database...")
    (reads (fun db => fromDatabase db databaseName (tableFilter (map Minimatch filters)))) c
  = (o, c', evs) ->
  match o with
  | Ret res =>
      exists schema,
        singlestorePushIntrospect originUUID Minimatch fromDatabase renderWithTask
          databaseName filters c
        = (Ret schema, c', evs)
        /\ schema !! "internal" = None
        /\ schema !! "id" = Some (default (JStr originUUID) (res !! "id"))
        /\ schema !! "prevId" = Some (default (JStr "") (res !! "prevId"))
        /\ forall key, key <> "internal" -> key <> "id" -> key <> "prevId" ->
             schema !! key = res !! key
  | Throw e =>
      singlestorePushIntrospect originUUID Minimatch fromDatabase renderWithTask
        databaseName filters c
      = (Throw e, c', evs)
  | Exit n =>
      singlestorePushIntrospect originUUID Minimatch fromDatabase renderWithTask
        databaseName filters c
      = (Exit n, c', evs)
  end.
Proof.
  intros Hrun. unfold singlestorePushIntrospect, bind. cbv zeta. rewrite Hrun.
  destruct o as [res|e|n]; [|reflexivity|reflexivity].
  unfold ret. rewrite app_nil_r.
  eexists. split; [reflexivity|].
  split; [apply lookup_delete_eq|].
  split; [|split].
  - rewrite lookup_delete_ne by done. rewrite lookup_union.
    rewrite lookup_insert_ne by done. rewrite lookup_insert_eq.
    by destruct (res !! "id").
  - rewrite lookup_delete_ne by done. rewrite lookup_union, lookup_insert_eq.
    by destruct (res !! "prevId").
  - intros key H1 H2 H3. rewrite lookup_delete_ne by done.
    rewrite lookup_union, !lookup_insert_ne, lookup_empty by done.
    by destruct (res !! key).
Qed.

End IntrospectFacts.

(** ** The other push commands *)

Section GateFacts.
Context {Conn : Type} `{DB Conn}.
Variable user : question -> option nat.

Local Abbreviation dataLoss s :=
  (ConfirmDataLoss (length (tablesToRemove s)) (length (columnsToRemove s))
     (length (tablesToTruncate s))).

Local Abbreviation asked s strict force :=
  (if negb force && shouldAskForApprove s
   then [LoggedWarnings (infoToPrint s); Asked (dataLoss s) (user (dataLoss s))]
   else if negb force && strict then [Asked ConfirmAll (user ConfirmAll)] else []).

Local Abbreviation aborts s strict force :=
  (negb force
   && (if shouldAskForApprove s then bool_decide (user (dataLoss s) = Some 0%nat)
       else strict && bool_decide (user ConfirmAll = Some 0%nat))).

(** The two prompts, one after the other, and what follows them. *)
Lemma confirm_eq {B} (strict force : bool) (s : Suggestions) (k : M Conn B) (c : Conn) :
  (PushMore.confirmAll user strict force s ;;;
   PushMore.confirmDataLoss user force s ;;; k) c
  = if aborts s strict force
    then (Exit 0, c, asked s strict force ++ [Rendered Aborted])
    else let '(o, c', evs) := k c in (o, c', asked s strict force ++ evs).
Proof.
  unfold PushMore.confirmAll, PushMore.confirmDataLoss.
  destruct force, strict, (shouldAskForApprove s); cbn [negb andb];
    repeat case_bool_decide;
    repeat first
      [ rewrite bind_assoc | rewrite bind_emit | rewrite bind_ask
      | rewrite bind_ret_l | rewrite bind_exit
      | rewrite bool_decide_eq_true_2 by assumption
      | rewrite bool_decide_eq_false_2 by assumption ];
    try reflexivity;
    by destruct (k c) as [[o c'] evs].
Qed.

Lemma bind_then_emit {A} (m : M Conn A) (e : event) (c : Conn) :
  (m ;;; emit e) c
  = match m c with
    | (Ret _, c', evs) => (Ret tt, c', evs ++ [e])
    | (Throw err, c', evs) => (Throw err, c', evs)
    | (Exit n, c', evs) => (Exit n, c', evs)
    end.
Proof. unfold bind. by destruct (m c) as [[[a|err|n] c'] evs]. Qed.

Lemma asked_events (s : Suggestions) (strict force : bool) (ev : event) :
  ev ∈ asked s strict force ->
  (exists w, ev = LoggedWarnings w) \/ (exists q a, ev = Asked q a).
Proof.
  destruct (negb force && shouldAskForApprove s), (negb force && strict);
    rewrite ?elem_of_cons, ?elem_of_nil; intros Hin;
    repeat match goal with
           | Hor : _ \/ _ |- _ => destruct Hor as [Hor|Hor]
           | Heq : ev = _ |- _ => rewrite Heq
           end;
    try done; eauto.
Qed.

Lemma sequential_accepted (l : list string) (rest : list event) :
  sequential (accepted l ++ rest) = sequential rest.
Proof.
  induction l as [|x l IH]; [reflexivity|].
  cbn. rewrite String.eqb_refl. exact IH.
Qed.

(** What a command shows before the first statement: the list of
    statements if it logs it, and the prompt. *)
Local Abbreviation shownWith logs s strict force :=
  ((if logs then [LoggedStatements (statementsToExecute s)] else [])
   ++ asked s strict force).

Lemma rendered_app (e1 e2 : list event) : rendered (e1 ++ e2) = rendered e1 ++ rendered e2.
Proof. apply omap_app. Qed.

Lemma rejected_app (e1 e2 : list event) : rejected (e1 ++ e2) = rejected e1 ++ rejected e2.
Proof. apply omap_app. Qed.

Lemma rendered_accepted (l : list string) : rendered (accepted l) = [].
Proof. induction l as [|x l IH]; [reflexivity|]. cbn. exact IH. Qed.

Lemma rejected_accepted (l : list string) : rejected (accepted l) = [].
Proof. induction l as [|x l IH]; [reflexivity|]. cbn. exact IH. Qed.

Lemma elem_of_rendered (m : message) (evs : list event) :
  Rendered m ∈ evs <-> m ∈ rendered evs.
Proof.
  unfold rendered. rewrite list_elem_of_omap. split.
  - intros Hin. by exists (Rendered m).
  - intros (ev & Hin & Hev). destruct ev; try done. by injection Hev as ->.
Qed.

Lemma elem_of_rejected (x : string) (evs : list event) :
  Settled x false ∈ evs <-> x ∈ rejected evs.
Proof.
  unfold rejected. rewrite list_elem_of_omap. split.
  - intros Hin. by exists (Settled x false).
  - intros (ev & Hin & Hev). destruct ev as [| ? []| | | | |]; try done.
    by injection Hev as ->.
Qed.

Lemma shownWith_facts (logs : bool) (s : Suggestions) (strict force : bool) :
  let sh := shownWith logs s strict force in
  issued sh = []
  /\ rendered sh = []
  /\ rejected sh = []
  /\ prompts sh
     = (if negb force && shouldAskForApprove s then [dataLoss s]
        else if negb force && strict then [ConfirmAll] else [])
  /\ (forall rest, sequential (sh ++ rest) = sequential rest)
  /\ (force = false -> shouldAskForApprove s = true ->
      forall rest,
        approved_before_issue (sh ++ rest)
        = if bool_decide (user (dataLoss s) = Some 0%nat)
          then bool_decide (issued rest = []) else true).
Proof.
  cbv zeta. destruct logs, force, strict, (shouldAskForApprove s); cbn [negb andb];
    repeat split; try done; by intros _ ? rest.
Qed.

Lemma run_inj {A} (o o' : outcome A) (c c' : Conn) (evs evs' : list event) :
  (o, c, evs) = (o', c', evs') -> o' = o /\ c' = c /\ evs' = evs.
Proof. by intros [= -> -> ->]. Qed.

(** A trace without a statement passes both readings of the gate. *)
Lemma approved_no_issue (evs : list event) :
  issued evs = [] -> approved_before_issue evs = true /\ explicitly_approved evs = true.
Proof.
  induction evs as [|ev evs IH]; [done|].
  destruct ev as [sql|sql ok|q a|m|l|w|e]; cbn; try exact IH; [discriminate|].
  intros Hi. destruct q as [|x y z]; [by apply IH|].
  rewrite (bool_decide_eq_true_2 _ Hi). split; [by destruct (bool_decide _)|].
  by destruct a as [[|n]|].
Qed.

(** What the data-loss prompt guards in a run from [c] to [c'] with events
    [evs]: the answer [No, abort] leaves the connection as it was; a
    statement is issued only after the prompt, and only when it returned
    something else than [No, abort], be it no answer at all. *)
#[warnings="-inconsistent-scopes"] Local Abbreviation gated s c c' evs :=
  (approved_before_issue evs = true
   /\ (user (dataLoss s) <> None -> explicitly_approved evs = true)
   /\ (user (dataLoss s) = Some 0%nat -> issued evs = [] /\ c' = c)
   /\ (issued evs <> [] ->
       exists pre post,
         evs = pre ++ Asked (dataLoss s) (user (dataLoss s)) :: post
         /\ issued pre = [] /\ prompts pre = []
         /\ user (dataLoss s) <> Some 0%nat)).

Lemma gated_idle (s : Suggestions) (c : Conn) (evs : list event) :
  issued evs = [] -> gated s c c evs.
Proof.
  intros Hi. destruct (approved_no_issue evs Hi) as [Ha He].
  split; [exact Ha|]. split; [by intros _|]. split; [by intros _|]. by intros Hne.
Qed.

Lemma gated_shown (logs : bool) (s : Suggestions) (strict : bool) (c c' : Conn)
    (rest : list event) :
  shouldAskForApprove s = true ->
  user (dataLoss s) <> Some 0%nat ->
  gated s c c' (shownWith logs s strict false ++ rest).
Proof.
  intros Hask Hans. rewrite Hask. cbn [negb andb].
  split; [destruct logs; cbn; by rewrite bool_decide_eq_false_2|].
  split.
  { intros Hsome. destruct (user (dataLoss s)) as [[|n]|] eqn:Ha; [done| |done].
    by destruct logs. }
  split; [done|]. intros _.
  exists ((if logs then [LoggedStatements (statementsToExecute s)] else [])
          ++ [LoggedWarnings (infoToPrint s)]), rest.
  split; [by rewrite <- !app_assoc|].
  split; [by destruct logs|]. split; [by destruct logs|exact Hans].
Qed.

Variables JsonStatement SchemaPath : Type.
Variables PostgresCredentials PgSchema : Type.
Variable preparePostgresDB : PostgresCredentials -> result unit.
Variable pgPushIntrospect : Conn -> list string -> list string -> result PgSchema.
Variable preparePgPush :
  SchemaPath -> PgSchema -> list string -> result (DiffResult JsonStatement).
Variable pgSuggestions : Conn -> list JsonStatement -> result Suggestions.

Local Abbreviation pgPush :=
  (PushMore.pgPush user JsonStatement SchemaPath PostgresCredentials PgSchema
     preparePostgresDB pgPushIntrospect preparePgPush pgSuggestions).


(** [pgPush] as one equation. *)
Lemma pgPush_eq (schemaPath : SchemaPath) (verbose strict : bool)
    (credentials : PostgresCredentials) (tablesFilter schemasFilter : list string)
    (force : bool) (c : Conn) :
  pgPush schemaPath verbose strict credentials tablesFilter schemasFilter force c
  = match preparePostgresDB credentials with
    | Err e => (Throw e, c, [])
    | Ok _ =>
        match pgPushIntrospect c tablesFilter schemasFilter with
        | Err e => (Throw e, c, [])
        | Ok schema =>
            match preparePgPush schemaPath schema schemasFilter with
            | Err e => (Throw e, c, [])
            | Ok prepared =>
                match sqlStatements prepared with
                | [] => (Ret tt, c, [Rendered NoChanges])
                | _ :: _ =>
                    match pgSuggestions c (statements prepared) with
                    | Err e => (Ret tt, c, [LoggedError e])
                    | Ok s =>
                        if aborts s strict force
                        then (Exit 0, c, shownWith verbose s strict force ++ [Rendered Aborted])
                        else
                          match for_await (statementsToExecute s) (fun sql => query sql) c with
                          | (Ret _, c', ex) =>
                              (Ret tt, c',
                               shownWith verbose s strict force ++ ex
                               ++ [Rendered (match statements prepared with
                                             | [] => NoChanges
                                             | _ :: _ => Applied
                                             end)])
                          | (Throw e, c', ex) =>
                              (Ret tt, c',
                               shownWith verbose s strict force ++ ex ++ [LoggedError e])
                          | (Exit n, c', ex) =>
                              (Exit n, c', shownWith verbose s strict force ++ ex)
                          end
                    end
                end
            end
        end
    end.
Proof.
  unfold PushMore.pgPush.
  destruct (preparePostgresDB credentials) as [[]|e];
    [rewrite bind_lift_Ok|by rewrite bind_lift_Err].
  destruct (pgPushIntrospect c tablesFilter schemasFilter) as [schema|e] eqn:Hint.
  2: { by rewrite (bind_reads_Err (fun db => pgPushIntrospect db tablesFilter schemasFilter)
                     _ _ c Hint). }
  rewrite (bind_reads_Ok (fun db => pgPushIntrospect db tablesFilter schemasFilter)
             _ _ c Hint).
  destruct (preparePgPush schemaPath schema schemasFilter) as [prepared|e];
    [rewrite bind_lift_Ok|by rewrite bind_lift_Err].
  unfold try_catch.
  destruct (sqlStatements prepared) as [|sql sqls]; [reflexivity|].
  cbn [length Nat.eqb].
  destruct (pgSuggestions c (statements prepared)) as [s|e] eqn:Hs.
  2: { by rewrite (bind_reads_Err (fun db => pgSuggestions db (statements prepared))
                     _ _ c Hs). }
  rewrite (bind_reads_Ok (fun db => pgSuggestions db (statements prepared)) _ _ c Hs).
  assert (Hlast :
    (if Nat.ltb 0 (length (statements prepared))
     then emit (Conn:=Conn) (Rendered Applied) else emit (Rendered NoChanges))
    = emit (Rendered (match statements prepared with [] => NoChanges | _ :: _ => Applied end)))
    by (by destruct (statements prepared)).
  rewrite Hlast.
  destruct verbose.
  - rewrite bind_emit, confirm_eq. destruct (aborts s strict force); [reflexivity|].
    rewrite bind_then_emit.
    destruct (for_await (statementsToExecute s) _ c) as [[[[]|e|n] c'] ex];
      cbn; by rewrite <- ?app_assoc.
  - rewrite bind_ret_l, confirm_eq. destruct (aborts s strict force); [reflexivity|].
    rewrite bind_then_emit.
    destruct (for_await (statementsToExecute s) _ c) as [[[[]|e|n] c'] ex];
      cbn; by rewrite <- ?app_assoc.
Qed.

(** The shapes of a run of [pgPush] that reaches the classifier. *)
Lemma pgPush_forms (schemaPath : SchemaPath) (verbose strict : bool)
    (credentials : PostgresCredentials) (tablesFilter schemasFilter : list string)
    (force : bool) (c : Conn) (schema : PgSchema) (prepared : DiffResult JsonStatement)
    (s : Suggestions) :
  preparePostgresDB credentials = Ok tt ->
  pgPushIntrospect c tablesFilter schemasFilter = Ok schema ->
  preparePgPush schemaPath schema schemasFilter = Ok prepared ->
  sqlStatements prepared <> [] ->
  pgSuggestions c (statements prepared) = Ok s ->
  (aborts s strict force = true
   /\ pgPush schemaPath verbose strict credentials tablesFilter schemasFilter force c
      = (Exit 0, c, shownWith verbose s strict force ++ [Rendered Aborted]))
  \/ (aborts s strict force = false
      /\ exists c',
          pgPush schemaPath verbose strict credentials tablesFilter schemasFilter force c
          = (Ret tt, c',
             shownWith verbose s strict force ++ accepted (statementsToExecute s)
             ++ [Rendered (match statements prepared with
                           | [] => NoChanges
                           | _ :: _ => Applied
                           end)]))
  \/ (aborts s strict force = false
      /\ exists c' l1 x l2,
          statementsToExecute s = l1 ++ x :: l2
          /\ pgPush schemaPath verbose strict credentials tablesFilter schemasFilter force c
             = (Ret tt, c',
                shownWith verbose s strict force ++ accepted l1
                ++ [Issued x; Settled x false; LoggedError DriverError])).
Proof.
  intros Hdb Hint Hprep Hsql Hs. rewrite pgPush_eq, Hdb, Hint, Hprep, Hs.
  destruct (sqlStatements prepared) as [|sql sqls]; [done|].
  destruct (aborts s strict force); [by left|right].
  destruct (for_await_query_cases (statementsToExecute s) c)
    as [(c' & ->)|(c' & l1 & x & l2 & Hsts & ->)].
  - left. split; [reflexivity|]. by exists c'.
  - right. split; [reflexivity|]. exists c', l1, x, l2. split; [exact Hsts|].
    by rewrite <- !app_assoc.
Qed.

(** X17: [pgPush] issues the classifier's statements as they are listed,
    duplicates included, and never the rendered SQL of the diff, of which it
    only reads the length.  When it shows [Changes applied] every listed
    statement was issued and none rejected; it shows [No changes detected]
    either at once, when the diff rendered no SQL, or after having issued all
    the statements, when the diff holds no JSON statement. *)
Theorem pgPush_statements
    (schemaPath : SchemaPath) (verbose strict : bool)
    (credentials : PostgresCredentials) (tablesFilter schemasFilter : list string)
    (force : bool) (c : Conn) (schema : PgSchema) (prepared : DiffResult JsonStatement)
    (s : Suggestions) (o : outcome unit) (c' : Conn) (evs : list event) :
  preparePostgresDB credentials = Ok tt ->
  pgPushIntrospect c tablesFilter schemasFilter = Ok schema ->
  preparePgPush schemaPath schema schemasFilter = Ok prepared ->
  pgSuggestions c (statements prepared) = Ok s ->
  pgPush schemaPath verbose strict credentials tablesFilter schemasFilter force c
  = (o, c', evs) ->
  issued evs `prefix_of` statementsToExecute s
  /\ (Rendered Applied ∈ evs ->
      issued evs = statementsToExecute s
      /\ rejected evs = []
      /\ statements prepared <> [])
  /\ (Rendered NoChanges ∈ evs ->
      (sqlStatements prepared = [] /\ evs = [Rendered NoChanges])
      \/ (statements prepared = [] /\ issued evs = statementsToExecute s)).
Proof.
  intros Hdb Hint Hprep Hs Hrun.
  destruct (decide (sqlStatements prepared = [])) as [Hsql|Hsql].
  { rewrite pgPush_eq, Hdb, Hint, Hprep, Hsql in Hrun. injection Hrun as <- <- <-.
    split; [apply prefix_nil|]. split; [|by left].
    by intros ?%list_elem_of_singleton. }
  rewrite !elem_of_rendered.
  destruct (shownWith_facts verbose s strict force) as (Hi & Hr & Hj & _).
  destruct (pgPush_forms schemaPath verbose strict credentials tablesFilter schemasFilter
              force c schema prepared s Hdb Hint Hprep Hsql Hs)
    as [[_ Heq]|[(_ & c1 & Heq)|(_ & c1 & l1 & x & l2 & Hsts & Heq)]];
    rewrite Heq in Hrun; injection Hrun as <- <- <-;
    set (sh := shownWith verbose s strict force) in *; clearbody sh;
    rewrite !issued_app, !rendered_app, ?rejected_app, Hi, Hr, ?Hj,
      ?issued_accepted, ?rendered_accepted, ?rejected_accepted; cbn.
  - split; [apply prefix_nil|].
    split; rewrite list_elem_of_singleton; discriminate.
  - rewrite app_nil_r. split; [reflexivity|].
    destruct (statements prepared); rewrite !list_elem_of_singleton.
    + split; [discriminate|]. intros _. by right.
    + split; [done|discriminate].
  - rewrite Hsts. split; [|split; by intros ?%elem_of_nil].
    rewrite (cons_middle x l1 l2), app_assoc. by apply prefix_app_r.
Qed.

(** Every run of [pgPush], read as a trace. *)
Lemma pgPush_trace
    (schemaPath : SchemaPath) (verbose strict : bool)
    (credentials : PostgresCredentials) (tablesFilter schemasFilter : list string)
    (force : bool) (c : Conn) (o : outcome unit) (c' : Conn) (evs : list event) :
  pgPush schemaPath verbose strict credentials tablesFilter schemasFilter force c
  = (o, c', evs) ->
  sequential evs = true
  /\ length (prompts evs) <= 1
  /\ (force = true -> prompts evs = [])
  /\ (forall e, o = Throw e -> c' = c /\ evs = [])
  /\ (forall n, o = Exit n -> n = 0%nat /\ c' = c /\ issued evs = [] /\ force = false).
Proof.
  intros Hrun.
  assert (Hidle : forall ev,
            (ev = Rendered NoChanges \/ exists e, ev = LoggedError e) ->
            (o, c', evs) = (Ret tt, c, [ev]) ->
            sequential evs = true
            /\ length (prompts evs) <= 1
            /\ (force = true -> prompts evs = [])
            /\ (forall e, o = Throw e -> c' = c /\ evs = [])
            /\ (forall n, o = Exit n -> n = 0%nat /\ c' = c /\ issued evs = []
                                        /\ force = false)).
  { intros ev Hev [= -> -> ->].
    destruct Hev as [->|[e ->]]; repeat split; try done; cbn; lia. }
  assert (Hraise : forall e,
            (o, c', evs) = (Throw e, c, []) ->
            sequential evs = true
            /\ length (prompts evs) <= 1
            /\ (force = true -> prompts evs = [])
            /\ (forall e, o = Throw e -> c' = c /\ evs = [])
            /\ (forall n, o = Exit n -> n = 0%nat /\ c' = c /\ issued evs = []
                                        /\ force = false)).
  { intros e [= -> -> ->]. repeat split; try done. cbn; lia. }
  pose proof Hrun as Hrun'. rewrite pgPush_eq in Hrun'.
  destruct (preparePostgresDB credentials) as [[]|e] eqn:Hdb; [|by apply (Hraise e)].
  destruct (pgPushIntrospect c tablesFilter schemasFilter) as [schema|e] eqn:Hint;
    [|by apply (Hraise e)].
  destruct (preparePgPush schemaPath schema schemasFilter) as [prepared|e] eqn:Hprep;
    [|by apply (Hraise e)].
  destruct (sqlStatements prepared) as [|sql sqls] eqn:Hsql;
    [apply (Hidle (Rendered NoChanges)); [by left|done]|].
  destruct (pgSuggestions c (statements prepared)) as [s|e] eqn:Hs;
    [|apply (Hidle (LoggedError e)); [right; by exists e|done]].
  clear Hrun' Hidle Hraise.
  assert (Hne : sqlStatements prepared <> []) by (by rewrite Hsql).
  destruct (shownWith_facts verbose s strict force) as (Hi & _ & _ & Hp & Hseq & _).
  destruct (pgPush_forms schemaPath verbose strict credentials tablesFilter schemasFilter
              force c schema prepared s Hdb Hint Hprep Hne Hs)
    as [[Hab Heq]|[(Hab & c1 & Heq)|(Hab & c1 & l1 & x & l2 & Hsts & Heq)]];
    rewrite Heq in Hrun; injection Hrun as <- <- <-;
    set (sh := shownWith verbose s strict force) in *; clearbody sh;
    rewrite ?Hseq, ?sequential_accepted, !prompts_app, Hp, ?prompts_accepted,
      !issued_app, Hi, ?issued_accepted.
  - split; [reflexivity|].
    split; [destruct force, strict, (shouldAskForApprove s); cbn; lia|].
    split; [by intros ->|].
    split; [done|]. intros n [= <-]. by destruct force.
  - split; [reflexivity|].
    split; [destruct force, strict, (shouldAskForApprove s); cbn; lia|].
    split; [by intros ->|done].
  - split; [cbn; by rewrite String.eqb_refl|].
    split; [destruct force, strict, (shouldAskForApprove s); cbn; lia|].
    split; [by intros ->|done].
Qed.

(** X18: in every run of [pgPush] no statement is issued while another is
    outstanding, at most one prompt is shown and none with [force].  Without
    [force], when the classifier asks for approval of the statements of this
    run, no statement is issued before the data-loss prompt has returned, and
    none after [No, abort], which leaves the connection as it was; a
    statement is issued only when the prompt returned something else than
    [No, abort], be it no answer at all.  The command raises only before its
    [try] block, with no statement issued and no prompt shown, and exits only
    with code 0, without [force] and with nothing issued. *)
Theorem pgPush_gate
    (schemaPath : SchemaPath) (verbose strict : bool)
    (credentials : PostgresCredentials) (tablesFilter schemasFilter : list string)
    (force : bool) (c : Conn) (o : outcome unit) (c' : Conn) (evs : list event) :
  pgPush schemaPath verbose strict credentials tablesFilter schemasFilter force c
  = (o, c', evs) ->
  sequential evs = true
  /\ length (prompts evs) <= 1
  /\ (force = true -> prompts evs = [])
  /\ (force = false ->
      forall schema prepared s,
        pgPushIntrospect c tablesFilter schemasFilter = Ok schema ->
        preparePgPush schemaPath schema schemasFilter = Ok prepared ->
        pgSuggestions c (statements prepared) = Ok s ->
        shouldAskForApprove s = true ->
        gated s c c' evs)
  /\ (forall e, o = Throw e -> c' = c /\ issued evs = [] /\ prompts evs = [])
  /\ (forall n, o = Exit n -> n = 0%nat /\ c' = c /\ issued evs = [] /\ force = false).
Proof.
  intros Hrun.
  destruct (pgPush_trace _ _ _ _ _ _ _ _ _ _ _ Hrun) as (Hseq & Hlen & Hforce & Hthrow & Hexit).
  split; [exact Hseq|]. split; [exact Hlen|]. split; [exact Hforce|].
  split; [|split; [|exact Hexit]].
  2: { intros e He. by destruct (Hthrow e He) as [-> ->]. }
  intros -> schema prepared s Hint Hprep Hs Hask.
  pose proof Hrun as Hrun'. rewrite pgPush_eq, Hint, Hprep, Hs in Hrun'.
  destruct (preparePostgresDB credentials) as [[]|e] eqn:Hdb.
  2: { apply run_inj in Hrun' as (-> & -> & ->). by apply gated_idle. }
  destruct (sqlStatements prepared) as [|sql sqls] eqn:Hsql.
  { apply run_inj in Hrun' as (-> & -> & ->). by apply gated_idle. }
  clear Hrun'.
  assert (Hne : sqlStatements prepared <> []) by (by rewrite Hsql).
  destruct (shownWith_facts verbose s strict false) as (Hi & _).
  destruct (pgPush_forms schemaPath verbose strict credentials tablesFilter schemasFilter
              false c schema prepared s Hdb Hint Hprep Hne Hs)
    as [[Hab Heq]|[(Hab & c1 & Heq)|(Hab & c1 & l1 & x & l2 & Hsts & Heq)]];
    rewrite Heq in Hrun; apply run_inj in Hrun as (-> & -> & ->).
  - apply gated_idle. by rewrite issued_app, Hi.
  - apply gated_shown; [exact Hask|].
    rewrite Hask in Hab. by apply bool_decide_eq_false_1 in Hab.
  - apply gated_shown; [exact Hask|].
    rewrite Hask in Hab. by apply bool_decide_eq_false_1 in Hab.
Qed.

(** *** [sqlitePush] *)

Lemma bind_query {B} (sql : string) (k : unit -> M Conn B) (c : Conn) :
  bind (query sql) k c
  = let '(c1, ok) := run_query sql c in
    if ok
    then let '(o, c2, evs) := k tt c1 in (o, c2, [Issued sql; Settled sql true] ++ evs)
    else (Throw DriverError, c1, [Issued sql; Settled sql false]).
Proof. unfold bind, query. by destruct (run_query sql c) as [c1 [|]]. Qed.

Lemma for_await_snoc (l : list string) (x : string) (c : Conn) :
  (for_await l (fun sql => query sql) ;;; query x) c
  = for_await (l ++ [x]) (fun sql => query sql) c.
Proof.
  revert c. induction l as [|y l IH]; intros c.
  - cbn [for_await app]. rewrite bind_ret_l. unfold bind.
    destruct (query x c) as [[[[]|e|n] c1] evs]; cbn; by rewrite ?app_nil_r.
  - cbn [for_await app]. rewrite bind_assoc. apply bind_ext. intros _ c1. apply IH.
Qed.

(** The transaction of [sqlitePush]: [begin], the statements, [commit],
    and [rollback] then [process.exit(1)] when one of them is rejected. *)
Lemma transaction_forms (sts : list string) (c : Conn) :
  let tx :=
    (query "begin" ;;;
     try_catch
       (for_await sts (fun dStmnt => query dStmnt) ;;; query "commit")
       (fun e => emit (LoggedError e) ;;; query "rollback" ;;; exit 1)) c in
  (exists c1, tx = (Throw DriverError, c1, [Issued "begin"; Settled "begin" false]))
  \/ (exists c1, tx = (Ret tt, c1, accepted ("begin" :: sts ++ ["commit"])))
  \/ (exists c1 l1 x l2 (ok : bool),
        sts ++ ["commit"] = l1 ++ x :: l2
        /\ tx = ((if ok then Exit 1 else Throw DriverError), c1,
                 accepted ("begin" :: l1)
                 ++ [Issued x; Settled x false; LoggedError DriverError;
                     Issued "rollback"; Settled "rollback" ok])).
Proof.
  cbv zeta. rewrite bind_query.
  destruct (run_query "begin" c) as [c0 [|]]; [|left; by exists c0]. right.
  unfold try_catch. rewrite for_await_snoc.
  destruct (for_await_query_cases (sts ++ ["commit"]) c0)
    as [(c1 & ->)|(c1 & l1 & x & l2 & Hsplit & ->)].
  - left. by exists c1.
  - right. rewrite bind_emit, bind_query.
    destruct (run_query "rollback" c1) as [c2 ok] eqn:Hrb.
    exists c2, l1, x, l2, ok. split; [exact Hsplit|].
    destruct ok; cbn; by rewrite <- !app_assoc.
Qed.

Variables SqliteSchema SqliteSquashed SqliteMeta : Type.
Variable connectToSQLite : PushMore.SqliteCredentials -> result unit.
Variable sqlitePushIntrospect : Conn -> list string -> result SqliteSchema.
Variable prepareSQLitePush :
  SchemaPath -> SqliteSchema ->
  result (PushMore.SqlitePrepared JsonStatement SqliteSquashed SqliteMeta).
Variable sqliteSuggestions :
  Conn -> list JsonStatement -> SqliteSquashed -> SqliteSquashed -> SqliteMeta ->
  result Suggestions.
Variable batch : list string -> M Conn unit.

Local Abbreviation sqlitePush :=
  (PushMore.sqlitePush user JsonStatement SchemaPath SqliteSchema SqliteSquashed SqliteMeta
     connectToSQLite sqlitePushIntrospect prepareSQLitePush sqliteSuggestions batch).

(** How the statements are executed, by the kind of credentials. *)
Local Abbreviation execute credentials sts :=
  (if negb (bool_decide (is_Some (PushMore.driver credentials)))
   then query "begin" ;;;
        try_catch
          (for_await sts (fun dStmnt => query dStmnt) ;;; query "commit")
          (fun e => emit (LoggedError e) ;;; query "rollback" ;;; exit 1)
   else if bool_decide (PushMore.driver credentials = Some "turso")
        then batch sts
        else ret tt).

(** [sqlitePush] as one equation. *)
Lemma sqlitePush_eq (schemaPath : SchemaPath) (verbose strict : bool)
    (credentials : PushMore.SqliteCredentials) (tablesFilter : list string)
    (force : bool) (c : Conn) :
  sqlitePush schemaPath verbose strict credentials tablesFilter force c
  = match connectToSQLite credentials with
    | Err e => (Throw e, c, [])
    | Ok _ =>
        match sqlitePushIntrospect c tablesFilter with
        | Err e => (Throw e, c, [])
        | Ok schema =>
            match prepareSQLitePush schemaPath schema with
            | Err e => (Throw e, c, [])
            | Ok prepared =>
                match PushMore.sp_sqlStatements prepared with
                | [] => (Ret tt, c, [Rendered NoChanges])
                | _ :: _ =>
                    match sqliteSuggestions c (PushMore.sp_statements prepared)
                            (PushMore.sp_squashedCur prepared)
                            (PushMore.sp_squashedPrev prepared)
                            (PushMore.sp_meta prepared) with
                    | Err e => (Throw e, c, [])
                    | Ok s =>
                        let logs := verbose && Nat.ltb 0 (length (statementsToExecute s)) in
                        if aborts s strict force
                        then (Exit 0, c, shownWith logs s strict force ++ [Rendered Aborted])
                        else
                          match statementsToExecute s with
                          | [] =>
                              (Ret tt, c,
                               shownWith logs s strict force ++ [Rendered NoChanges])
                          | _ :: _ =>
                              match execute credentials (statementsToExecute s) c with
                              | (Ret _, c', ex) =>
                                  (Ret tt, c',
                                   shownWith logs s strict force ++ ex ++ [Rendered Applied])
                              | (Throw e, c', ex) =>
                                  (Throw e, c', shownWith logs s strict force ++ ex)
                              | (Exit n, c', ex) =>
                                  (Exit n, c', shownWith logs s strict force ++ ex)
                              end
                          end
                    end
                end
            end
        end
    end.
Proof.
  unfold PushMore.sqlitePush.
  destruct (connectToSQLite credentials) as [[]|e];
    [rewrite bind_lift_Ok|by rewrite bind_lift_Err].
  destruct (sqlitePushIntrospect c tablesFilter) as [schema|e] eqn:Hint.
  2: { by rewrite (bind_reads_Err (fun db => sqlitePushIntrospect db tablesFilter)
                     _ _ c Hint). }
  rewrite (bind_reads_Ok (fun db => sqlitePushIntrospect db tablesFilter) _ _ c Hint).
  destruct (prepareSQLitePush schemaPath schema) as [prepared|e];
    [rewrite bind_lift_Ok|by rewrite bind_lift_Err].
  destruct (PushMore.sp_sqlStatements prepared) as [|sql sqls]; [reflexivity|].
  cbn [length Nat.eqb].
  destruct (sqliteSuggestions c (PushMore.sp_statements prepared)
              (PushMore.sp_squashedCur prepared) (PushMore.sp_squashedPrev prepared)
              (PushMore.sp_meta prepared)) as [s|e] eqn:Hs.
  2: { by rewrite (bind_reads_Err
                     (fun db => sqliteSuggestions db (PushMore.sp_statements prepared)
                                  (PushMore.sp_squashedCur prepared)
                                  (PushMore.sp_squashedPrev prepared)
                                  (PushMore.sp_meta prepared)) _ _ c Hs). }
  rewrite (bind_reads_Ok
             (fun db => sqliteSuggestions db (PushMore.sp_statements prepared)
                          (PushMore.sp_squashedCur prepared)
                          (PushMore.sp_squashedPrev prepared)
                          (PushMore.sp_meta prepared)) _ _ c Hs).
  cbv zeta.
  destruct (verbose && Nat.ltb 0 (length (statementsToExecute s))).
  - rewrite bind_emit, confirm_eq. destruct (aborts s strict force); [reflexivity|].
    destruct (statementsToExecute s) as [|st sts] eqn:Hsts; [reflexivity|].
    cbn [length Nat.eqb]. rewrite bind_then_emit.
    destruct (execute credentials (st :: sts) c) as [[[[]|e|n] c'] ex];
      cbn; by rewrite <- ?app_assoc.
  - rewrite bind_ret_l, confirm_eq. destruct (aborts s strict force); [reflexivity|].
    destruct (statementsToExecute s) as [|st sts] eqn:Hsts; [reflexivity|].
    cbn [length Nat.eqb]. rewrite bind_then_emit.
    destruct (execute credentials (st :: sts) c) as [[[[]|e|n] c'] ex];
      cbn; by rewrite <- ?app_assoc.
Qed.

(** The classifier of [sqlitePush], applied to what was prepared. *)
Local Abbreviation sqliteClassified c prepared :=
  (sqliteSuggestions c (PushMore.sp_statements prepared)
     (PushMore.sp_squashedCur prepared) (PushMore.sp_squashedPrev prepared)
     (PushMore.sp_meta prepared)).

(** The shapes of a run of [sqlitePush] on a file database. *)
Lemma sqlitePush_forms (schemaPath : SchemaPath) (verbose strict : bool)
    (credentials : PushMore.SqliteCredentials) (tablesFilter : list string)
    (force : bool) (c : Conn) :
  PushMore.driver credentials = None ->
  (exists ev,
      sqlitePush schemaPath verbose strict credentials tablesFilter force c
      = (Ret tt, c, [ev])
      /\ ev = Rendered NoChanges)
  \/ (exists e,
        sqlitePush schemaPath verbose strict credentials tablesFilter force c
        = (Throw e, c, []))
  \/ (exists schema prepared s sh,
        sqlitePushIntrospect c tablesFilter = Ok schema
        /\ prepareSQLitePush schemaPath schema = Ok prepared
        /\ sqliteClassified c prepared = Ok s
        /\ sh = shownWith (verbose && Nat.ltb 0 (length (statementsToExecute s)))
                  s strict force
        /\ ((aborts s strict force = true
             /\ sqlitePush schemaPath verbose strict credentials tablesFilter force c
                = (Exit 0, c, sh ++ [Rendered Aborted]))
            \/ (aborts s strict force = false
                /\ sqlitePush schemaPath verbose strict credentials tablesFilter force c
                   = (Ret tt, c, sh ++ [Rendered NoChanges]))
            \/ (aborts s strict force = false
                /\ exists c1,
                    sqlitePush schemaPath verbose strict credentials tablesFilter force c
                    = (Throw DriverError, c1,
                       sh ++ [Issued "begin"; Settled "begin" false]))
            \/ (aborts s strict force = false
                /\ exists c1,
                    sqlitePush schemaPath verbose strict credentials tablesFilter force c
                    = (Ret tt, c1,
                       sh ++ accepted ("begin" :: statementsToExecute s ++ ["commit"])
                       ++ [Rendered Applied]))
            \/ (aborts s strict force = false
                /\ exists c1 l1 x l2 (ok : bool),
                    statementsToExecute s ++ ["commit"] = l1 ++ x :: l2
                    /\ sqlitePush schemaPath verbose strict credentials tablesFilter force c
                       = ((if ok then Exit 1 else Throw DriverError), c1,
                          sh ++ accepted ("begin" :: l1)
                          ++ [Issued x; Settled x false; LoggedError DriverError;
                              Issued "rollback"; Settled "rollback" ok])))).
Proof.
  intros Hdrv. rewrite sqlitePush_eq.
  destruct (connectToSQLite credentials) as [[]|e]; [|right; left; by exists e].
  destruct (sqlitePushIntrospect c tablesFilter) as [schema|e]; [|right; left; by exists e].
  destruct (prepareSQLitePush schemaPath schema) as [prepared|e] eqn:Hprep;
    [|right; left; by exists e].
  destruct (PushMore.sp_sqlStatements prepared) as [|sql sqls];
    [left; by exists (Rendered NoChanges)|].
  destruct (sqliteClassified c prepared) as [s|e] eqn:Hs; [|right; left; by exists e].
  right; right.
  exists schema, prepared, s,
    (shownWith (verbose && Nat.ltb 0 (length (statementsToExecute s))) s strict force).
  split; [reflexivity|]. split; [exact Hprep|]. split; [exact Hs|]. split; [reflexivity|].
  cbv zeta. destruct (aborts s strict force); [by left|right].
  destruct (statementsToExecute s) as [|st sts] eqn:Hsts; [by left|right].
  rewrite Hdrv.
  rewrite (bool_decide_eq_false_2 (is_Some (@None string))) by (by intros [? ?]).
  cbn [negb].
  destruct (transaction_forms (st :: sts) c)
    as [(c1 & ->)|[(c1 & ->)|(c1 & l1 & x & l2 & ok & Hsplit & ->)]].
  - left. split; [reflexivity|]. by exists c1.
  - right; left. split; [reflexivity|]. by exists c1.
  - right; right. split; [reflexivity|]. exists c1, l1, x, l2, ok.
    split; [exact Hsplit|]. by destruct ok.
Qed.

(** X19: on a file database (credentials without a driver) [sqlitePush]
    runs the statements inside a transaction.  The first statement issued is
    [begin]; when [Changes applied] is shown, the statements issued are
    [begin], the classifier's statements and [commit], and none was
    rejected.  When a statement is rejected, either it is [begin] and the
    error is raised, or the error is logged and [rollback] is issued next
    and last: then the process exits with code 1, or raises if [rollback] is
    rejected too. *)
Theorem sqlitePush_transaction
    (schemaPath : SchemaPath) (verbose strict : bool)
    (credentials : PushMore.SqliteCredentials) (tablesFilter : list string)
    (force : bool) (c : Conn) (o : outcome unit) (c' : Conn) (evs : list event) :
  PushMore.driver credentials = None ->
  sqlitePush schemaPath verbose strict credentials tablesFilter force c = (o, c', evs) ->
  (issued evs = [] \/ head (issued evs) = Some "begin")
  /\ (Rendered Applied ∈ evs ->
      o = Ret tt
      /\ rejected evs = []
      /\ forall schema prepared s,
           sqlitePushIntrospect c tablesFilter = Ok schema ->
           prepareSQLitePush schemaPath schema = Ok prepared ->
           sqliteClassified c prepared = Ok s ->
           issued evs = "begin" :: statementsToExecute s ++ ["commit"])
  /\ (rejected evs <> [] ->
      exists pre,
        rejected pre = []
        /\ ((issued pre = []
             /\ o = Throw DriverError
             /\ evs = pre ++ [Issued "begin"; Settled "begin" false])
            \/ exists x (ok : bool),
                 o = (if ok then Exit 1 else Throw DriverError)
                 /\ evs = pre ++ [Issued x; Settled x false; LoggedError DriverError;
                                  Issued "rollback"; Settled "rollback" ok])).
Proof.
  intros Hdrv Hrun. rewrite elem_of_rendered.
  destruct (sqlitePush_forms schemaPath verbose strict credentials tablesFilter force c Hdrv)
    as [(ev & Heq & ->)|[(e & Heq)|(schema & prepared & s & sh & Hint & Hprep & Hs & Hsh
                                    & Hforms)]].
  { rewrite Heq in Hrun. injection Hrun as <- <- <-.
    split; [by left|]. split; [by intros ?%list_elem_of_singleton|done]. }
  { rewrite Heq in Hrun. injection Hrun as <- <- <-.
    split; [by left|]. split; [by intros ?%elem_of_nil|done]. }
  destruct (shownWith_facts (verbose && Nat.ltb 0 (length (statementsToExecute s)))
              s strict force) as (Hi & Hr & Hj & _).
  rewrite <- Hsh in Hi, Hr, Hj. clear Hsh.
  destruct Hforms
    as [[_ Heq]|[[_ Heq]|[(_ & c1 & Heq)|[(_ & c1 & Heq)
       |(_ & c1 & l1 & x & l2 & ok & Hsplit & Heq)]]]];
    rewrite Heq in Hrun; apply run_inj in Hrun as (-> & -> & ->);
    rewrite !issued_app, !rendered_app, !rejected_app, Hi, Hr, Hj,
      ?issued_accepted, ?rendered_accepted, ?rejected_accepted; cbn.
  - split; [by left|]. split; [by intros ?%list_elem_of_singleton|done].
  - split; [by left|]. split; [by intros ?%list_elem_of_singleton|done].
  - split; [by right|]. split; [by intros ?%elem_of_nil|].
    intros _. exists sh. split; [exact Hj|]. left. by split.
  - split; [by right|]. split; [|done].
    intros _. split; [reflexivity|]. split; [reflexivity|].
    intros schema' prepared' s' Hint' Hprep' Hs'.
    assert (schema' = schema) as -> by congruence.
    assert (prepared' = prepared) as -> by congruence.
    assert (s' = s) as -> by congruence.
    cbn. by rewrite app_nil_r.
  - split; [by right|]. split; [by intros ?%elem_of_nil|].
    intros _. exists (sh ++ accepted ("begin" :: l1)).
    split; [by rewrite rejected_app, Hj, rejected_accepted|].
    right. exists x, ok. split; [reflexivity|]. by rewrite <- app_assoc.
Qed.

(** X20: with credentials that name a driver [sqlitePush] issues no
    statement of its own, and no [begin], [commit] or [rollback], whatever
    the flags.  Unless the operator stops it with [No, abort], for [turso]
    the classifier's statements are handed to [db.batch] in one call, on the
    connection as it was found, and [Changes applied] is shown when that
    call returns; what it raises is raised.  For any other driver
    [Changes applied] is shown although nothing was executed. *)
Theorem sqlitePush_with_driver
    (schemaPath : SchemaPath) (verbose strict : bool)
    (credentials : PushMore.SqliteCredentials) (tablesFilter : list string)
    (force : bool) (c : Conn) (schema : SqliteSchema)
    (prepared : PushMore.SqlitePrepared JsonStatement SqliteSquashed SqliteMeta)
    (s : Suggestions) (d : string) :
  PushMore.driver credentials = Some d ->
  connectToSQLite credentials = Ok tt ->
  sqlitePushIntrospect c tablesFilter = Ok schema ->
  prepareSQLitePush schemaPath schema = Ok prepared ->
  PushMore.sp_sqlStatements prepared <> [] ->
  sqliteClassified c prepared = Ok s ->
  statementsToExecute s <> [] ->
  exists pre,
    issued pre = [] /\ rendered pre = []
    /\ length (prompts pre) <= 1 /\ (force = true -> prompts pre = [])
    /\ sqlitePush schemaPath verbose strict credentials tablesFilter force c
       = if aborts s strict force
         then (Exit 0, c, pre ++ [Rendered Aborted])
         else if bool_decide (d = "turso")
              then match batch (statementsToExecute s) c with
                   | (Ret _, c', ex) => (Ret tt, c', pre ++ ex ++ [Rendered Applied])
                   | (Throw e, c', ex) => (Throw e, c', pre ++ ex)
                   | (Exit n, c', ex) => (Exit n, c', pre ++ ex)
                   end
              else (Ret tt, c, pre ++ [Rendered Applied]).
Proof.
  intros Hdrv Hdb Hint Hprep Hsql Hs Hsts.
  destruct (shownWith_facts (verbose && Nat.ltb 0 (length (statementsToExecute s)))
              s strict force) as (Hi & Hr & _ & Hp & _).
  eexists. split; [exact Hi|]. split; [exact Hr|].
  split; [rewrite Hp; destruct force, strict, (shouldAskForApprove s); cbn; lia|].
  split; [intros ->; by rewrite Hp|].
  rewrite sqlitePush_eq, Hdb, Hint, Hprep, Hs.
  destruct (PushMore.sp_sqlStatements prepared) as [|sql sqls]; [done|].
  cbv zeta. destruct (aborts s strict force); [reflexivity|].
  destruct (statementsToExecute s) as [|st sts]; [done|].
  rewrite Hdrv.
  rewrite (bool_decide_eq_true_2 (is_Some (Some d))) by (by exists d).
  cbn [negb].
  destruct (decide (d = "turso")) as [->|Hd].
  - by rewrite !bool_decide_eq_true_2 by reflexivity.
  - rewrite (bool_decide_eq_false_2 (Some d = Some "turso")) by congruence.
    by rewrite (bool_decide_eq_false_2 (d = "turso")) by exact Hd.
Qed.

(** Every run of [sqlitePush] on a file database, read as a trace. *)
Lemma sqlitePush_trace
    (schemaPath : SchemaPath) (verbose strict : bool)
    (credentials : PushMore.SqliteCredentials) (tablesFilter : list string)
    (force : bool) (c : Conn) (o : outcome unit) (c' : Conn) (evs : list event) :
  PushMore.driver credentials = None ->
  sqlitePush schemaPath verbose strict credentials tablesFilter force c = (o, c', evs) ->
  sequential evs = true
  /\ length (prompts evs) <= 1
  /\ (force = true -> prompts evs = [])
  /\ (forall e, o = Throw e ->
        (c' = c /\ evs = []) \/ (e = DriverError /\ rejected evs <> []))
  /\ (forall n, o = Exit n ->
        (n = 0%nat /\ c' = c /\ issued evs = [] /\ force = false)
        \/ (n = 1%nat /\ last (issued evs) = Some "rollback")).
Proof.
  intros Hdrv Hrun.
  destruct (sqlitePush_forms schemaPath verbose strict credentials tablesFilter force c Hdrv)
    as [(ev & Heq & ->)|[(e & Heq)|(schema & prepared & s & sh & Hint & Hprep & Hs & Hsh
                                    & Hforms)]].
  { rewrite Heq in Hrun. injection Hrun as <- <- <-.
    repeat split; try done. cbn; lia. }
  { rewrite Heq in Hrun. injection Hrun as <- <- <-.
    split; [done|]. split; [cbn; lia|]. split; [done|].
    split; [|done]. intros e' _. by left. }
  destruct (shownWith_facts (verbose && Nat.ltb 0 (length (statementsToExecute s)))
              s strict force) as (Hi & _ & Hj & Hp & Hseq & _).
  rewrite <- Hsh in Hi, Hj, Hp, Hseq. clear Hsh.
  assert (Hlen : length (if negb force && shouldAskForApprove s then [dataLoss s]
                         else if negb force && strict then [ConfirmAll] else []) <= 1)
    by (destruct force, strict, (shouldAskForApprove s); cbn; lia).
  assert (Hforce : force = true ->
            (if negb force && shouldAskForApprove s then [dataLoss s]
             else if negb force && strict then [ConfirmAll] else []) = [])
    by (by intros ->).
  destruct Hforms
    as [[Hab Heq]|[[Hab Heq]|[(Hab & c1 & Heq)|[(Hab & c1 & Heq)
       |(Hab & c1 & l1 & x & l2 & ok & Hsplit & Heq)]]]];
    rewrite Heq in Hrun; apply run_inj in Hrun as (-> & -> & ->);
    rewrite ?Hseq, ?sequential_accepted, !prompts_app, Hp, ?prompts_accepted,
      !issued_app, Hi, ?issued_accepted, ?rejected_app, ?Hj, ?rejected_accepted;
    cbn [prompts omap app]; rewrite ?app_nil_r.
  - split; [reflexivity|]. split; [exact Hlen|]. split; [exact Hforce|].
    split; [done|]. intros n [= <-]. left. by destruct force.
  - split; [reflexivity|]. split; [exact Hlen|]. split; [exact Hforce|done].
  - split; [reflexivity|]. split; [exact Hlen|]. split; [exact Hforce|].
    split; [|done]. intros e [= <-]. right. by split.
  - split; [reflexivity|]. split; [exact Hlen|]. split; [exact Hforce|done].
  - split; [cbn; by rewrite String.eqb_refl|].
    split; [exact Hlen|]. split; [exact Hforce|].
    split.
    + intros e He. right. destruct ok; [done|]. injection He as <-.
      by split.
    + intros n Hn. right. destruct ok; [|done]. injection Hn as <-.
      split; [reflexivity|]. cbn.
      replace ("begin" :: l1 ++ [x; "rollback"])
        with (("begin" :: l1 ++ [x]) ++ ["rollback"])
        by (cbn; by rewrite <- app_assoc).
      apply last_snoc.
Qed.

(** X21: on a file database, in every run of [sqlitePush] no statement is
    issued while another is outstanding, at most one prompt is shown and
    none with [force].  Without [force], when the classifier asks for
    approval of the statements of this run, nothing, not even [begin], is
    issued before the data-loss prompt has returned, and nothing after
    [No, abort], which leaves the connection as it was; a statement is
    issued only when the prompt returned something else than [No, abort], be
    it no answer at all.  An error of the classifier is raised, not logged:
    the command raises with no statement issued and no prompt shown, or with
    the driver's error after a rejected [begin] or [rollback]. *)
Theorem sqlitePush_gate
    (schemaPath : SchemaPath) (verbose strict : bool)
    (credentials : PushMore.SqliteCredentials) (tablesFilter : list string)
    (force : bool) (c : Conn) (o : outcome unit) (c' : Conn) (evs : list event) :
  PushMore.driver credentials = None ->
  sqlitePush schemaPath verbose strict credentials tablesFilter force c = (o, c', evs) ->
  sequential evs = true
  /\ length (prompts evs) <= 1
  /\ (force = true -> prompts evs = [])
  /\ (force = false ->
      forall schema prepared s,
        sqlitePushIntrospect c tablesFilter = Ok schema ->
        prepareSQLitePush schemaPath schema = Ok prepared ->
        sqliteClassified c prepared = Ok s ->
        shouldAskForApprove s = true ->
        gated s c c' evs)
  /\ (forall e, o = Throw e ->
        (c' = c /\ issued evs = [] /\ prompts evs = [])
        \/ (e = DriverError /\ rejected evs <> []))
  /\ (forall n, o = Exit n ->
        (n = 0%nat /\ c' = c /\ issued evs = [] /\ force = false)
        \/ (n = 1%nat /\ last (issued evs) = Some "rollback")).
Proof.
  intros Hdrv Hrun.
  destruct (sqlitePush_trace _ _ _ _ _ _ _ _ _ _ Hdrv Hrun)
    as (Hseq & Hlen & Hforce & Hthrow & Hexit).
  split; [exact Hseq|]. split; [exact Hlen|]. split; [exact Hforce|].
  split; [|split; [|exact Hexit]].
  2: { intros e He. destruct (Hthrow e He) as [[-> ->]|Hrej]; [by left|by right]. }
  intros -> schema prepared s Hint Hprep Hs Hask.
  destruct (sqlitePush_forms schemaPath verbose strict credentials tablesFilter false c Hdrv)
    as [(ev & Heq & ->)|[(e & Heq)|(schema' & prepared' & s' & sh & Hint' & Hprep' & Hs'
                                    & Hsh & Hforms)]].
  { rewrite Heq in Hrun. apply run_inj in Hrun as (-> & -> & ->). by apply gated_idle. }
  { rewrite Heq in Hrun. apply run_inj in Hrun as (-> & -> & ->). by apply gated_idle. }
  assert (schema' = schema) as -> by congruence.
  assert (prepared' = prepared) as -> by congruence.
  assert (s' = s) as -> by congruence.
  destruct (shownWith_facts (verbose && Nat.ltb 0 (length (statementsToExecute s)))
              s strict false) as (Hi & _).
  assert (Hans : aborts s strict false = false -> user (dataLoss s) <> Some 0%nat).
  { rewrite Hask. cbn [negb andb]. by intros ?%bool_decide_eq_false_1. }
  destruct Hforms
    as [[Hab Heq]|[[Hab Heq]|[(Hab & c1 & Heq)|[(Hab & c1 & Heq)
       |(Hab & c1 & l1 & x & l2 & ok & Hsplit & Heq)]]]];
    rewrite Heq in Hrun; apply run_inj in Hrun as (-> & -> & ->); rewrite Hsh.
  - apply gated_idle. by rewrite issued_app, Hi.
  - apply gated_idle. by rewrite issued_app, Hi.
  - apply gated_shown; [exact Hask|by apply Hans].
  - apply gated_shown; [exact Hask|by apply Hans].
  - apply gated_shown; [exact Hask|by apply Hans].
Qed.

End GateFacts.

Lemma run_eta {A B C} (r : A * B * C) : r = (r.1.1, r.1.2, r.2).
Proof. by destruct r as [[a b] c]. Qed.

(** ** The approval gate on concrete runs *)



Lemma push_statements_sequential_witness :
  (exists o c' evs,
      apply Example.pushed ["CREATE TABLE `t` (`id` int);"] = (o, c', evs)
      /\ issued evs `prefix_of` [Example.drop_users]
      /\ c' = fold_left (fun c s => (run_query s c).1) (issued evs)
                ["CREATE TABLE `t` (`id` int);"])
  /\ (exists pre,
        issued pre = []
        /\ (Sample.carefulPush Example.approves false false false []).2
           = pre ++ accepted [Example.create_index; Example.drop_users]
             ++ [Rendered Applied])
  /\ (exists pre l1 x l2,
        [Sample.create_users; "REJECT"; Sample.create_posts; Sample.create_users]
        = l1 ++ x :: l2
        /\ issued pre = []
        /\ (Sample.mysqlPush Example.approves true true false []).2
           = pre ++ accepted l1 ++ [Issued x; Settled x false; LoggedError DriverError]).
Proof.
  split; [|split].
  - destruct (@push_statements_sequential (list string) Example.log_db Example.approves
                string unit Example.fromJson unit unit unit unit
                Example.connect Example.cliIntrospect Example.preparePush
                Example.filterStatements Example.classifier
                Example.connect Example.cliIntrospect Example.preparePush
                Example.filterStatements Example.classifier
                Example.originUUID unit unit Example.prepareFromExports
                Example.generateSnapshot Example.differ Example.introspect
                Example.classifier) as (HA & _ & _).
    destruct (HA tt "drizzle" "0d7a" [] Example.pushed [] []) as [_ Happly].
    { vm_compute. reflexivity. }
    destruct (Happly ["CREATE TABLE `t` (`id` int);"])
      as (o & c' & evs & Hrun & _ & Hpre & _ & Hc').
    exists o, c', evs. split; [exact Hrun|]. split; [exact Hpre|exact Hc'].
  - destruct (@push_statements_sequential (list string) Example.log_db Example.approves
                string unit Example.fromJson unit unit unit unit
                Example.connect Example.cliIntrospect Example.preparePush
                Example.filterStatements Sample.careful
                Example.connect Example.cliIntrospect Example.preparePush
                Example.filterStatements Sample.careful
                Example.originUUID unit unit Example.prepareFromExports
                Example.generateSnapshot Example.differ Example.introspect
                Example.classifier) as (_ & HS & _).
    destruct (HS tt tt [] false false false []) as (o & c' & evs & Hrun & _ & _ & Hord).
    destruct (Hord "drizzle" tt _ _ _ eq_refl eq_refl eq_refl eq_refl eq_refl)
      as [_ Hforms].
    assert (Hevs : (Sample.carefulPush Example.approves false false false []).2 = evs)
      by (unfold Sample.carefulPush; by rewrite Hrun).
    assert (Ho : (Sample.carefulPush Example.approves false false false []).1.1 = o)
      by (unfold Sample.carefulPush; by rewrite Hrun).
    clear Hrun. specialize (Hforms ltac:(discriminate)).
    destruct Hforms
      as [(Hexit & _)|[(_ & pre & Hpre & Heq)|(_ & pre & l1 & x & l2 & _ & _ & Heq)]].
    + rewrite Hexit in Ho. vm_compute in Ho. discriminate Ho.
    + exists pre. split; [exact Hpre|]. by rewrite Hevs.
    + exfalso.
      assert (Hin : Settled x false
                    ∈ (Sample.carefulPush Example.approves false false false []).2).
      { rewrite Hevs, Heq, !elem_of_app, !elem_of_cons. tauto. }
      apply list_elem_of_In in Hin. vm_compute in Hin.
      repeat (destruct Hin as [Hin|Hin]; [discriminate Hin|]). exact Hin.
  - destruct (@push_statements_sequential (list string) Example.log_db Example.approves
                string unit Example.fromJson unit unit unit unit
                Example.connect Example.cliIntrospect Sample.preparePush
                Example.filterStatements Sample.failing
                Example.connect Example.cliIntrospect Sample.preparePush
                Example.filterStatements Sample.failing
                Example.originUUID unit unit Example.prepareFromExports
                Example.generateSnapshot Example.differ Example.introspect
                Example.classifier) as (_ & _ & HM).
    destruct (HM tt tt [] true true false []) as (o & c' & evs & Hrun & _ & _ & Hord).
    destruct (Hord "drizzle" tt _ _ _ eq_refl eq_refl eq_refl eq_refl eq_refl)
      as [_ Hforms].
    assert (Hevs : (Sample.mysqlPush Example.approves true true false []).2 = evs)
      by (unfold Sample.mysqlPush; by rewrite Hrun).
    assert (Ho : (Sample.mysqlPush Example.approves true true false []).1.1 = o)
      by (unfold Sample.mysqlPush; by rewrite Hrun).
    clear Hrun. specialize (Hforms ltac:(discriminate)).
    destruct Hforms
      as [(Hexit & _)|[(_ & pre & Hpre & Heq)|(_ & pre & l1 & x & l2 & Hu & Hpre & Heq)]].
    + rewrite Hexit in Ho. vm_compute in Ho. discriminate Ho.
    + exfalso.
      assert (Hin : Rendered Applied
                    ∈ (Sample.mysqlPush Example.approves true true false []).2).
      { rewrite Hevs, Heq, !elem_of_app, !elem_of_cons. tauto. }
      apply list_elem_of_In in Hin. vm_compute in Hin.
      repeat (destruct Hin as [Hin|Hin]; [discriminate Hin|]). exact Hin.
    + exists pre, l1, x, l2. split; [exact Hu|]. split; [exact Hpre|]. by rewrite Hevs.
Defined.

Lemma tableFilter_passes_witness :
  Introspect.tableFilter (map Sample.minimatch ["users"; "!posts"]) "users" = true
  /\ Introspect.tableFilter (map Sample.minimatch ["users"; "!posts"]) "posts" <> true.
Proof.
  split.
  - apply (proj2 (tableFilter_passes (map Sample.minimatch ["users"; "!posts"]) "users")).
    right. split.
    + exists (Sample.minimatch "users"). split; [by left|reflexivity].
    + intros m Hin Hneg. cbn [map] in Hin.
      apply elem_of_cons in Hin as [->|Hin]; [discriminate Hneg|].
      apply list_elem_of_singleton in Hin as ->. reflexivity.
  - intros Hpass.
    apply (proj1 (tableFilter_passes (map Sample.minimatch ["users"; "!posts"]) "posts"))
      in Hpass as [Hnil|[_ Hall]]; [discriminate Hnil|].
    assert (Hin : Sample.minimatch "!posts" ∈ map Sample.minimatch ["users"; "!posts"])
      by (right; left).
    specialize (Hall _ Hin eq_refl). discriminate Hall.
Defined.

Lemma singlestorePushIntrospect_schema_witness :
  exists schema,
    Sample.introspect []
    = (Ret schema, [], [LoggedWarnings ["Pulling schema from database..."]])
    /\ schema !! "internal" = None
    /\ schema !! "id" = Some (JStr "7b1c")
    /\ schema !! "prevId" = Some (JStr "").
Proof.
  destruct (singlestorePushIntrospect_schema Example.originUUID Sample.minimatch
              Sample.fromDatabase Sample.renderWithTask "drizzle" ["users"; "!posts"] []
              (Ret {[ "version" := JStr "1"; "id" := JStr "7b1c"; "internal" := JStr "{}" ]})
              [] [LoggedWarnings ["Pulling schema from database..."]] eq_refl)
    as (schema & Hrun & Hint & Hid & Hprev & _).
  exists schema. split; [exact Hrun|]. split; [exact Hint|]. split; [exact Hid|exact Hprev].
Defined.

Lemma pgPush_statements_witness :
  issued (Sample.pgPush Example.approves true true false []).2
  = [Sample.create_users; Sample.create_users].
Proof.
  destruct (pgPush_statements Example.approves string unit unit unit
              (fun _ => Ok tt) (fun _ _ _ => Ok tt)
              (fun _ _ _ => Ok (mkDiffResult [] [Sample.create_users])) Sample.twice
              tt true true tt [] [] false [] tt
              (mkDiffResult [] [Sample.create_users])
              {| shouldAskForApprove := false;
                 statementsToExecute := [Sample.create_users; Sample.create_users];
                 columnsToRemove := [];
                 tablesToRemove := [];
                 tablesToTruncate := [];
                 infoToPrint := [] |}
              _ _ _ eq_refl eq_refl eq_refl eq_refl
              (run_eta (Sample.pgPush Example.approves true true false [])))
    as (_ & _ & Hno).
  destruct Hno as [[Hsql _]|[_ Hall]]; [| discriminate Hsql |exact Hall].
  apply list_elem_of_In. vm_compute. repeat first [left; reflexivity | right].
Defined.

Lemma pgPush_gate_witness :
  (sequential (Sample.pgDropPush Example.refuses false false false []).2 = true
   /\ issued (Sample.pgDropPush Example.refuses false false false []).2 = []
   /\ (Sample.pgDropPush Example.refuses false false false []).1.2 = [])
  /\ explicitly_approved (Sample.pgDropPush Example.approves true false false []).2 = true
  /\ (exists pre post,
        (Sample.pgDropPush Sample.dismisses false false false []).2
        = pre ++ Asked (ConfirmDataLoss 1 0 0) None :: post
        /\ issued pre = []).
Proof.
  split; [|split].
  - destruct (pgPush_gate Example.refuses string unit unit unit
                (fun _ => Ok tt) (fun _ _ _ => Ok tt)
                (fun _ _ _ => Ok (mkDiffResult [Example.drop_users] [Example.drop_users]))
                Sample.wary
                tt false false tt [] [] false [] _ _ _
                (run_eta (Sample.pgDropPush Example.refuses false false false [])))
      as (Hseq & _ & _ & Hgate & _).
    split; [exact Hseq|].
    destruct (Hgate eq_refl tt _ _ eq_refl eq_refl eq_refl eq_refl) as (_ & _ & Hno & _).
    exact (Hno eq_refl).
  - destruct (pgPush_gate Example.approves string unit unit unit
                (fun _ => Ok tt) (fun _ _ _ => Ok tt)
                (fun _ _ _ => Ok (mkDiffResult [Example.drop_users] [Example.drop_users]))
                Sample.wary
                tt true false tt [] [] false [] _ _ _
                (run_eta (Sample.pgDropPush Example.approves true false false [])))
      as (_ & _ & _ & Hgate & _).
    destruct (Hgate eq_refl tt _ _ eq_refl eq_refl eq_refl eq_refl) as (_ & Hyes & _).
    apply Hyes. discriminate.
  - destruct (pgPush_gate Sample.dismisses string unit unit unit
                (fun _ => Ok tt) (fun _ _ _ => Ok tt)
                (fun _ _ _ => Ok (mkDiffResult [Example.drop_users] [Example.drop_users]))
                Sample.wary
                tt false false tt [] [] false [] _ _ _
                (run_eta (Sample.pgDropPush Sample.dismisses false false false [])))
      as (_ & _ & _ & Hgate & _).
    destruct (Hgate eq_refl tt _ _ eq_refl eq_refl eq_refl eq_refl) as (_ & _ & _ & Hafter).
    destruct Hafter as (pre & post & Hevs & Hpre & _); [discriminate|].
    exists pre, post. split; [exact Hevs|exact Hpre].
Defined.

Lemma sqlitePush_transaction_witness :
  exists pre x (ok : bool),
    (Sample.sqlitePush Example.approves Sample.file true false true []).2
    = pre ++ [Issued x; Settled x false; LoggedError DriverError;
              Issued "rollback"; Settled "rollback" ok].
Proof.
  destruct (sqlitePush_transaction Example.approves string unit unit unit unit
              (fun _ => Ok tt) (fun _ _ => Ok tt) (fun _ _ => Ok Sample.sqlitePrepared)
              (fun db statements cur prev meta => Sample.failing db statements cur)
              (fun statements => for_await statements (fun sql => query sql))
              tt true false Sample.file [] true [] _ _ _ eq_refl
              (run_eta (Sample.sqlitePush Example.approves Sample.file true false true [])))
    as (_ & _ & Hrej).
  destruct Hrej as (pre & _ & [(_ & Ho & _)|(x & ok & _ & Hevs)]).
  - vm_compute. discriminate.
  - vm_compute in Ho. discriminate Ho.
  - by exists pre, x, ok.
Defined.

Lemma sqlitePush_with_driver_witness :
  (exists pre,
      issued pre = []
      /\ Sample.sqlitePush Example.approves Sample.turso true false true []
         = (Throw DriverError, [Sample.create_users],
            pre ++ accepted [Sample.create_users]
            ++ [Issued "REJECT"; Settled "REJECT" false]))
  /\ (exists pre,
        issued pre = []
        /\ Sample.sqlitePush Example.refuses Sample.turso true true false []
           = (Exit 0, [], pre ++ [Rendered Aborted])).
Proof.
  split.
  - destruct (sqlitePush_with_driver Example.approves string unit unit unit unit
                (fun _ => Ok tt) (fun _ _ => Ok tt) (fun _ _ => Ok Sample.sqlitePrepared)
                (fun db statements cur prev meta => Sample.failing db statements cur)
                (fun statements => for_await statements (fun sql => query sql))
                tt true false Sample.turso [] true [] tt Sample.sqlitePrepared
                {| shouldAskForApprove := false;
                   statementsToExecute := [Sample.create_users; "REJECT"; Sample.create_posts];
                   columnsToRemove := [];
                   tablesToRemove := [];
                   tablesToTruncate := [];
                   infoToPrint := [] |}
                "turso" eq_refl eq_refl eq_refl eq_refl)
      as (pre & Hi & _ & _ & _ & Hrun); [discriminate|reflexivity|discriminate|].
    exists pre. split; [exact Hi|]. exact Hrun.
  - destruct (sqlitePush_with_driver Example.refuses string unit unit unit unit
                (fun _ => Ok tt) (fun _ _ => Ok tt) (fun _ _ => Ok Sample.sqlitePrepared)
                (fun db statements cur prev meta => Sample.failing db statements cur)
                (fun statements => for_await statements (fun sql => query sql))
                tt true true Sample.turso [] false [] tt Sample.sqlitePrepared
                {| shouldAskForApprove := false;
                   statementsToExecute := [Sample.create_users; "REJECT"; Sample.create_posts];
                   columnsToRemove := [];
                   tablesToRemove := [];
                   tablesToTruncate := [];
                   infoToPrint := [] |}
                "turso" eq_refl eq_refl eq_refl eq_refl)
      as (pre & Hi & _ & _ & _ & Hrun); [discriminate|reflexivity|discriminate|].
    exists pre. split; [exact Hi|]. exact Hrun.
Defined.

Lemma sqlitePush_gate_witness :
  (sequential (Sample.sqliteDropPush Example.refuses Sample.file true true false []).2 = true
   /\ issued (Sample.sqliteDropPush Example.refuses Sample.file true true false []).2 = []
   /\ (Sample.sqliteDropPush Example.refuses Sample.file true true false []).1.2 = [])
  /\ explicitly_approved
       (Sample.sqliteDropPush Example.approves Sample.file false false false []).2 = true
  /\ (exists pre post,
        (Sample.sqliteDropPush Sample.dismisses Sample.file false false false []).2
        = pre ++ Asked (ConfirmDataLoss 1 0 0) None :: post
        /\ issued pre = []).
Proof.
  split; [|split].
  - destruct (sqlitePush_gate Example.refuses string unit unit unit unit
                (fun _ => Ok tt) (fun _ _ => Ok tt) (fun _ _ => Ok Sample.dropPrepared)
                (fun db statements cur prev meta => Sample.wary db statements)
                (fun statements => for_await statements (fun sql => query sql))
                tt true true Sample.file [] false [] _ _ _ eq_refl
                (run_eta (Sample.sqliteDropPush Example.refuses Sample.file true true false [])))
      as (Hseq & _ & _ & Hgate & _).
    split; [exact Hseq|].
    destruct (Hgate eq_refl tt _ _ eq_refl eq_refl eq_refl eq_refl) as (_ & _ & Hno & _).
    exact (Hno eq_refl).
  - destruct (sqlitePush_gate Example.approves string unit unit unit unit
                (fun _ => Ok tt) (fun _ _ => Ok tt) (fun _ _ => Ok Sample.dropPrepared)
                (fun db statements cur prev meta => Sample.wary db statements)
                (fun statements => for_await statements (fun sql => query sql))
                tt false false Sample.file [] false [] _ _ _ eq_refl
                (run_eta (Sample.sqliteDropPush Example.approves Sample.file
                            false false false [])))
      as (_ & _ & _ & Hgate & _).
    destruct (Hgate eq_refl tt _ _ eq_refl eq_refl eq_refl eq_refl) as (_ & Hyes & _).
    apply Hyes. discriminate.
  - destruct (sqlitePush_gate Sample.dismisses string unit unit unit unit
                (fun _ => Ok tt) (fun _ _ => Ok tt) (fun _ _ => Ok Sample.dropPrepared)
                (fun db statements cur prev meta => Sample.wary db statements)
                (fun statements => for_await statements (fun sql => query sql))
                tt false false Sample.file [] false [] _ _ _ eq_refl
                (run_eta (Sample.sqliteDropPush Sample.dismisses Sample.file
                            false false false [])))
      as (_ & _ & _ & Hgate & _).
    destruct (Hgate eq_refl tt _ _ eq_refl eq_refl eq_refl eq_refl) as (_ & _ & _ & Hafter).
    destruct Hafter as (pre & post & Hevs & Hpre & _); [discriminate|].
    exists pre, post. split; [exact Hevs|exact Hpre].
Defined.

(** ** The index builder *)

Section IndexFacts.
Import Indexes.
Context {IndexColumn SingleStoreTable : Type}.
Implicit Types (h : gmap nat (IndexConfig IndexColumn)) (b : nat).

(** X22: the setters of an [IndexBuilder] return the builder they were
    called on.  Setters of different members commute, and of two calls of
    the same setter the second wins.  A setter changes its own member of its
    own builder and nothing else: the other members, among them the name,
    the columns and the uniqueness, and every other builder stay as they
    are. *)
Theorem setters_algebra (b : nat) (h : gmap nat (IndexConfig IndexColumn))
    (u u' a a' l l' : option string) :
  let both (first second : nat -> St IndexColumn nat) := seq (first b) second h in
  both (using' u) (algorythm a) = both (algorythm a) (using' u)
  /\ both (using' u) (lock l) = both (lock l) (using' u)
  /\ both (algorythm a) (lock l) = both (lock l) (algorythm a)
  /\ both (using' u) (using' u') = using' u' b h
  /\ both (algorythm a) (algorythm a') = algorythm a' b h
  /\ both (lock l) (lock l') = lock l' b h
  /\ (forall b', b' <> b ->
        (using' u b h).2 !! b' = h !! b'
        /\ (algorythm a b h).2 !! b' = h !! b'
        /\ (lock l b h).2 !! b' = h !! b')
  /\ (forall c, h !! b = Some c ->
        (using' u b h).2 !! b
        = Some (mkIndexConfig (name c) (columns c) (unique c) u (algorythm_ c) (lock_ c))
        /\ (algorythm a b h).2 !! b
           = Some (mkIndexConfig (name c) (columns c) (unique c) (using_ c) a (lock_ c))
        /\ (lock l b h).2 !! b
           = Some (mkIndexConfig (name c) (columns c) (unique c) (using_ c)
                     (algorythm_ c) l)).
Proof.
  cbv zeta. unfold seq, using', algorythm, lock. cbn [fst snd].
  do 6 (split;
        [f_equal; apply map_eq; intros k; destruct (decide (k = b)) as [->|Hk];
         [rewrite ?lookup_alter_eq; by destruct (h !! b)
         |by rewrite ?lookup_alter_ne by done]|]).
  split.
  - intros b' Hb'. by rewrite !lookup_alter_ne by done.
  - intros c Hc. by rewrite !lookup_alter_eq, Hc.
Qed.

(** X23: the chain [index(name).on(c, ...cs).using(u).algorythm(a).lock(l)
    .build(t)] gives the index of the table [t] with that name, those
    columns and those three settings, not unique, and [uniqueIndex] gives
    the same but unique; the builder the chain allocates is new, so every
    builder that existed keeps its configuration.  An index holds a copy of
    the configuration: one built before a setter is called keeps the old
    setting, one built after it has the new one. *)
Theorem index_chain (name : string) (c : IndexColumn) (cs : list IndexColumn)
    (u a l : option string) (t : SingleStoreTable)
    (h : gmap nat (IndexConfig IndexColumn)) :
  let chain (start : IndexBuilderOn) :=
    seq (on start c cs) (fun b =>
    seq (using' u b) (fun b =>
    seq (algorythm a b) (fun b =>
    seq (lock l b) (fun b => build t b)))) h in
  (chain (index name)).1
  = Some (mkIndex (mkIndexConfig name (c :: cs) (Some false) u a l) t)
  /\ (chain (uniqueIndex name)).1
     = Some (mkIndex (mkIndexConfig name (c :: cs) (Some true) u a l) t)
  /\ (forall b, is_Some (h !! b) ->
        (chain (index name)).2 !! b = h !! b
        /\ (chain (uniqueIndex name)).2 !! b = h !! b)
  /\ (forall b cfg, h !! b = Some cfg ->
        seq (build t b) (fun before =>
        seq (using' u b) (fun b' =>
        seq (build t b') (fun after => fun h' => ((before, after), h')))) h
        = ((Some (mkIndex cfg t),
            Some (mkIndex (mkIndexConfig (Indexes.name cfg) (columns cfg) (unique cfg) u
                             (algorythm_ cfg) (lock_ cfg)) t)),
           <[b := mkIndexConfig (Indexes.name cfg) (columns cfg) (unique cfg) u
                    (algorythm_ cfg) (lock_ cfg)]> h)).
Proof.
  cbv zeta.
  assert (Hfresh : h !! fresh (dom h) = None)
    by (apply not_elem_of_dom, is_fresh).
  unfold seq, on, newIndexBuilder, using', algorythm, lock, build, index, uniqueIndex.
  cbn [fst snd on_name on_unique].
  split; [|split; [|split]].
  - by rewrite !lookup_alter_eq, lookup_insert_eq.
  - by rewrite !lookup_alter_eq, lookup_insert_eq.
  - intros b [cfg Hb].
    assert (Hne : fresh (dom h) <> b) by (intros <-; congruence).
    by rewrite !lookup_alter_ne, !lookup_insert_ne by done.
  - intros b cfg Hb. rewrite Hb, lookup_alter_eq, Hb. cbn. f_equal.
    apply map_eq. intros k. destruct (decide (k = b)) as [->|Hk].
    + by rewrite lookup_alter_eq, lookup_insert_eq, Hb.
    + by rewrite lookup_alter_ne, lookup_insert_ne by done.
Qed.

End IndexFacts.

(** ** Escaping a test name *)

Section EscapeFacts.
Import SkipTests.

Lemma backslash_special : is_special "\"%char = true.
Proof. reflexivity. Qed.

Lemma escapeRegExp_plain (s : string) :
  escapeRegExp s = s <-> forall c, Js.has_char c s = true -> is_special c = false.
Proof.
  induction s as [|c s IH]; cbn [escapeRegExp Js.has_char].
  - split; [by intros _ c ?|reflexivity].
  - destruct (is_special c) eqn:Hc.
    + split.
      * intros Heq. exfalso.
        assert (Hlen : String.length (String "\"%char (String c (escapeRegExp s)))
                       = String.length (String c s)) by (by rewrite Heq).
        cbn [String.length] in Hlen.
        assert (Hle : String.length s <= String.length (escapeRegExp s)).
        { clear. induction s as [|d s IHs]; [reflexivity|].
          cbn [escapeRegExp]. destruct (is_special d); cbn [String.length]; lia. }
        lia.
      * intros Hall. specialize (Hall c). rewrite Ascii.eqb_refl in Hall.
        cbn [orb] in Hall. specialize (Hall eq_refl). congruence.
    + split.
      * intros [= Heq] d Hd. apply orb_true_iff in Hd as [Hd|Hd].
        -- apply Ascii.eqb_eq in Hd as <-. exact Hc.
        -- by apply (proj1 IH Heq).
      * intros Hall. f_equal. apply IH. intros d Hd. apply Hall.
        rewrite Hd. by rewrite orb_true_r.
Qed.

(** X24: [escapeRegExp] puts a backslash before each of the fourteen
    special characters and changes nothing else.  It is injective; it
    returns its argument unchanged exactly when the argument holds no special
    character; and the result is at least as long as the argument and at
    most twice as long. *)
Theorem escapeRegExp_faithful :
  (forall s t, escapeRegExp s = escapeRegExp t -> s = t)
  /\ (forall s, escapeRegExp s = s <->
                forall c, Js.has_char c s = true -> is_special c = false)
  /\ (forall s, String.length s <= String.length (escapeRegExp s)
                /\ String.length (escapeRegExp s) <= 2 * String.length s).
Proof.
  split; [|split; [exact escapeRegExp_plain|]].
  - intros s. induction s as [|c s IH]; intros [|d t]; cbn [escapeRegExp].
    + reflexivity.
    + by destruct (is_special d).
    + by destruct (is_special c).
    + destruct (is_special c) eqn:Hc, (is_special d) eqn:Hd.
      * intros [= -> Heq]. f_equal. by apply IH.
      * intros [= <- _]. by rewrite backslash_special in Hd.
      * intros [= -> _]. by rewrite backslash_special in Hc.
      * intros [= -> Heq]. f_equal. by apply IH.
  - intros s. induction s as [|c s IH]; [cbn; lia|].
    cbn [escapeRegExp]. destruct (is_special c); cbn [String.length]; lia.
Qed.

End EscapeFacts.

Lemma setters_algebra_witness :
  (Indexes.using' (Some "hash") 0
     {[ 0 := Indexes.mkIndexConfig "users_email_idx" ["email"] (Some true) None None None ]}).2
  !! 0
  = Some (Indexes.mkIndexConfig "users_email_idx" ["email"] (Some true) (Some "hash")
            None None).
Proof.
  destruct (setters_algebra 0
              {[ 0 := Indexes.mkIndexConfig "users_email_idx" ["email"] (Some true)
                        None None None ]}
              (Some "hash") None None None None None)
    as (_ & _ & _ & _ & _ & _ & _ & Hown).
  refine (proj1 (Hown (Indexes.mkIndexConfig "users_email_idx" ["email"] (Some true)
                         None None None) _)).
  reflexivity.
Defined.

Lemma index_chain_witness :
  (Indexes.seq (Indexes.on (Indexes.index "users_email_idx") "email" [])
     (fun b => Indexes.seq (Indexes.using' (Some "hash") b)
     (fun b => Indexes.seq (Indexes.algorythm None b)
     (fun b => Indexes.seq (Indexes.lock None b)
     (fun b => Indexes.build "users" b)))) ∅).1
  = Some (Indexes.mkIndex
            (Indexes.mkIndexConfig "users_email_idx" ["email"] (Some false) (Some "hash")
               None None)
            "users").
Proof.
  exact (proj1 (index_chain "users_email_idx" "email" [] (Some "hash") None None "users" ∅)).
Defined.

Lemma escapeRegExp_faithful_witness :
  SkipTests.escapeRegExp "insert + select (all)" <> "insert + select (all)".
Proof.
  intros Heq.
  pose proof (proj1 (proj1 (proj2 escapeRegExp_faithful) "insert + select (all)") Heq "+"%char
                eq_refl) as Hplus.
  discriminate Hplus.
Defined.

(** ** The programmatic pushes of the other dialects *)

Section ApiPushFacts.
Context {Conn : Type} `{DB Conn}.
Variable originUUID : string.
Variables Imports JsonStatement : Type.
Variables PgTables PgEnums PgSchemas PgSequences PgSchemaKit PgSquashed : Type.
Variable pg_prepareFromExports :
  Imports -> result (PgPrepared PgTables PgEnums PgSchemas PgSequences).
Variable generatePgSnapshot :
  PgTables -> PgEnums -> PgSchemas -> PgSequences -> option (list string) ->
  result (gmap string jsonValue).
Variable pgPushIntrospect :
  Conn -> list string -> list string -> result (gmap string jsonValue).
Variable pgSchema_parse : gmap string jsonValue -> result PgSchemaKit.
Variable squashPgScheme : PgSchemaKit -> option string -> result PgSquashed.
Variable applyPgSnapshotsDiff :
  PgSquashed -> PgSquashed -> PgSchemaKit -> PgSchemaKit -> option string ->
  result (DiffResult JsonStatement).
Variable pgSuggestions : Conn -> list JsonStatement -> result Suggestions.
Variables SQLiteTables SQLiteSchemaKit SQLiteSquashed SQLiteMeta : Type.
Variable sqlite_prepareFromExports : Imports -> result (Prepared SQLiteTables).
Variable generateSqliteSnapshot : SQLiteTables -> result (gmap string jsonValue).
Variable sqlitePushIntrospect : Conn -> list string -> result (gmap string jsonValue).
Variable sqliteSchema_parse : gmap string jsonValue -> result SQLiteSchemaKit.
Variable squashSqliteScheme : SQLiteSchemaKit -> option string -> result SQLiteSquashed.
Variable applySqliteSnapshotsDiff :
  SQLiteSquashed -> SQLiteSquashed -> SQLiteSchemaKit -> SQLiteSchemaKit -> option string ->
  result (DiffResult JsonStatement * SQLiteMeta).
Variable sqliteLogSuggestionsAndReturn :
  Conn -> list JsonStatement -> SQLiteSquashed -> SQLiteSquashed -> SQLiteMeta ->
  result Suggestions.
Variables MySqlTables MySQLSchemaKit MySQLSquashed : Type.
Variable mysql_prepareFromExports : Imports -> result (Prepared MySqlTables).
Variable generateMySqlSnapshot : MySqlTables -> result (gmap string jsonValue).
Variable mysqlPushIntrospect :
  Conn -> string -> list string -> result (gmap string jsonValue).
Variable mysqlSchema_parse : gmap string jsonValue -> result MySQLSchemaKit.
Variable squashMysqlScheme : MySQLSchemaKit -> result MySQLSquashed.
Variable applyMysqlSnapshotsDiff :
  MySQLSquashed -> MySQLSquashed -> MySQLSchemaKit -> MySQLSchemaKit -> option string ->
  result (DiffResult JsonStatement).
Variable mysqlLogSuggestionsAndReturn :
  Conn -> list JsonStatement -> MySQLSchemaKit -> result Suggestions.

Local Abbreviation pushSchema :=
  (ApiPush.pushSchema originUUID Imports JsonStatement PgTables PgEnums PgSchemas
     PgSequences PgSchemaKit PgSquashed pg_prepareFromExports generatePgSnapshot
     pgPushIntrospect pgSchema_parse squashPgScheme applyPgSnapshotsDiff pgSuggestions).
Local Abbreviation pushSQLiteSchema :=
  (ApiPush.pushSQLiteSchema originUUID Imports JsonStatement SQLiteTables SQLiteSchemaKit
     SQLiteSquashed SQLiteMeta sqlite_prepareFromExports generateSqliteSnapshot
     sqlitePushIntrospect sqliteSchema_parse squashSqliteScheme applySqliteSnapshotsDiff
     sqliteLogSuggestionsAndReturn).
Local Abbreviation pushMySQLSchema :=
  (ApiPush.pushMySQLSchema originUUID Imports JsonStatement MySqlTables MySQLSchemaKit
     MySQLSquashed mysql_prepareFromExports generateMySqlSnapshot mysqlPushIntrospect
     mysqlSchema_parse squashMysqlScheme applyMysqlSnapshotsDiff
     mysqlLogSuggestionsAndReturn).

(** One step of a run that is known to have returned. *)
Local Ltac returned Hrun :=
  repeat match type of Hrun with
         | context [bind (lift ?r) _ _] =>
             let Hr := fresh "Hr" in
             destruct r eqn:Hr;
             [rewrite bind_lift_Ok in Hrun
             |rewrite bind_lift_Err in Hrun; discriminate Hrun]
         | context [bind (reads ?f) _ ?c] =>
             let Hr := fresh "Hr" in
             let x := eval cbv beta in (f c) in
             destruct x eqn:Hr;
             [rewrite (bind_reads_Ok f _ _ c Hr) in Hrun
             |rewrite (bind_reads_Err f _ _ c Hr) in Hrun; discriminate Hrun]
         end.

(** What the result object of a programmatic push does. *)
Local Abbreviation reports r s :=
  (hasDataLoss r = shouldAskForApprove s
   /\ warnings r = infoToPrint s
   /\ res_statementsToExecute r = statementsToExecute s).

Local Abbreviation applies r :=
  (forall c0,
      (exists c1, apply r c0 = (Ret tt, c1, accepted (res_statementsToExecute r)))
      \/ (exists c1 l1 x l2,
            res_statementsToExecute r = l1 ++ x :: l2
            /\ apply r c0
               = (Throw DriverError, c1, accepted l1 ++ [Issued x; Settled x false]))).

(** X25: [pushSchema], [pushSQLiteSchema] and [pushMySQLSchema] leave the
    connection as it is, issue no statement and ask nothing.  What they
    return reports the classifier's answer for the statements of the diff
    between the snapshot of the database and the snapshot of the schema
    files, both validated and squashed, and its [apply] issues, on whatever
    connection it is run, exactly the statements reported in
    [statementsToExecute], in order and with their duplicates, stopping with
    the driver's error at the first one that is rejected.  The SQLite
    classifier is given the squashed snapshots with the database's first and
    the schema files' second, and the differ's [_meta]; the MySQL classifier
    is given the validated snapshot of the schema files. *)
Theorem programmatic_pushes :
  (forall imports schemaFilters uuid c r c' evs,
      pushSchema imports schemaFilters uuid c = (Ret r, c', evs) ->
      c' = c /\ issued evs = [] /\ prompts evs = []
      /\ (exists cur prev vprev vcur sprev scur d s,
            Api.generateDrizzleJson originUUID Imports PgTables PgEnums PgSchemas
              PgSequences pg_prepareFromExports generatePgSnapshot
              imports None None uuid = Ok cur
            /\ pgPushIntrospect c [] (default ["public"] schemaFilters) = Ok prev
            /\ pgSchema_parse prev = Ok vprev
            /\ pgSchema_parse cur = Ok vcur
            /\ squashPgScheme vprev (Some "push") = Ok sprev
            /\ squashPgScheme vcur (Some "push") = Ok scur
            /\ applyPgSnapshotsDiff sprev scur vprev vcur (Some "push") = Ok d
            /\ pgSuggestions c (statements d) = Ok s
            /\ reports r s)
      /\ applies r)
  /\ (forall imports uuid c r c' evs,
      pushSQLiteSchema imports uuid c = (Ret r, c', evs) ->
      c' = c /\ issued evs = [] /\ prompts evs = []
      /\ (exists cur prev vprev vcur sprev scur d meta s,
            Api.generateSQLiteDrizzleJson originUUID Imports SQLiteTables
              sqlite_prepareFromExports generateSqliteSnapshot imports None uuid = Ok cur
            /\ sqlitePushIntrospect c [] = Ok prev
            /\ sqliteSchema_parse prev = Ok vprev
            /\ sqliteSchema_parse cur = Ok vcur
            /\ squashSqliteScheme vprev (Some "push") = Ok sprev
            /\ squashSqliteScheme vcur (Some "push") = Ok scur
            /\ applySqliteSnapshotsDiff sprev scur vprev vcur (Some "push") = Ok (d, meta)
            /\ sqliteLogSuggestionsAndReturn c (statements d) sprev scur meta = Ok s
            /\ reports r s)
      /\ applies r)
  /\ (forall imports databaseName uuid c r c' evs,
      pushMySQLSchema imports databaseName uuid c = (Ret r, c', evs) ->
      c' = c /\ issued evs = [] /\ prompts evs = []
      /\ (exists cur prev vprev vcur sprev scur d s,
            Api.generateMySQLDrizzleJson originUUID Imports MySqlTables
              mysql_prepareFromExports generateMySqlSnapshot imports None uuid = Ok cur
            /\ mysqlPushIntrospect c databaseName [] = Ok prev
            /\ mysqlSchema_parse prev = Ok vprev
            /\ mysqlSchema_parse cur = Ok vcur
            /\ squashMysqlScheme vprev = Ok sprev
            /\ squashMysqlScheme vcur = Ok scur
            /\ applyMysqlSnapshotsDiff sprev scur vprev vcur (Some "push") = Ok d
            /\ mysqlLogSuggestionsAndReturn c (statements d) vcur = Ok s
            /\ reports r s)
      /\ applies r).
Proof.
  split; [|split].
  - intros imports schemaFilters uuid c r c' evs Hrun.
    unfold ApiPush.pushSchema in Hrun. returned Hrun.
    injection Hrun as <- <- <-.
    do 3 (split; [reflexivity|]). split.
    + eexists _, _, _, _, _, _, _, _. repeat (split; [eassumption|]). by repeat split.
    + intros c0. apply for_await_query_cases.
  - intros imports uuid c r c' evs Hrun.
    unfold ApiPush.pushSQLiteSchema in Hrun. returned Hrun.
    injection Hrun as <- <- <-.
    do 3 (split; [reflexivity|]). split.
    + match goal with
      | Hd : applySqliteSnapshotsDiff _ _ _ _ _ = Ok ?p |- _ =>
          destruct p as [d meta]; cbn [fst snd] in *
      end.
      eexists _, _, _, _, _, _, _, _, _. repeat (split; [eassumption|]). by repeat split.
    + intros c0. apply for_await_query_cases.
  - intros imports databaseName uuid c r c' evs Hrun.
    unfold ApiPush.pushMySQLSchema in Hrun. returned Hrun.
    injection Hrun as <- <- <-.
    do 3 (split; [reflexivity|]). split.
    + eexists _, _, _, _, _, _, _, _. repeat (split; [eassumption|]). by repeat split.
    + intros c0. apply for_await_query_cases.
Qed.

(** X26: in the three programmatic pushes the snapshot of the database is
    validated before the snapshot of the schema files: when the validator
    rejects it, its error is raised, whatever the other snapshot is, and the
    connection is left as it was.  An error of the serializer is raised
    before the database is read. *)
Theorem programmatic_pushes_validate :
  (forall imports schemaFilters uuid c,
      (forall e,
          Api.generateDrizzleJson originUUID Imports PgTables PgEnums PgSchemas PgSequences
            pg_prepareFromExports generatePgSnapshot imports None None uuid = Err e ->
          pushSchema imports schemaFilters uuid c = (Throw e, c, []))
      /\ (forall cur prev e,
          Api.generateDrizzleJson originUUID Imports PgTables PgEnums PgSchemas PgSequences
            pg_prepareFromExports generatePgSnapshot imports None None uuid = Ok cur ->
          pgPushIntrospect c [] (default ["public"] schemaFilters) = Ok prev ->
          pgSchema_parse prev = Err e ->
          pushSchema imports schemaFilters uuid c = (Throw e, c, [])))
  /\ (forall imports uuid c,
      (forall e,
          Api.generateSQLiteDrizzleJson originUUID Imports SQLiteTables
            sqlite_prepareFromExports generateSqliteSnapshot imports None uuid = Err e ->
          pushSQLiteSchema imports uuid c = (Throw e, c, []))
      /\ (forall cur prev e,
          Api.generateSQLiteDrizzleJson originUUID Imports SQLiteTables
            sqlite_prepareFromExports generateSqliteSnapshot imports None uuid = Ok cur ->
          sqlitePushIntrospect c [] = Ok prev ->
          sqliteSchema_parse prev = Err e ->
          pushSQLiteSchema imports uuid c = (Throw e, c, [])))
  /\ (forall imports databaseName uuid c,
      (forall e,
          Api.generateMySQLDrizzleJson originUUID Imports MySqlTables
            mysql_prepareFromExports generateMySqlSnapshot imports None uuid = Err e ->
          pushMySQLSchema imports databaseName uuid c = (Throw e, c, []))
      /\ (forall cur prev e,
          Api.generateMySQLDrizzleJson originUUID Imports MySqlTables
            mysql_prepareFromExports generateMySqlSnapshot imports None uuid = Ok cur ->
          mysqlPushIntrospect c databaseName [] = Ok prev ->
          mysqlSchema_parse prev = Err e ->
          pushMySQLSchema imports databaseName uuid c = (Throw e, c, []))).
Proof.
  split; [|split].
  - intros imports schemaFilters uuid c. split.
    + intros e Hgen. unfold ApiPush.pushSchema. by rewrite Hgen, bind_lift_Err.
    + intros cur prev e Hgen Hint Hparse. unfold ApiPush.pushSchema.
      rewrite Hgen, bind_lift_Ok.
      rewrite (bind_reads_Ok
                 (fun db => pgPushIntrospect db [] (default ["public"] schemaFilters))
                 _ _ c Hint).
      by rewrite Hparse, bind_lift_Err.
  - intros imports uuid c. split.
    + intros e Hgen. unfold ApiPush.pushSQLiteSchema. by rewrite Hgen, bind_lift_Err.
    + intros cur prev e Hgen Hint Hparse. unfold ApiPush.pushSQLiteSchema.
      rewrite Hgen, bind_lift_Ok.
      rewrite (bind_reads_Ok (fun db => sqlitePushIntrospect db []) _ _ c Hint).
      by rewrite Hparse, bind_lift_Err.
  - intros imports databaseName uuid c. split.
    + intros e Hgen. unfold ApiPush.pushMySQLSchema. by rewrite Hgen, bind_lift_Err.
    + intros cur prev e Hgen Hint Hparse. unfold ApiPush.pushMySQLSchema.
      rewrite Hgen, bind_lift_Ok.
      rewrite (bind_reads_Ok (fun db => mysqlPushIntrospect db databaseName []) _ _ c Hint).
      by rewrite Hparse, bind_lift_Err.
Qed.

End ApiPushFacts.

Lemma programmatic_pushes_witness :
  (hasDataLoss Sample.created = false
   /\ res_statementsToExecute Sample.created = [Sample.create_users; Sample.create_users])
  /\ ((exists c1,
         apply Sample.created []
         = (Ret tt, c1, accepted (res_statementsToExecute Sample.created)))
      \/ (exists c1 l1 x l2,
            res_statementsToExecute Sample.created = l1 ++ x :: l2
            /\ apply Sample.created []
               = (Throw DriverError, c1, accepted l1 ++ [Issued x; Settled x false]))).
Proof.
  destruct (@programmatic_pushes (list string) Example.log_db Example.originUUID
              unit string unit unit unit unit unit unit
              Sample.pgPrepare Sample.pgSerialize Sample.pgRead Sample.accepts
              Sample.squashFor Sample.diff Sample.twice
              unit unit unit unit
              Sample.prepare Sample.serialize Sample.sqliteRead Sample.accepts
              Sample.squashFor Sample.diffWithMeta Sample.sqliteClassifier
              unit unit unit
              Sample.prepare Sample.serialize Sample.mysqlRead Sample.accepts
              Sample.squash Sample.diff Sample.mysqlClassifier) as (Hpg & Hsqlite & Hmysql).
  assert (Hpg' : Sample.pushSchema Sample.accepts [] = (Ret Sample.created, [], []))
    by (vm_compute; reflexivity).
  assert (Hsqlite' : Sample.pushSQLiteSchema Sample.accepts [] = (Ret Sample.created, [], []))
    by (vm_compute; reflexivity).
  assert (Hmysql' : Sample.pushMySQLSchema Sample.accepts [] = (Ret Sample.created, [], []))
    by (vm_compute; reflexivity).
  destruct (Hsqlite tt "0d7a" [] _ _ _ Hsqlite') as (_ & _ & _ & Hsq & _).
  destruct (Hmysql tt "drizzle" "0d7a" [] _ _ _ Hmysql') as (_ & _ & _ & Hmy & _).
  destruct (Hpg tt None "0d7a" [] _ _ _ Hpg') as (_ & _ & _ & Hchain & Happly).
  split; [|apply Happly].
  destruct Hchain as (cur & prev & vprev & vcur & sprev & scur & d & s
                      & _ & _ & _ & _ & _ & _ & Hd & Hs & Hdl & _ & Hst).
  injection Hd as <-. injection Hs as <-. by split.
Defined.


Lemma programmatic_pushes_validate_witness :
  Sample.pushSchema Sample.rejects [] = (Throw ZodError, [], [])
  /\ Sample.pushSQLiteSchema Sample.rejects [] = (Throw ZodError, [], [])
  /\ Sample.pushMySQLSchema Sample.rejects [] = (Throw ZodError, [], []).
Proof.
  destruct (@programmatic_pushes_validate (list string) Example.log_db Example.originUUID
              unit string unit unit unit unit unit unit
              Sample.pgPrepare Sample.pgSerialize Sample.pgRead Sample.rejects
              Sample.squashFor Sample.diff Sample.twice
              unit unit unit unit
              Sample.prepare Sample.serialize Sample.sqliteRead Sample.rejects
              Sample.squashFor Sample.diffWithMeta Sample.sqliteClassifier
              unit unit unit
              Sample.prepare Sample.serialize Sample.mysqlRead Sample.rejects
              Sample.squash Sample.diff Sample.mysqlClassifier) as (Hpg & Hsqlite & Hmysql).
  split; [|split].
  - refine (proj2 (Hpg tt None "0d7a" []) _ _ ZodError _ _ _); reflexivity.
  - refine (proj2 (Hsqlite tt "0d7a" []) _ _ ZodError _ _ _); reflexivity.
  - refine (proj2 (Hmysql tt "drizzle" "0d7a" []) _ _ ZodError _ _ _); reflexivity.
Defined.

(** ** Decoding a squashed snapshot *)

Lemma squashSingleStoreScheme_Ok_inv (json : SingleStoreSchema)
    (squashed : SingleStoreSchemaSquashed) :
  squashSingleStoreScheme json = Ok squashed ->
  forall key t name i,
    s_tables json !! key = Some t -> tbl_indexes t !! name = Some i ->
    index_valid i = true.
Proof.
  intros Hok key t name i Hkt Hki. unfold squashSingleStoreScheme in Hok.
  destruct (rmapM _ (map_to_list (s_tables json))) as [entries|e] eqn:Hm; [|done].
  destruct (rmapM_Ok_inv _ _ _ Hm (key, t)) as (y & Hy);
    [by apply elem_of_map_to_list|].
  cbn [snd fst] in Hy.
  destruct (mapValues (tbl_indexes t) _) as [sq|e] eqn:Hidx; [|done].
  destruct (mapValues_Ok_inv _ _ _ Hidx name i Hki) as (s & Hs).
  by eapply squashIdx_Ok_valid.
Qed.

(** The squashed snapshot, table by table. *)
Lemma squashSingleStoreScheme_shape (json : SingleStoreSchema) :
  (forall key t name i,
      s_tables json !! key = Some t -> tbl_indexes t !! name = Some i ->
      index_valid i = true) ->
  squashSingleStoreScheme json
  = Ok {| sq_version := "1";
          sq_dialect := s_dialect json;
          sq_tables :=
            (fun t : Table =>
               {| ts_name := tbl_name t;
                  ts_columns := tbl_columns t;
                  ts_indexes :=
                    (fun i => match squashIdx i with Ok s => s | Err _ => "" end)
                    <$> tbl_indexes t;
                  ts_compositePrimaryKeys := squashPK <$> tbl_compositePrimaryKeys t;
                  ts_uniqueConstraints := squashUnique <$> tbl_uniqueConstraints t |})
            <$> s_tables json |}.
Proof.
  intros Hv.
  set (idxText := fun i => match squashIdx i with Ok s => s | Err _ => "" end).
  set (squashTable := fun t : Table =>
         {| ts_name := tbl_name t;
            ts_columns := tbl_columns t;
            ts_indexes := idxText <$> tbl_indexes t;
            ts_compositePrimaryKeys := squashPK <$> tbl_compositePrimaryKeys t;
            ts_uniqueConstraints := squashUnique <$> tbl_uniqueConstraints t |}).
  unfold squashSingleStoreScheme.
  rewrite (rmapM_ok _ (prod_map id squashTable)).
  - cbn. by rewrite list_to_map_fmap, list_to_map_to_list.
  - intros [key t] Hkt%elem_of_map_to_list. cbn [snd fst].
    rewrite (mapValues_ok _ _ idxText).
    + rewrite (mapValues_ok _ _ squashPK) by done.
      by rewrite (mapValues_ok _ _ squashUnique).
    + intros k i Hki. unfold idxText.
      by rewrite (squashIdx_fields i (Hv key t k i Hkt Hki)).
Qed.

(** X27: every entry of a squashed snapshot decodes to the entry it came
    from.  When [squashSingleStoreScheme] returns, each table of the input
    is found under its key, and unsquashing the string stored for an index, a
    composite primary key or a unique constraint gives that value back,
    provided its name and columns hold no delimiter and it has a column. *)
Theorem squashed_snapshot_decodes (json : SingleStoreSchema)
    (squashed : SingleStoreSchemaSquashed) :
  squashSingleStoreScheme json = Ok squashed ->
  forall key t,
    s_tables json !! key = Some t ->
    exists t',
      sq_tables squashed !! key = Some t'
      /\ (forall k i,
            tbl_indexes t !! k = Some i ->
            Js.has_char semi (idx_name i) = false ->
            idx_columns i <> [] ->
            Forall (fun c => Js.has_char semi c = false /\ Js.has_char comma c = false)
                   (idx_columns i) ->
            exists s, ts_indexes t' !! k = Some s /\ unsquashIdx s = Ok i)
      /\ (forall k pk,
            tbl_compositePrimaryKeys t !! k = Some pk ->
            Js.has_char semi (pk_name pk) = false ->
            pk_columns pk <> [] ->
            Forall (fun c => Js.has_char semi c = false /\ Js.has_char comma c = false)
                   (pk_columns pk) ->
            exists s, ts_compositePrimaryKeys t' !! k = Some s /\ unsquashPK s = Ok pk)
      /\ (forall k unq,
            tbl_uniqueConstraints t !! k = Some unq ->
            Js.has_char semi (unq_name unq) = false ->
            unq_columns unq <> [] ->
            Forall (fun c => Js.has_char semi c = false /\ Js.has_char comma c = false)
                   (unq_columns unq) ->
            exists s, ts_uniqueConstraints t' !! k = Some s /\ unsquashUnique s = Ok unq).
Proof.
  intros Hok key t Hkt.
  pose proof (squashSingleStoreScheme_Ok_inv json squashed Hok) as Hv.
  rewrite (squashSingleStoreScheme_shape json Hv) in Hok. injection Hok as <-.
  eexists. cbn [sq_tables]. rewrite lookup_fmap, Hkt. split; [reflexivity|].
  cbn [ts_indexes ts_compositePrimaryKeys ts_uniqueConstraints].
  split; [|split].
  - intros k i Hki Hn Hne Hc. eexists. rewrite lookup_fmap, Hki. split; [reflexivity|].
    pose proof (unsquashIdx_squashIdx i (Hv key t k i Hkt Hki) Hn Hne Hc) as Hrt.
    rewrite (squashIdx_fields i (Hv key t k i Hkt Hki)) in Hrt |- *. exact Hrt.
  - intros k pk Hk Hn Hne Hc. eexists. rewrite lookup_fmap, Hk. split; [reflexivity|].
    by apply unsquashPK_squashPK.
  - intros k unq Hk Hn Hne Hc. eexists. rewrite lookup_fmap, Hk. split; [reflexivity|].
    by apply unsquashUnique_squashUnique.
Qed.

Lemma squashed_snapshot_decodes_witness :
  exists squashed t' s,
    squashSingleStoreScheme Example.live = Ok squashed
    /\ sq_tables squashed !! "users" = Some t'
    /\ ts_indexes t' !! "users_email_idx" = Some s
    /\ unsquashIdx s = Ok (mkIndex "users_email_idx" ["email"] true (Some "hash") None None).
Proof.
  destruct (squashSingleStoreScheme Example.live) as [squashed|e] eqn:Hsq;
    [|exfalso; vm_compute in Hsq; discriminate Hsq].
  assert (Hkt : s_tables Example.live !! "users" = Some Example.users_table)
    by reflexivity.
  destruct (squashed_snapshot_decodes Example.live squashed Hsq "users" Example.users_table
              Hkt) as (t' & Ht' & Hidx & _).
  assert (Hki : tbl_indexes Example.users_table !! "users_email_idx"
                = Some (mkIndex "users_email_idx" ["email"] true (Some "hash") None None))
    by reflexivity.
  assert (Hne : ["email"] <> @nil string) by discriminate.
  assert (Hc : Forall (fun c => Js.has_char semi c = false /\ Js.has_char comma c = false)
                 ["email"]).
  { constructor; [by split|constructor]. }
  destruct (Hidx "users_email_idx" _ Hki eq_refl Hne Hc) as (s & Hs & Hun).
  exists squashed, t', s.
  split; [reflexivity|]. split; [exact Ht'|]. split; [exact Hs|exact Hun].
Defined.
